(** * y.granular: the active-set index, the grain scheduler and the grain
    renderer of the [granular~] external, embedded from [linked_list.h],
    [linked_list.c] and [granular.c].

    Integers of the C code are [Z] with the wrap-around of their width written
    out, [t_double] values are binary64 floats ([PrimFloat]), arrays are lists
    read and written through bounds-checked accessors, and every C function
    that touches memory or loops returns an [outcome]. *)

From Stdlib Require Import ZArith Lia Bool List Floats String Uint63.
From stdpp Require Import base list sets.

Local Open Scope Z_scope.

(* ===================================================================== *)
(** * Part I: the embedding                                               *)
(* ===================================================================== *)

(** ** Outcomes of C code *)

(** A run of C code either finishes with a value, or makes an access outside
    an array (undefined behaviour, [Fault]), or is still looping when the
    iteration budget of a [while] is used up ([OutOfFuel]). *)
Inductive outcome (A : Type) : Type :=
| Done (a : A)
| Fault
| OutOfFuel.

Arguments Done {A} a.
Arguments Fault {A}.
Arguments OutOfFuel {A}.

Definition bind {A B : Type} (m : outcome A) (k : A -> outcome B) : outcome B :=
  match m with
  | Done a => k a
  | Fault => Fault
  | OutOfFuel => OutOfFuel
  end.

Notation "'let*' x := m 'in' k" := (bind m (fun x => k))
  (at level 10, x name, m at level 100, k at level 200).
Notation "'let*' ' p := m 'in' k" := (bind m (fun z => match z with p => k end))
  (at level 10, p pattern, m at level 100, k at level 200).

(** [while (cond) { body }] with an iteration budget. *)
Fixpoint while_loop {St : Type} (fuel : nat) (cond : St -> outcome bool)
    (body : St -> outcome St) (s : St) : outcome St :=
  let* b := cond s in
  if (b : bool) then
    match fuel with
    | O => OutOfFuel
    | S fuel' => let* s' := body s in while_loop fuel' cond body s'
    end
  else Done s.

(** ** Arrays *)

(** [a[i]] as an rvalue and [a[i] = v]; an index outside the array faults. *)
Definition rd {A : Type} (a : list A) (i : Z) : outcome A :=
  if 0 <=? i then
    match a !! Z.to_nat i with
    | Some v => Done v
    | None => Fault
    end
  else Fault.

Definition wr {A : Type} (a : list A) (i : Z) (v : A) : outcome (list A) :=
  if (0 <=? i) && (i <? Z.of_nat (length a)) then Done (<[Z.to_nat i := v]> a)
  else Fault.

(** The array after [a[i] = v], and the indices inside an array. *)
Definition upd {A : Type} (a : list A) (i : Z) (v : A) : list A :=
  <[Z.to_nat i := v]> a.

Definition in_range {A : Type} (a : list A) (i : Z) : Prop :=
  0 <= i < Z.of_nat (length a).

(** ** Machine integers *)

Definition wrap (bits : Z) (n : Z) : Z :=
  (n + 2 ^ (bits - 1)) mod 2 ^ bits - 2 ^ (bits - 1).

Definition wrap16 : Z -> Z := wrap 16.
Definition wrap32 : Z -> Z := wrap 32.

Definition INT16_MAX : Z := 32767.
Definition INT32_MAX : Z := 2147483647.
Definition INT32_MIN : Z := -2147483648.

(** ** linked_list.h, linked_list.c *)

Module LinkedList.

Definition LIST_END : Z := -1.
Definition LIST_ERR_FULL : Z := -2.
Definition LIST_ERR_EMPTY : Z := -3.
Definition LIST_ERR_END : Z := -4.
Definition LIST_ERR_BEGIN : Z := -5.
Definition LIST_ERR_ARG : Z := -6.
Definition LIST_NOT_FOUND : Z := -7.

(** [struct _list]. A node pointer [t_int16*] always points into [array], so
    it is the index of the cell it points to; [first_used] is the cell [len]
    and [first_empty] the cell [len + 1]. *)
Record t_list : Type := { len : Z; array : list Z }.

Definition first_used (l : t_list) : Z := len l.
Definition first_empty (l : t_list) : Z := len l + 1.

Definition with_array (l : t_list) (a : list Z) : t_list :=
  {| len := len l; array := a |}.

(** The loops that follow a chain to its end stop after at most one step per
    cell unless the chain is cyclic, in which case the C loop never stops:
    the budget is the number of cells. *)
Definition budget (l : t_list) : nat := length (array l).

(** [for (i = 0; i < len - 1; i++) array[i] = i + 1;] *)
Fixpoint list_new_fill (cnt : nat) (i : Z) (a : list Z) : outcome (list Z) :=
  match cnt with
  | O => Done a
  | S cnt' => let* a' := wr a i (i + 1) in list_new_fill cnt' (i + 1) a'
  end.

(** [list_new]: the array has [n + 2] cells, zero stands for their
    uninitialised content. *)
Definition list_new (n : Z) : outcome t_list :=
  let a0 := replicate (Z.to_nat (n + 2)) 0 in
  let* a1 := list_new_fill (Z.to_nat (n - 1)) 0 a0 in
  let* a2 := wr a1 (n - 1) LIST_END in
  let* a3 := wr a2 n LIST_END in
  let* a4 := wr a3 (n + 1) 0 in
  Done {| len := n; array := a4 |}.

(** [list_prev_node] *)
Definition list_prev_node (l : t_list) (node : Z) : outcome Z :=
  if node =? first_used l then Done node
  else
    while_loop (budget l)
      (fun current => let* v := rd (array l) current in Done (negb (v =? node)))
      (fun current => rd (array l) current)
      (first_used l).

(** [list_next_node] *)
Definition list_next_node (l : t_list) (node : Z) : outcome Z :=
  let* v := rd (array l) node in
  if v =? LIST_END then Done node else Done v.

(** [list_insert_first] *)
Definition list_insert_first (l : t_list) : outcome (t_list * Z) :=
  let a := array l in
  let* e := rd a (first_empty l) in
  if e =? LIST_END then Done (l, LIST_ERR_FULL)
  else
    let tmp := e in
    let* nxt := rd a tmp in
    let* a1 := wr a (first_empty l) nxt in
    let* u := rd a1 (first_used l) in
    let* a2 := wr a1 tmp u in
    let* a3 := wr a2 (first_used l) tmp in
    Done (with_array l a3, tmp).

(** [list_insert_node] *)
Definition list_insert_node (l : t_list) (node : Z) : outcome (t_list * Z) :=
  let a := array l in
  let* e := rd a (first_empty l) in
  if e =? LIST_END then Done (l, LIST_ERR_FULL)
  else
    let tmp := e in
    let* nxt := rd a tmp in
    let* a1 := wr a (first_empty l) nxt in
    let* v := rd a1 node in
    let* a2 := wr a1 tmp v in
    let* a3 := wr a2 node tmp in
    Done (with_array l a3, tmp).

(** [list_remove_first] *)
Definition list_remove_first (l : t_list) : outcome (t_list * Z) :=
  let a := array l in
  let* u := rd a (first_used l) in
  if u =? LIST_END then Done (l, LIST_ERR_EMPTY)
  else
    let tmp := u in
    let* nxt := rd a tmp in
    let* a1 := wr a (first_used l) nxt in
    let* e := rd a1 (first_empty l) in
    let* a2 := wr a1 tmp e in
    let* a3 := wr a2 (first_empty l) tmp in
    Done (with_array l a3, tmp).

(** [list_remove_node] *)
Definition list_remove_node (l : t_list) (node : Z) : outcome (t_list * Z) :=
  let a := array l in
  let* u := rd a (first_used l) in
  if u =? LIST_END then Done (l, LIST_ERR_EMPTY)
  else
    let* tmp := rd a node in
    let* nxt := rd a tmp in
    let* a1 := wr a node nxt in
    let* e := rd a1 (first_empty l) in
    let* a2 := wr a1 tmp e in
    let* a3 := wr a2 (first_empty l) tmp in
    Done (with_array l a3, tmp).

(** [while ( *node != LIST_END) { node = list->array + *node; }] *)
Definition walk_to_end (l : t_list) (start : Z) : outcome Z :=
  while_loop (budget l)
    (fun node => let* v := rd (array l) node in Done (negb (v =? LIST_END)))
    (fun node => rd (array l) node)
    start.

(** [while (( *node != LIST_END) && (cnt > 0)) { node = list->array + *node; cnt--; }]
    The loop runs at most [cnt] times, which is its budget. *)
Definition walk_nth (l : t_list) (start : Z) (n : Z) : outcome Z :=
  let* '(node, _) :=
    while_loop (Z.to_nat n)
      (fun '(node, cnt) =>
         let* v := rd (array l) node in Done (negb (v =? LIST_END) && (0 <? cnt)))
      (fun '(node, cnt) => let* v := rd (array l) node in Done (v, wrap16 (cnt - 1)))
      (start, n) in
  Done node.

(** [while (( *node != LIST_END) && ( *node != index)) { node = list->array + *node; }] *)
Definition walk_to_index (l : t_list) (start : Z) (index : Z) : outcome Z :=
  while_loop (budget l)
    (fun node =>
       let* v := rd (array l) node in Done (negb (v =? LIST_END) && negb (v =? index)))
    (fun node => rd (array l) node)
    start.

(** [list_insert_last] *)
Definition list_insert_last (l : t_list) : outcome (t_list * Z) :=
  let a := array l in
  let* e := rd a (first_empty l) in
  if e =? LIST_END then Done (l, LIST_ERR_FULL)
  else
    let* node := walk_to_end l (first_used l) in
    let* e1 := rd a (first_empty l) in
    let* a1 := wr a node e1 in
    let* v := rd a1 node in
    let* nxt := rd a1 v in
    let* a2 := wr a1 (first_empty l) nxt in
    let* v' := rd a2 node in
    let* a3 := wr a2 v' LIST_END in
    let* r := rd a3 node in
    Done (with_array l a3, r).

(** [list_insert_nth] *)
Definition list_insert_nth (l : t_list) (n : Z) : outcome (t_list * Z) :=
  let a := array l in
  let* e := rd a (first_empty l) in
  if e =? LIST_END then Done (l, LIST_ERR_FULL)
  else
    let* node := walk_nth l (first_used l) n in
    let* tmp := rd a (first_empty l) in
    let* nxt := rd a tmp in
    let* a1 := wr a (first_empty l) nxt in
    let* v := rd a1 node in
    let* a2 := wr a1 tmp v in
    let* a3 := wr a2 node tmp in
    Done (with_array l a3, tmp).

(** [list_insert_index] *)
Definition list_insert_index (l : t_list) (index : Z) : outcome (t_list * Z) :=
  let a := array l in
  let* node := walk_to_index l (first_empty l) index in
  let* v := rd a node in
  if v =? LIST_END then Done (l, LIST_NOT_FOUND)
  else
    let* nxt := rd a index in
    let* a1 := wr a node nxt in
    let* u := rd a1 (first_used l) in
    let* a2 := wr a1 index u in
    let* a3 := wr a2 (first_used l) index in
    Done (with_array l a3, index).

(** [list_remove_last]. The value returned is read back from [*node] after
    it was overwritten with [LIST_END]. *)
Definition list_remove_last (l : t_list) : outcome (t_list * Z) :=
  let a := array l in
  let* u := rd a (first_used l) in
  if u =? LIST_END then Done (l, LIST_ERR_EMPTY)
  else
    let* '(node, _) :=
      while_loop (budget l)
        (fun '(_, next) => let* v := rd a next in Done (negb (v =? LIST_END)))
        (fun '(_, next) => let* v := rd a next in Done (next, v))
        (first_used l, u) in
    let* v := rd a node in
    let* e := rd a (first_empty l) in
    let* a1 := wr a v e in
    let* v1 := rd a1 node in
    let* a2 := wr a1 (first_empty l) v1 in
    let* a3 := wr a2 node LIST_END in
    let* r := rd a3 node in
    Done (with_array l a3, r).

(** [list_remove_nth] *)
Definition list_remove_nth (l : t_list) (n : Z) : outcome (t_list * Z) :=
  let a := array l in
  let* u := rd a (first_used l) in
  if u =? LIST_END then Done (l, LIST_ERR_EMPTY)
  else
    let* node := walk_nth l (first_used l) n in
    let* v := rd a node in
    if v =? LIST_END then Done (l, LIST_ERR_ARG)
    else
      let tmp := v in
      let* nxt := rd a tmp in
      let* a1 := wr a node nxt in
      let* e := rd a1 (first_empty l) in
      let* a2 := wr a1 tmp e in
      let* a3 := wr a2 (first_empty l) tmp in
      Done (with_array l a3, tmp).

(** [list_remove_index] *)
Definition list_remove_index (l : t_list) (index : Z) : outcome (t_list * Z) :=
  let a := array l in
  let* node := walk_to_index l (first_used l) index in
  let* v := rd a node in
  if v =? LIST_END then Done (l, LIST_NOT_FOUND)
  else
    let* nxt := rd a index in
    let* a1 := wr a node nxt in
    let* e := rd a1 (first_empty l) in
    let* a2 := wr a1 index e in
    let* a3 := wr a2 (first_empty l) index in
    Done (with_array l a3, index).

(** The indices met when a list is followed from one of its two heads, as
    [list_post] and the loops of [granular_perform64] do:
    [while ( *ptr != LIST_END) { ...; ptr = list->array + *ptr; }] *)
Fixpoint indices_from (fuel : nat) (a : list Z) (ptr : Z) : outcome (list Z) :=
  let* v := rd a ptr in
  if v =? LIST_END then Done []
  else
    match fuel with
    | O => OutOfFuel
    | S fuel' => let* rest := indices_from fuel' a v in Done (v :: rest)
    end.

Definition used_indices (l : t_list) : outcome (list Z) :=
  indices_from (budget l) (array l) (first_used l).

Definition empty_indices (l : t_list) : outcome (list Z) :=
  indices_from (budget l) (array l) (first_empty l).

(** [k] calls of [list_insert_first] in a row, with the values they return. *)
Fixpoint insert_first_times (k : nat) (l : t_list) : outcome (t_list * list Z) :=
  match k with
  | O => Done (l, [])
  | S k' =>
      let* '(l1, r) := list_insert_first l in
      let* '(l2, rs) := insert_first_times k' l1 in
      Done (l2, r :: rs)
  end.

(** The operations of the index, as one type. *)
Inductive list_op : Type :=
| InsertFirst
| InsertNode (node : Z)
| InsertLast
| InsertNth (n : Z)
| InsertIndex (index : Z)
| RemoveFirst
| RemoveNode (node : Z)
| RemoveLast
| RemoveNth (n : Z)
| RemoveIndex (index : Z).

Definition run_op (op : list_op) (l : t_list) : outcome (t_list * Z) :=
  match op with
  | InsertFirst => list_insert_first l
  | InsertNode node => list_insert_node l node
  | InsertLast => list_insert_last l
  | InsertNth n => list_insert_nth l n
  | InsertIndex index => list_insert_index l index
  | RemoveFirst => list_remove_first l
  | RemoveNode node => list_remove_node l node
  | RemoveLast => list_remove_last l
  | RemoveNth n => list_remove_nth l n
  | RemoveIndex index => list_remove_index l index
  end.

End LinkedList.

(** ** The two lists of an index *)

Import LinkedList.

(** [chain a c vs]: following the links from the cell [c] meets the indices
    [vs] and then [LIST_END]. *)
Inductive chain (a : list Z) : Z -> list Z -> Prop :=
| chain_end c : rd a c = Done LIST_END -> chain a c []
| chain_step c v vs :
    rd a c = Done v -> v <> LIST_END -> chain a v vs -> chain a c (v :: vs).

(** [path a c vs p]: following the links from the cell [c] meets the indices
    [vs] and stops on the cell [p], the last of them. *)
Inductive path (a : list Z) : Z -> list Z -> Z -> Prop :=
| path_here c : path a c [] c
| path_step c v vs p :
    rd a c = Done v -> v <> LIST_END -> path a v vs p -> path a c (v :: vs) p.

(** The two lists of an index of capacity [len l]: [us] from [first_used],
    [es] from [first_empty], together the indices [0 .. len l - 1]. *)
Record repr (l : t_list) (us es : list Z) : Prop := {
  repr_cells : Z.of_nat (length (array l)) = len l + 2;
  repr_used : chain (array l) (first_used l) us;
  repr_empty : chain (array l) (first_empty l) es;
  repr_perm : us ++ es ≡ₚ seqZ 0 (len l)
}.

(** The partition invariant, read off the two lists as the code walks them. *)
Definition partition_inv (l : t_list) : Prop :=
  exists us es,
    used_indices l = Done us /\ empty_indices l = Done es /\
    us ++ es ≡ₚ seqZ 0 (len l) /\
    Z.of_nat (length (array l)) = len l + 2.

(** A cursor of an iteration over the used list: the head cell or the cell of
    a used index. *)
Definition used_cursor (l : t_list) (node : Z) : Prop :=
  exists us, used_indices l = Done us /\ (node = first_used l \/ node ∈ us).

(** What an operation needs from its argument: a node pointer is a cursor of
    the used list, the node removed through it exists, and a position is a
    [t_int16]. *)
Definition op_pre (op : list_op) (l : t_list) : Prop :=
  match op with
  | InsertNode node => used_cursor l node
  | RemoveNode node => used_cursor l node /\ rd (array l) node <> Done LIST_END
  | InsertNth n | RemoveNth n => -32768 <= n <= 32767
  | _ => True
  end.

(** The array after the three writes that move the index [u], found through
    the pointer [pf], in front of what the pointer [pt] points to. *)
Definition spliced (a : list Z) (pf pt u nxt v : Z) : list Z :=
  upd (upd (upd a pf nxt) u v) pt u.

(** The facts an operation's symbolic run needs, and the lists afterwards. *)
Record moved (l : t_list) (pf pt u : Z) (a' : list Z) : Prop := {
  moved_rd_pf : rd (array l) pf = Done u;
  moved_u : u <> LIST_END;
  moved_ne1 : pf <> u;
  moved_ne2 : pf <> pt;
  moved_ne3 : u <> pt;
  moved_nxt : exists nxt v,
    rd (array l) u = Done nxt /\ rd (array l) pt = Done v /\
    a' = spliced (array l) pf pt u nxt v
}.

(** ** Numbers of granular.c *)

(** [(t_double)n] for an integer [n] of at most 32 bits: exact. *)
Definition of_int (n : Z) : float :=
  if n <? 0 then (- of_uint63 (Uint63.of_Z (- n)))%float else of_uint63 (Uint63.of_Z n).

(** [(t_int32)f]: the fraction is dropped. C leaves the conversion of a NaN,
    an infinity or a value outside the range undefined; the model gives what
    x86-64 gives, [INT32_MIN]. *)
Definition trunc_int32 (f : float) : Z :=
  match Prim2SF f with
  | S754_zero _ => 0
  | S754_finite s m e =>
      let a := if 0 <=? e then Z.pos m * 2 ^ e else Z.pos m / 2 ^ (- e) in
      let n := if s then - a else a in
      if (INT32_MIN <=? n) && (n <=? INT32_MAX) then n else INT32_MIN
  | _ => INT32_MIN
  end.

(** A [double] rounded to the nearest [float] (binary32), for the arithmetic
    the C code does on the [float] elements of its tables. *)
Definition round_single (x : float) : float :=
  match Prim2SF x with
  | S754_finite s m e => SF2Prim (binary_round 24 128 s m e)
  | _ => x
  end.

(** [a - b] for two [float]s. *)
Definition sub_single (a b : float) : float := round_single (a - b).

(** A number that is neither a NaN nor an infinity. *)
Definition finite (f : float) : bool :=
  match Prim2SF f with
  | S754_zero _ | S754_finite _ _ _ => true
  | _ => false
  end.

(** ** What the object takes from its surroundings *)

(** libc's [rand] (the value of its [n]-th call) with [RAND_MAX], libm's
    [exp], and the content of the memory around the envelope table and the
    sample buffer of a seeder, which the renderer reads when an index leaves
    the table: a read outside an array is undefined in C, the machine code
    reads its neighbourhood and goes on. *)
Class Host : Type := {
  RAND_MAX : Z;
  rand : nat -> Z;
  exp : float -> float;
  stray_env : Z -> Z -> float;
  stray_src : Z -> Z -> float
}.

(** ** Atoms of the Max API *)

Inductive t_atom : Type :=
| A_LONG (n : Z)
| A_FLOAT (f : float)
| A_SYM (s : string).

Definition is_A_LONG (a : t_atom) : bool :=
  match a with A_LONG _ => true | _ => false end.

Definition atom_getlong (a : t_atom) : Z :=
  match a with
  | A_LONG n => n
  | A_FLOAT f => trunc_int32 f
  | A_SYM _ => 0
  end.

Definition atom_getfloat (a : t_atom) : float :=
  match a with
  | A_LONG n => of_int n
  | A_FLOAT f => f
  | A_SYM _ => 0%float
  end.

(** ** Constants of granular.c *)

Definition SEEDERS_MAX : Z := 10.
Definition GRAINS_MAX : Z := 100.
Definition POLY_MAX : Z := 10.
Definition ENV_N_SMP : Z := 1000.
Definition LN2 : float := 0x1.62e42fefa39efp-1%float.
Definition ERR_ARG : Z := -1.
Definition BUFF_NO_LINK : Z := -1.
Definition BUFF_NO_SYM : Z := -2.
Definition BUFF_NO_REF : Z := -3.
Definition BUFF_NO_OBJ : Z := -4.
Definition BUFF_NO_FILE : Z := -5.
Definition BUFF_READY : Z := 1.

(** ** [struct _seeder] *)

(** The fields the scheduler, the renderer and the setters use. The buffer
    object is the array [buffer_locksamples] gives for it ([buff_obj]); the
    four randomization amounts the code never reads, the symbols, the buffer
    reference and the envelope selector are left out. *)
Module Seeder.
Record t_seeder : Type := {
  index : Z;
  is_on : bool;
  ampl : float;
  src_begin : Z;
  src_len_ms : float;
  src_len : Z;
  shift : float;
  shift_r : float;
  out_len : Z;
  period : float;
  period_len : Z;
  speed : float;
  period_rand : float;
  buff_obj : list float;
  buff_n_chn : Z;
  buff_n_frm : Z;
  buff_msr : float;
  buff_state : Z;
  env_values : list float;
  poly_cnt : Z;
  period_cntd : list Z
}.

Definition set_is_on (v : bool) (s : t_seeder) : t_seeder :=
  {| index := index s; is_on := v; ampl := ampl s; src_begin := src_begin s;
     src_len_ms := src_len_ms s; src_len := src_len s; shift := shift s;
     shift_r := shift_r s; out_len := out_len s; period := period s;
     period_len := period_len s; speed := speed s; period_rand := period_rand s;
     buff_obj := buff_obj s; buff_n_chn := buff_n_chn s; buff_n_frm := buff_n_frm s;
     buff_msr := buff_msr s; buff_state := buff_state s; env_values := env_values s;
     poly_cnt := poly_cnt s; period_cntd := period_cntd s |}.

Definition set_ampl (v : float) (s : t_seeder) : t_seeder :=
  {| index := index s; is_on := is_on s; ampl := v; src_begin := src_begin s;
     src_len_ms := src_len_ms s; src_len := src_len s; shift := shift s;
     shift_r := shift_r s; out_len := out_len s; period := period s;
     period_len := period_len s; speed := speed s; period_rand := period_rand s;
     buff_obj := buff_obj s; buff_n_chn := buff_n_chn s; buff_n_frm := buff_n_frm s;
     buff_msr := buff_msr s; buff_state := buff_state s; env_values := env_values s;
     poly_cnt := poly_cnt s; period_cntd := period_cntd s |}.

Definition set_src_begin (v : Z) (s : t_seeder) : t_seeder :=
  {| index := index s; is_on := is_on s; ampl := ampl s; src_begin := v;
     src_len_ms := src_len_ms s; src_len := src_len s; shift := shift s;
     shift_r := shift_r s; out_len := out_len s; period := period s;
     period_len := period_len s; speed := speed s; period_rand := period_rand s;
     buff_obj := buff_obj s; buff_n_chn := buff_n_chn s; buff_n_frm := buff_n_frm s;
     buff_msr := buff_msr s; buff_state := buff_state s; env_values := env_values s;
     poly_cnt := poly_cnt s; period_cntd := period_cntd s |}.

Definition set_src_len_ms (v : float) (s : t_seeder) : t_seeder :=
  {| index := index s; is_on := is_on s; ampl := ampl s; src_begin := src_begin s;
     src_len_ms := v; src_len := src_len s; shift := shift s;
     shift_r := shift_r s; out_len := out_len s; period := period s;
     period_len := period_len s; speed := speed s; period_rand := period_rand s;
     buff_obj := buff_obj s; buff_n_chn := buff_n_chn s; buff_n_frm := buff_n_frm s;
     buff_msr := buff_msr s; buff_state := buff_state s; env_values := env_values s;
     poly_cnt := poly_cnt s; period_cntd := period_cntd s |}.

Definition set_src_len (v : Z) (s : t_seeder) : t_seeder :=
  {| index := index s; is_on := is_on s; ampl := ampl s; src_begin := src_begin s;
     src_len_ms := src_len_ms s; src_len := v; shift := shift s;
     shift_r := shift_r s; out_len := out_len s; period := period s;
     period_len := period_len s; speed := speed s; period_rand := period_rand s;
     buff_obj := buff_obj s; buff_n_chn := buff_n_chn s; buff_n_frm := buff_n_frm s;
     buff_msr := buff_msr s; buff_state := buff_state s; env_values := env_values s;
     poly_cnt := poly_cnt s; period_cntd := period_cntd s |}.

Definition set_shift (v : float) (s : t_seeder) : t_seeder :=
  {| index := index s; is_on := is_on s; ampl := ampl s; src_begin := src_begin s;
     src_len_ms := src_len_ms s; src_len := src_len s; shift := v;
     shift_r := shift_r s; out_len := out_len s; period := period s;
     period_len := period_len s; speed := speed s; period_rand := period_rand s;
     buff_obj := buff_obj s; buff_n_chn := buff_n_chn s; buff_n_frm := buff_n_frm s;
     buff_msr := buff_msr s; buff_state := buff_state s; env_values := env_values s;
     poly_cnt := poly_cnt s; period_cntd := period_cntd s |}.

Definition set_shift_r (v : float) (s : t_seeder) : t_seeder :=
  {| index := index s; is_on := is_on s; ampl := ampl s; src_begin := src_begin s;
     src_len_ms := src_len_ms s; src_len := src_len s; shift := shift s;
     shift_r := v; out_len := out_len s; period := period s;
     period_len := period_len s; speed := speed s; period_rand := period_rand s;
     buff_obj := buff_obj s; buff_n_chn := buff_n_chn s; buff_n_frm := buff_n_frm s;
     buff_msr := buff_msr s; buff_state := buff_state s; env_values := env_values s;
     poly_cnt := poly_cnt s; period_cntd := period_cntd s |}.

Definition set_out_len (v : Z) (s : t_seeder) : t_seeder :=
  {| index := index s; is_on := is_on s; ampl := ampl s; src_begin := src_begin s;
     src_len_ms := src_len_ms s; src_len := src_len s; shift := shift s;
     shift_r := shift_r s; out_len := v; period := period s;
     period_len := period_len s; speed := speed s; period_rand := period_rand s;
     buff_obj := buff_obj s; buff_n_chn := buff_n_chn s; buff_n_frm := buff_n_frm s;
     buff_msr := buff_msr s; buff_state := buff_state s; env_values := env_values s;
     poly_cnt := poly_cnt s; period_cntd := period_cntd s |}.

Definition set_period (v : float) (s : t_seeder) : t_seeder :=
  {| index := index s; is_on := is_on s; ampl := ampl s; src_begin := src_begin s;
     src_len_ms := src_len_ms s; src_len := src_len s; shift := shift s;
     shift_r := shift_r s; out_len := out_len s; period := v;
     period_len := period_len s; speed := speed s; period_rand := period_rand s;
     buff_obj := buff_obj s; buff_n_chn := buff_n_chn s; buff_n_frm := buff_n_frm s;
     buff_msr := buff_msr s; buff_state := buff_state s; env_values := env_values s;
     poly_cnt := poly_cnt s; period_cntd := period_cntd s |}.

Definition set_period_len (v : Z) (s : t_seeder) : t_seeder :=
  {| index := index s; is_on := is_on s; ampl := ampl s; src_begin := src_begin s;
     src_len_ms := src_len_ms s; src_len := src_len s; shift := shift s;
     shift_r := shift_r s; out_len := out_len s; period := period s;
     period_len := v; speed := speed s; period_rand := period_rand s;
     buff_obj := buff_obj s; buff_n_chn := buff_n_chn s; buff_n_frm := buff_n_frm s;
     buff_msr := buff_msr s; buff_state := buff_state s; env_values := env_values s;
     poly_cnt := poly_cnt s; period_cntd := period_cntd s |}.

Definition set_speed (v : float) (s : t_seeder) : t_seeder :=
  {| index := index s; is_on := is_on s; ampl := ampl s; src_begin := src_begin s;
     src_len_ms := src_len_ms s; src_len := src_len s; shift := shift s;
     shift_r := shift_r s; out_len := out_len s; period := period s;
     period_len := period_len s; speed := v; period_rand := period_rand s;
     buff_obj := buff_obj s; buff_n_chn := buff_n_chn s; buff_n_frm := buff_n_frm s;
     buff_msr := buff_msr s; buff_state := buff_state s; env_values := env_values s;
     poly_cnt := poly_cnt s; period_cntd := period_cntd s |}.

Definition set_period_rand (v : float) (s : t_seeder) : t_seeder :=
  {| index := index s; is_on := is_on s; ampl := ampl s; src_begin := src_begin s;
     src_len_ms := src_len_ms s; src_len := src_len s; shift := shift s;
     shift_r := shift_r s; out_len := out_len s; period := period s;
     period_len := period_len s; speed := speed s; period_rand := v;
     buff_obj := buff_obj s; buff_n_chn := buff_n_chn s; buff_n_frm := buff_n_frm s;
     buff_msr := buff_msr s; buff_state := buff_state s; env_values := env_values s;
     poly_cnt := poly_cnt s; period_cntd := period_cntd s |}.

Definition set_poly_cnt (v : Z) (s : t_seeder) : t_seeder :=
  {| index := index s; is_on := is_on s; ampl := ampl s; src_begin := src_begin s;
     src_len_ms := src_len_ms s; src_len := src_len s; shift := shift s;
     shift_r := shift_r s; out_len := out_len s; period := period s;
     period_len := period_len s; speed := speed s; period_rand := period_rand s;
     buff_obj := buff_obj s; buff_n_chn := buff_n_chn s; buff_n_frm := buff_n_frm s;
     buff_msr := buff_msr s; buff_state := buff_state s; env_values := env_values s;
     poly_cnt := v; period_cntd := period_cntd s |}.

Definition set_period_cntd (v : list Z) (s : t_seeder) : t_seeder :=
  {| index := index s; is_on := is_on s; ampl := ampl s; src_begin := src_begin s;
     src_len_ms := src_len_ms s; src_len := src_len s; shift := shift s;
     shift_r := shift_r s; out_len := out_len s; period := period s;
     period_len := period_len s; speed := speed s; period_rand := period_rand s;
     buff_obj := buff_obj s; buff_n_chn := buff_n_chn s; buff_n_frm := buff_n_frm s;
     buff_msr := buff_msr s; buff_state := buff_state s; env_values := env_values s;
     poly_cnt := poly_cnt s; period_cntd := v |}.
End Seeder.

(** ** [struct _grain] *)

Module Grain.
Record t_grain : Type := {
  index : Z;
  is_new : bool;
  ampl : float;
  src_begin : Z;
  src_len : Z;
  out_begin : Z;
  out_len : Z;
  out_cntd : Z;
  src_I : Z;
  src_R : Z;
  env_I : Z;
  env_R : Z
}.

Definition set_out_begin (v : Z) (g : t_grain) : t_grain :=
  {| index := index g; is_new := is_new g; ampl := ampl g; src_begin := src_begin g;
     src_len := src_len g; out_begin := v; out_len := out_len g;
     out_cntd := out_cntd g; src_I := src_I g; src_R := src_R g;
     env_I := env_I g; env_R := env_R g |}.

(** The five fields a rendered sample changes. *)
Definition set_cursors (cntd sI sR eI eR : Z) (g : t_grain) : t_grain :=
  {| index := index g; is_new := is_new g; ampl := ampl g; src_begin := src_begin g;
     src_len := src_len g; out_begin := out_begin g; out_len := out_len g;
     out_cntd := cntd; src_I := sI; src_R := sR; env_I := eI; env_R := eR |}.
End Grain.

Import Seeder(t_seeder) Grain(t_grain).

(** ** [struct _granular] *)

(** The outlets, the message buffer and the envelope output buffer are left
    out. *)
Record t_granular : Type := {
  msamplerate : float;
  env_n_frm : Z;
  master : float;
  poly_max : Z;
  seeders_max : Z;
  seeders_cnt : Z;
  seeders_arr : list t_seeder;
  seeders_list : t_list;
  seeders_foc : Z;
  grains_max : Z;
  grains_cnt : Z;
  grains_arr : list t_grain;
  grains_list : t_list
}.

Definition set_master (v : float) (x : t_granular) : t_granular :=
  {| msamplerate := msamplerate x; env_n_frm := env_n_frm x; master := v;
     poly_max := poly_max x; seeders_max := seeders_max x;
     seeders_cnt := seeders_cnt x; seeders_arr := seeders_arr x;
     seeders_list := seeders_list x; seeders_foc := seeders_foc x;
     grains_max := grains_max x; grains_cnt := grains_cnt x;
     grains_arr := grains_arr x; grains_list := grains_list x |}.

Definition set_seeders_arr (v : list t_seeder) (x : t_granular) : t_granular :=
  {| msamplerate := msamplerate x; env_n_frm := env_n_frm x; master := master x;
     poly_max := poly_max x; seeders_max := seeders_max x;
     seeders_cnt := seeders_cnt x; seeders_arr := v;
     seeders_list := seeders_list x; seeders_foc := seeders_foc x;
     grains_max := grains_max x; grains_cnt := grains_cnt x;
     grains_arr := grains_arr x; grains_list := grains_list x |}.

Definition set_seeders_active (cnt : Z) (l : t_list) (x : t_granular) : t_granular :=
  {| msamplerate := msamplerate x; env_n_frm := env_n_frm x; master := master x;
     poly_max := poly_max x; seeders_max := seeders_max x;
     seeders_cnt := cnt; seeders_arr := seeders_arr x;
     seeders_list := l; seeders_foc := seeders_foc x;
     grains_max := grains_max x; grains_cnt := grains_cnt x;
     grains_arr := grains_arr x; grains_list := grains_list x |}.

Definition set_seeders_foc (v : Z) (x : t_granular) : t_granular :=
  {| msamplerate := msamplerate x; env_n_frm := env_n_frm x; master := master x;
     poly_max := poly_max x; seeders_max := seeders_max x;
     seeders_cnt := seeders_cnt x; seeders_arr := seeders_arr x;
     seeders_list := seeders_list x; seeders_foc := v;
     grains_max := grains_max x; grains_cnt := grains_cnt x;
     grains_arr := grains_arr x; grains_list := grains_list x |}.

(** The grain pool: its counter, its records and its index. *)
Definition set_grains (cnt : Z) (arr : list t_grain) (l : t_list) (x : t_granular)
    : t_granular :=
  {| msamplerate := msamplerate x; env_n_frm := env_n_frm x; master := master x;
     poly_max := poly_max x; seeders_max := seeders_max x;
     seeders_cnt := seeders_cnt x; seeders_arr := seeders_arr x;
     seeders_list := seeders_list x; seeders_foc := seeders_foc x;
     grains_max := grains_max x; grains_cnt := cnt;
     grains_arr := arr; grains_list := l |}.

(** [x->seeders_arr[index].field = ...]: the record at [index] replaced. *)
Definition update_seeder (x : t_granular) (index : Z) (f : t_seeder -> t_seeder)
    : outcome t_granular :=
  let* s := rd (seeders_arr x) index in
  let* arr := wr (seeders_arr x) index (f s) in
  Done (set_seeders_arr arr x).

Section Engine.
Context `{Host}.

(** ** The control path *)

(** [granular_check_args]: the seeder index, or [ERR_ARG]. *)
Definition granular_check_args (x : t_granular) (argv : list t_atom) (argc_exp : Z)
    : outcome Z :=
  let argc := Z.of_nat (length argv) in
  if negb (argc =? argc_exp) then Done ERR_ARG
  else
    let* a0 := rd argv 0 in
    if negb (is_A_LONG a0) then Done ERR_ARG
    else
      let index := wrap16 (atom_getlong a0) in
      if index <? 0 then Done ERR_ARG
      else if seeders_max x <=? index then Done ERR_ARG
      else Done index.

(** The two tests on a source window that follow the computation of its
    beginning in [granular_set_seeder] and [granular_begin]. *)
Definition clamp_begin (s : t_seeder) : t_seeder :=
  let s1 := if Seeder.src_begin s <? 0 then Seeder.set_src_begin 0 s else s in
  if Seeder.buff_n_frm s1 <? wrap32 (Seeder.src_begin s1 + Seeder.src_len s1)
  then Seeder.set_src_begin (wrap32 (Seeder.buff_n_frm s1 - Seeder.src_len s1)) s1
  else s1.

(** [for (int i = 0; i < seeder->poly_cnt; i++)
       seeder->period_cntd[i] = (t_int32)(i * seeder->period_len / seeder->poly_cnt);] *)
Fixpoint spread_streams (cnt : nat) (i : Z) (s : t_seeder) : outcome t_seeder :=
  match cnt with
  | O => Done s
  | S cnt' =>
      let* c := wr (Seeder.period_cntd s) i
                   (Z.quot (wrap32 (i * Seeder.period_len s)) (Seeder.poly_cnt s)) in
      spread_streams cnt' (i + 1) (Seeder.set_period_cntd c s)
  end.

(** [granular_set_seeder] *)
Definition granular_set_seeder (x : t_granular) (argv : list t_atom) : outcome t_granular :=
  if negb (Z.of_nat (length argv) =? 9) then Done x
  else
    let* index := granular_check_args x argv 9 in
    if index =? ERR_ARG then Done x
    else
      let* a1 := rd argv 1 in let* a2 := rd argv 2 in let* a3 := rd argv 3 in
      let* a4 := rd argv 4 in let* a5 := rd argv 5 in let* a6 := rd argv 6 in
      let* a7 := rd argv 7 in let* a8 := rd argv 8 in
      let* s := rd (seeders_arr x) index in
      let s := Seeder.set_ampl (atom_getfloat a1) s in
      let s := Seeder.set_src_begin
                 (trunc_int32 (atom_getfloat a2 * of_int (Seeder.buff_n_frm s))) s in
      let s := Seeder.set_src_len_ms (atom_getfloat a3) s in
      let s := Seeder.set_src_len
                 (trunc_int32 (Seeder.src_len_ms s * Seeder.buff_msr s)) s in
      let s := clamp_begin s in
      let s := Seeder.set_shift (atom_getfloat a4) s in
      let s := Seeder.set_shift_r (exp (- LN2 * Seeder.shift s)) s in
      let s := Seeder.set_out_len
                 (trunc_int32 (Seeder.src_len_ms s * Seeder.shift_r s * msamplerate x)) s in
      let s := Seeder.set_period (atom_getfloat a5) s in
      let s := Seeder.set_period_len
                 (trunc_int32 (Seeder.period s * of_int (Seeder.out_len s))) s in
      let s := Seeder.set_speed (atom_getfloat a6) s in
      let s := Seeder.set_period_rand (atom_getfloat a7) s in
      let s := Seeder.set_poly_cnt (wrap16 (atom_getlong a8)) s in
      let s := if (Seeder.poly_cnt s <? 1) || (poly_max x <? Seeder.poly_cnt s)
               then Seeder.set_poly_cnt 1 s else s in
      let* s := spread_streams (Z.to_nat (Seeder.poly_cnt s)) 0 s in
      let* arr := wr (seeders_arr x) index s in
      Done (set_seeders_arr arr x).

(** [granular_seeder_on]. The result of [list_insert_index] is compared with
    [LIST_END], which it never is. *)
Definition granular_seeder_on (x : t_granular) (argv : list t_atom) : outcome t_granular :=
  let* index := granular_check_args x argv 1 in
  if index =? ERR_ARG then Done x
  else
    let* s := rd (seeders_arr x) index in
    if Seeder.is_on s then Done x
    else if Seeder.buff_state s =? BUFF_NO_FILE then Done x
    else if negb (Seeder.buff_state s =? BUFF_READY) then Done x
    else
      let* '(l, r) := list_insert_index (seeders_list x) index in
      let x1 := set_seeders_active (seeders_cnt x) l x in
      if r =? LIST_END then Done x1
      else
        let x2 := set_seeders_active (wrap16 (seeders_cnt x1 + 1)) l x1 in
        update_seeder x2 index (Seeder.set_is_on true).

(** [granular_seeder_off] *)
Definition granular_seeder_off (x : t_granular) (argv : list t_atom) : outcome t_granular :=
  let* index := granular_check_args x argv 1 in
  if index =? ERR_ARG then Done x
  else
    let* s := rd (seeders_arr x) index in
    if negb (Seeder.is_on s) then Done x
    else
      let* '(l, r) := list_remove_index (seeders_list x) index in
      let x1 := set_seeders_active (seeders_cnt x) l x in
      if r =? LIST_END then Done x1
      else
        let x2 := set_seeders_active (wrap16 (seeders_cnt x1 - 1)) l x1 in
        update_seeder x2 index (Seeder.set_is_on false).

(** [granular_focus] *)
Definition granular_focus (x : t_granular) (argv : list t_atom) : outcome t_granular :=
  let* index := granular_check_args x argv 1 in
  if index =? ERR_ARG then Done x else Done (set_seeders_foc index x).

(** The setters of one parameter read [argv[0]] and [argv[1]] and index
    [seeders_arr] with no test at all. *)

(** [granular_ampl] *)
Definition granular_ampl (x : t_granular) (argv : list t_atom) : outcome t_granular :=
  let* a0 := rd argv 0 in
  let index := wrap16 (atom_getlong a0) in
  let* a1 := rd argv 1 in
  update_seeder x index (Seeder.set_ampl (atom_getfloat a1)).

(** [granular_begin] *)
Definition granular_begin (x : t_granular) (argv : list t_atom) : outcome t_granular :=
  let* a0 := rd argv 0 in
  let index := wrap16 (atom_getlong a0) in
  let* a1 := rd argv 1 in
  update_seeder x index (fun s =>
    clamp_begin
      (Seeder.set_src_begin
         (trunc_int32 (atom_getfloat a1 * of_int (Seeder.buff_n_frm s))) s)).

(** [granular_length] *)
Definition granular_length (x : t_granular) (argv : list t_atom) : outcome t_granular :=
  let* a0 := rd argv 0 in
  let index := wrap16 (atom_getlong a0) in
  let* a1 := rd argv 1 in
  update_seeder x index (fun s =>
    let s := Seeder.set_src_len_ms (atom_getfloat a1) s in
    let s := Seeder.set_src_len
               (trunc_int32 (Seeder.src_len_ms s * Seeder.buff_msr s)) s in
    let s := Seeder.set_out_len
               (trunc_int32 (Seeder.src_len_ms s * Seeder.shift_r s * msamplerate x)) s in
    Seeder.set_period_len
      (trunc_int32 (of_int (Seeder.out_len s) * Seeder.period s)) s).

(** [granular_shift] *)
Definition granular_shift (x : t_granular) (argv : list t_atom) : outcome t_granular :=
  let* a0 := rd argv 0 in
  let index := wrap16 (atom_getlong a0) in
  let* a1 := rd argv 1 in
  update_seeder x index (fun s =>
    let s := Seeder.set_shift (atom_getfloat a1) s in
    let s := Seeder.set_shift_r (exp (- LN2 * Seeder.shift s)) s in
    let s := Seeder.set_out_len
               (trunc_int32 (Seeder.src_len_ms s * Seeder.shift_r s * msamplerate x)) s in
    Seeder.set_period_len
      (trunc_int32 (of_int (Seeder.out_len s) * Seeder.period s)) s).

(** [granular_period] *)
Definition granular_period (x : t_granular) (argv : list t_atom) : outcome t_granular :=
  let* a0 := rd argv 0 in
  let index := wrap16 (atom_getlong a0) in
  let* a1 := rd argv 1 in
  update_seeder x index (fun s =>
    let s := Seeder.set_period (atom_getfloat a1) s in
    Seeder.set_period_len
      (trunc_int32 (of_int (Seeder.out_len s) * Seeder.period s)) s).

(** [granular_speed] *)
Definition granular_speed (x : t_granular) (argv : list t_atom) : outcome t_granular :=
  let* a0 := rd argv 0 in
  let index := wrap16 (atom_getlong a0) in
  let* a1 := rd argv 1 in
  update_seeder x index (Seeder.set_speed (atom_getfloat a1)).

(** [granular_poly] *)
Definition granular_poly (x : t_granular) (argv : list t_atom) : outcome t_granular :=
  let* a0 := rd argv 0 in
  let index := wrap16 (atom_getlong a0) in
  let* a1 := rd argv 1 in
  let poly_cnt := wrap16 (trunc_int32 (atom_getfloat a1)) in
  if (poly_cnt <? 1) || (poly_max x <? poly_cnt) then Done x
  else
    let* s := rd (seeders_arr x) index in
    let s := Seeder.set_poly_cnt poly_cnt s in
    let* s := spread_streams (Z.to_nat (Seeder.poly_cnt s)) 0 s in
    let* arr := wr (seeders_arr x) index s in
    Done (set_seeders_arr arr x).

(** [granular_period_rand] *)
Definition granular_period_rand (x : t_granular) (argv : list t_atom) : outcome t_granular :=
  let* a0 := rd argv 0 in
  let index := wrap16 (atom_getlong a0) in
  let* a1 := rd argv 1 in
  update_seeder x index (Seeder.set_period_rand (atom_getfloat a1)).

(** The control-path messages that carry a seeder index. *)
Inductive message : Type :=
| msg_set_seeder | msg_seeder_on | msg_seeder_off | msg_focus
| msg_ampl | msg_begin | msg_length | msg_shift | msg_period | msg_speed
| msg_poly | msg_period_rand.

Definition dispatch (m : message) (x : t_granular) (argv : list t_atom) : outcome t_granular :=
  match m with
  | msg_set_seeder => granular_set_seeder x argv
  | msg_seeder_on => granular_seeder_on x argv
  | msg_seeder_off => granular_seeder_off x argv
  | msg_focus => granular_focus x argv
  | msg_ampl => granular_ampl x argv
  | msg_begin => granular_begin x argv
  | msg_length => granular_length x argv
  | msg_shift => granular_shift x argv
  | msg_period => granular_period x argv
  | msg_speed => granular_speed x argv
  | msg_poly => granular_poly x argv
  | msg_period_rand => granular_period_rand x argv
  end.

(** How many arguments each of them documents. *)
Definition arity (m : message) : Z :=
  match m with
  | msg_set_seeder => 9
  | msg_seeder_on | msg_seeder_off | msg_focus => 1
  | _ => 2
  end.

(** ** Spawning a grain *)

(** [granular_add_grain_fs]. [perform64] drops the pointer it returns. *)
Definition new_grain (seeder : t_seeder) (src_offset out_offset : Z) : t_grain :=
  let b := wrap32 (Seeder.src_begin seeder + src_offset) in
  let b := if b <? 0 then 0 else b in
  let b := if Seeder.buff_n_frm seeder <? wrap32 (b + Seeder.src_len seeder)
           then wrap32 (Seeder.buff_n_frm seeder - Seeder.src_len seeder) else b in
  {| Grain.index := Seeder.index seeder;
     Grain.is_new := true;
     Grain.ampl := Seeder.ampl seeder;
     Grain.src_begin := b;
     Grain.src_len := Seeder.src_len seeder;
     Grain.out_begin := out_offset;
     Grain.out_len := Seeder.out_len seeder;
     Grain.out_cntd := Seeder.out_len seeder;
     Grain.src_I := 0;
     Grain.src_R := 0;
     Grain.env_I := 0;
     Grain.env_R := 0 |}.

Definition granular_add_grain_fs (x : t_granular) (seeder : t_seeder)
    (src_offset out_offset : Z) : outcome t_granular :=
  if grains_cnt x =? grains_max x then Done x
  else
    let cnt := wrap16 (grains_cnt x + 1) in
    let* '(l, slot) := list_insert_first (grains_list x) in
    let* arr := wr (grains_arr x) slot (new_grain seeder src_offset out_offset) in
    Done (set_grains cnt arr l x).

(** The grains of the pool in the order of its used list, as
    [granular_post_grains] goes through them. *)
Fixpoint read_all {A : Type} (a : list A) (slots : list Z) : outcome (list A) :=
  match slots with
  | [] => Done []
  | i :: rest =>
      let* v := rd a i in
      let* vs := read_all a rest in
      Done (v :: vs)
  end.

Definition pool_grains (x : t_granular) : outcome (list t_grain) :=
  let* us := used_indices (grains_list x) in
  read_all (grains_arr x) us.

(** The grain pool as [granular_new] sets it up and every method keeps it:
    an index of capacity [grains_max] over an array of [grains_max] grains,
    and [grains_cnt] the length of the used list. *)
Definition pool_wf (x : t_granular) : Prop :=
  exists us es,
    used_indices (grains_list x) = Done us /\
    empty_indices (grains_list x) = Done es /\
    us ++ es ≡ₚ seqZ 0 (grains_max x) /\
    len (grains_list x) = grains_max x /\
    Z.of_nat (length (array (grains_list x))) = grains_max x + 2 /\
    Z.of_nat (length (grains_arr x)) = grains_max x /\
    grains_cnt x = Z.of_nat (length us) /\
    grains_max x <= INT16_MAX.

(** ** The scheduler *)

(** [(t_int32)(seeder->period_len *
      (1 + (seeder->period_rand * (2.0 * rand() / RAND_MAX - 1))))] for the
    value [r] of [rand()]. *)
Definition unit_draw (r : Z) : float :=
  (2 * of_int r / of_int RAND_MAX - 1)%float.

Definition next_period (seeder : t_seeder) (r : Z) : Z :=
  trunc_int32
    (of_int (Seeder.period_len seeder)
     * (1 + Seeder.period_rand seeder * unit_draw r))%float.

(** The offsets [c], [c + P], ... of [k] grains spawned one period apart. *)
Fixpoint offsets (k : nat) (c P : Z) : list Z :=
  match k with
  | O => []
  | S k' => c :: offsets k' (c + P) P
  end.

(** The state of the scheduler: the object and the number of calls of
    [rand] so far. *)
Definition sched : Type := (t_granular * nat)%type.

(** What follows the call of [granular_add_grain_fs] in the [while] of the
    main stream: the countdown goes up by the period drawn with the value [r]
    of [rand()], and the source window moves on and is wrapped. *)
Definition main_stream_advance (msamplerate : float) (seeder : t_seeder) (c0 r : Z)
    : outcome t_seeder :=
  let period := next_period seeder r in
  let* cntd := wr (Seeder.period_cntd seeder) 0 (wrap32 (c0 + period)) in
  let seeder := Seeder.set_period_cntd cntd seeder in
  let seeder :=
    Seeder.set_src_begin
      (wrap32 (Seeder.src_begin seeder
               + trunc_int32 (of_int period * Seeder.speed seeder
                              * Seeder.buff_msr seeder / msamplerate)%float))
      seeder in
  let seeder :=
    if Seeder.src_begin seeder <? 0
    then Seeder.set_src_begin
           (wrap32 (Seeder.buff_n_frm seeder - Seeder.src_len seeder)) seeder
    else seeder in
  let seeder :=
    if Seeder.buff_n_frm seeder
       <? wrap32 (Seeder.src_begin seeder + Seeder.src_len seeder)
    then Seeder.set_src_begin 0 seeder else seeder in
  Done seeder.

(** The body of the [while] of the main stream, for the seeder at [index]. *)
Definition main_stream_body (index : Z) (st : sched) : outcome sched :=
  let '(x, calls) := st in
  let* seeder := rd (seeders_arr x) index in
  let* c0 := rd (Seeder.period_cntd seeder) 0 in
  let* x := granular_add_grain_fs x seeder 0 c0 in
  let* seeder := main_stream_advance (msamplerate x) seeder c0 (rand calls) in
  let* arr := wr (seeders_arr x) index seeder in
  Done (set_seeders_arr arr x, S calls).

(** [while (seeder->period_cntd[0] < sampleframes) { ... }] *)
Definition main_stream (fuel : nat) (index sampleframes : Z) (st : sched) : outcome sched :=
  while_loop fuel
    (fun '(x, _) =>
       let* seeder := rd (seeders_arr x) index in
       let* c0 := rd (Seeder.period_cntd seeder) 0 in
       Done (c0 <? sampleframes))
    (main_stream_body index)
    st.

(** The body of the [while] of the stream [i] >= 1. *)
Definition poly_stream_body (index i : Z) (st : sched) : outcome sched :=
  let '(x, calls) := st in
  let* seeder := rd (seeders_arr x) index in
  let* ci := rd (Seeder.period_cntd seeder) i in
  let* c0 := rd (Seeder.period_cntd seeder) 0 in
  let* x :=
    granular_add_grain_fs x seeder
      (trunc_int32 (of_int (wrap32 (ci - c0)) * Seeder.speed seeder
                    * Seeder.buff_msr seeder / msamplerate x)%float)
      ci in
  let* cntd :=
    wr (Seeder.period_cntd seeder) i
       (wrap32 (ci + next_period seeder (rand calls))) in
  let* arr := wr (seeders_arr x) index (Seeder.set_period_cntd cntd seeder) in
  Done (set_seeders_arr arr x, S calls).

(** [seeder->period_cntd[i] -= sampleframes;] *)
Definition rewind_stream (index i sampleframes : Z) (x : t_granular) : outcome t_granular :=
  let* seeder := rd (seeders_arr x) index in
  let* ci := rd (Seeder.period_cntd seeder) i in
  let* cntd := wr (Seeder.period_cntd seeder) i (wrap32 (ci - sampleframes)) in
  let* arr := wr (seeders_arr x) index (Seeder.set_period_cntd cntd seeder) in
  Done (set_seeders_arr arr x).

(** [for (t_int16 i = 1; i < seeder->poly_cnt; i++) { while ... ; ... }]:
    at most [poly_cnt] turns. *)
Definition poly_streams (fuel : nat) (index sampleframes : Z) (st : sched) : outcome sched :=
  let* seeder0 := rd (seeders_arr (fst st)) index in
  let* '(st, _) :=
    while_loop (Z.to_nat (Seeder.poly_cnt seeder0))
      (fun '((x, _), i) =>
         let* seeder := rd (seeders_arr x) index in
         Done (i <? Seeder.poly_cnt seeder))
      (fun '(st, i) =>
         let* '(x, calls) :=
           while_loop fuel
             (fun '(x, _) =>
                let* seeder := rd (seeders_arr x) index in
                let* ci := rd (Seeder.period_cntd seeder) i in
                Done (ci <? sampleframes))
             (poly_stream_body index i)
             st in
         let* x := rewind_stream index i sampleframes x in
         Done ((x, calls), wrap16 (i + 1)))
      (st, 1) in
  Done st.

(** What the seeder loop does for the seeder at [index]. *)
Definition seeder_block (fuel : nat) (index sampleframes : Z) (st : sched) : outcome sched :=
  let* seeder := rd (seeders_arr (fst st)) index in
  if Seeder.is_on seeder then
    let* st := main_stream fuel index sampleframes st in
    let* '(x, calls) := poly_streams fuel index sampleframes st in
    let* x := rewind_stream index 0 sampleframes x in
    Done (x, calls)
  else Done st.

(** The seeder loop: the used list of [seeders_list] from its head. *)
Definition seeder_loop (fuel : nat) (sampleframes : Z) (st : sched) : outcome sched :=
  let l := seeders_list (fst st) in
  let* '(st, _) :=
    while_loop (budget l)
      (fun '(_, node) => let* v := rd (array l) node in Done (negb (v =? LIST_END)))
      (fun '(st, node) =>
         let* v := rd (array l) node in
         let* st := seeder_block fuel v sampleframes st in
         Done (st, v))
      (st, first_used l) in
  Done st.

(** ** The renderer *)

(** A table element, or what lies at its place around the table. *)
Definition peek (stray : Z -> float) (a : list float) (i : Z) : float :=
  match rd a i with
  | Done v => v
  | _ => stray i
  end.

(** [R += step; while (R >= out_len) { R -= out_len; I++; }] *)
Definition resample (fuel : nat) (step out_len : Z) (RI : Z * Z) : outcome (Z * Z) :=
  while_loop fuel
    (fun '(R, _) => Done (out_len <=? R))
    (fun '(R, Ix) => Done (wrap32 (R - out_len), wrap32 (Ix + 1)))
    (wrap32 (fst RI + step), snd RI).

(** The cursors and the countdown after one sample. *)
Definition grain_advance (fuel : nat) (env_n_frm : Z) (g : t_grain) : outcome t_grain :=
  let src_len := wrap32 (Grain.src_len g - 1) in
  let out_len := wrap32 (Grain.out_len g - 1) in
  let env_len := wrap32 (env_n_frm - 1) in
  let* '(sR, sI) := resample fuel src_len out_len (Grain.src_R g, Grain.src_I g) in
  let* '(eR, eI) := resample fuel env_len out_len (Grain.env_R g, Grain.env_I g) in
  Done (Grain.set_cursors (wrap32 (Grain.out_cntd g - 1)) sI sR eI eR g).

(** A budget that is enough for every loop over a 32-bit counter. *)
Definition enough : nat := Z.to_nat INT32_MAX.

(** The grain after [k] more samples. *)
Fixpoint advance_times (k : nat) (fuel : nat) (env_n_frm : Z) (g : t_grain)
    : outcome t_grain :=
  match k with
  | O => Done g
  | S k' =>
      let* g' := grain_advance fuel env_n_frm g in
      advance_times k' fuel env_n_frm g'
  end.

(** The value one sample of a grain adds to the output. *)
Definition grain_sample (x : t_granular) (seeder : t_seeder) (g : t_grain) : float :=
  let mult := (master x * Grain.ampl g)%float in
  let out_len := wrap32 (Grain.out_len g - 1) in
  let inv_out_len := (1 / of_int out_len)%float in
  let env := peek (stray_env (Seeder.index seeder)) (Seeder.env_values seeder) in
  let src := peek (stray_src (Seeder.index seeder)) (Seeder.buff_obj seeder) in
  let ind := wrap32 (wrap32 (Grain.src_begin g + Grain.src_I g) * Seeder.buff_n_chn seeder) in
  (mult
   * (env (Grain.env_I g)
      + of_int (Grain.env_R g) * inv_out_len
        * sub_single (env (wrap32 (Grain.env_I g + 1))) (env (Grain.env_I g)))
   * (src ind
      + of_int (Grain.src_R g) * inv_out_len
        * sub_single (src (wrap32 (ind + Seeder.buff_n_chn seeder))) (src ind)))%float.

(** The state of the sample loop of one grain: the samples left in the block
    [n], where [out] points to, the output and the grain. *)
Record render : Type := {
  r_n : Z;
  r_pos : Z;
  r_out : list float;
  r_grain : t_grain
}.

(** [while (n && grain->out_cntd) { *out++ += ...; ...; n--; grain->out_cntd--; }] *)
Definition render_body (fuel : nat) (x : t_granular) (seeder : t_seeder) (r : render)
    : outcome render :=
  let* o := rd (r_out r) (r_pos r) in
  let* out := wr (r_out r) (r_pos r) (o + grain_sample x seeder (r_grain r))%float in
  let* g := grain_advance fuel (env_n_frm x) (r_grain r) in
  Done {| r_n := wrap32 (r_n r - 1); r_pos := r_pos r + 1; r_out := out; r_grain := g |}.

Definition render_loop (fuel : nat) (x : t_granular) (seeder : t_seeder) (r : render)
    : outcome render :=
  while_loop fuel
    (fun r => Done (negb (r_n r =? 0) && negb (Grain.out_cntd (r_grain r) =? 0)))
    (render_body fuel x seeder)
    r.

(** The state of the grain loop: the object, the output block and the node. *)
Definition pass : Type := (t_granular * list float * Z)%type.

(** One turn of the grain loop: the grain under [node] is rendered into the
    block, then kept or removed from the pool. *)
Definition grain_block (fuel : nat) (sampleframes : Z) (p : pass) : outcome pass :=
  let '(x, out, node) := p in
  let* slot := rd (array (grains_list x)) node in
  let* grain := rd (grains_arr x) slot in
  let* seeder := rd (seeders_arr x) (Grain.index grain) in
  let* r :=
    render_loop fuel x seeder
      {| r_n := wrap32 (sampleframes - Grain.out_begin grain);
         r_pos := Grain.out_begin grain; r_out := out; r_grain := grain |} in
  let grain := Grain.set_out_begin 0 (r_grain r) in
  let* arr := wr (grains_arr x) slot grain in
  if negb (Grain.out_cntd grain =? 0) then
    Done (set_grains (grains_cnt x) arr (grains_list x) x, r_out r, slot)
  else
    let* '(l, _) := list_remove_node (grains_list x) node in
    Done (set_grains (wrap16 (grains_cnt x - 1)) arr l x, r_out r, node).

(** The grain loop: the used list of [grains_list] from its head. *)
Definition grain_loop (fuel : nat) (sampleframes : Z) (x : t_granular) (out : list float)
    : outcome (t_granular * list float) :=
  let* '(x, out, _) :=
    while_loop (budget (grains_list x))
      (fun '(x, _, node) =>
         let* v := rd (array (grains_list x)) node in Done (negb (v =? LIST_END)))
      (grain_block fuel sampleframes)
      (x, out, first_used (grains_list x)) in
  Done (x, out).

(** ** The end of the block *)

(** [if ( *out > 1) { *out = 2 - *out; } if ( *out < -1) { *out = -2 - *out; }] *)
Definition fold_sample (v : float) : float :=
  let v := if (1 <? v)%float then (2 - v)%float else v in
  if (v <? -1)%float then (-2 - v)%float else v.

(** The two ends of the window of the seeder in focus, as sent to the list
    outlet. *)
Definition bounds (x : t_granular) : outcome (float * float) :=
  let* seeder := rd (seeders_arr x) (seeders_foc x) in
  Done ((of_int (Seeder.src_begin seeder) / Seeder.buff_msr seeder)%float,
        (of_int (wrap32 (Seeder.src_begin seeder + Seeder.src_len seeder))
         / Seeder.buff_msr seeder)%float).

(** [granular_perform64]: the object afterwards, the calls of [rand], the
    output block and the list sent out. *)
Definition granular_perform64 (fuel : nat) (sampleframes : Z) (st : sched)
    : outcome (sched * list float * (float * float)) :=
  let* '(x, calls) := seeder_loop fuel sampleframes st in
  let out := replicate (Z.to_nat sampleframes) 0%float in
  let* '(x, out) := grain_loop fuel sampleframes x out in
  let out := map fold_sample out in
  let* b := bounds x in
  Done ((x, calls), out, b).

End Engine.

(** ** The life of the object: creation, the seeder registry, file loading *)

Import LinkedList.

(** [t_atom mess_arr[20]] of [struct _granular], the array the object writes
    its outgoing messages to. It is not a field of [t_granular] above: the
    two methods that fill it take and return it beside the object. *)
Definition MESS_ARR_LEN : Z := 20.

(** The content of memory that was allocated and not written yet: zero, as
    in [list_new]. *)
Definition blank_grain : t_grain :=
  {| Grain.index := 0; Grain.is_new := false; Grain.ampl := 0%float;
     Grain.src_begin := 0; Grain.src_len := 0; Grain.out_begin := 0;
     Grain.out_len := 0; Grain.out_cntd := 0; Grain.src_I := 0; Grain.src_R := 0;
     Grain.env_I := 0; Grain.env_R := 0 |}.

(** [granular_new]: the two capacities read off the arguments of the object
    box. With two arguments the type of the first is tested twice and the
    type of the second not at all. *)
Definition granular_new_caps (argv : list t_atom) : Z * Z :=
  match argv with
  | [] => (SEEDERS_MAX, GRAINS_MAX)
  | [a] =>
      if is_A_LONG a then (SEEDERS_MAX, wrap16 (atom_getlong a))
      else (SEEDERS_MAX, GRAINS_MAX)
  | [a; b] =>
      if is_A_LONG a && is_A_LONG a
      then (wrap16 (atom_getlong a), wrap16 (atom_getlong b))
      else (SEEDERS_MAX, GRAINS_MAX)
  | _ => (SEEDERS_MAX, GRAINS_MAX)
  end.

(** The envelope table [granular_new] fills for a seeder:
    [env_values[i] = (float)env_hann((t_double)i / (env_n_frm - 1), 0, 0)].
    [env_hann] is a function of envelopes.h. *)
Definition hann_table (env_hann : float -> float -> float -> float) (env_n_frm : Z)
    : list float :=
  map (fun i => round_single (env_hann (of_int i / of_int (env_n_frm - 1))%float 0%float 0%float))
      (seqZ 0 env_n_frm).

(** The seeder at [index] as [granular_new] initialises it, for the
    samplerate in ms [msr] of the object. *)
Definition new_seeder (env_hann : float -> float -> float -> float) (msr : float)
    (env_n_frm : Z) (index : Z) : t_seeder :=
  let src_len_ms := 100%float in
  let src_len := trunc_int32 (src_len_ms * msr)%float in
  let shift_r := 1%float in
  let out_len := trunc_int32 (of_int src_len * shift_r)%float in
  let period := 0x1.7ae147ae147aep-2%float in
  {| Seeder.index := index; Seeder.is_on := false; Seeder.ampl := 1%float;
     Seeder.src_begin := 0; Seeder.src_len_ms := src_len_ms;
     Seeder.src_len := src_len; Seeder.shift := 0%float; Seeder.shift_r := shift_r;
     Seeder.out_len := out_len; Seeder.period := period;
     Seeder.period_len := trunc_int32 (of_int out_len * period)%float;
     Seeder.speed := 1%float; Seeder.period_rand := 0x1p-2%float;
     Seeder.buff_obj := []; Seeder.buff_n_chn := 0; Seeder.buff_n_frm := 0;
     Seeder.buff_msr := msr; Seeder.buff_state := BUFF_NO_LINK;
     Seeder.env_values := hann_table env_hann env_n_frm;
     Seeder.poly_cnt := 1;
     Seeder.period_cntd := replicate (Z.to_nat POLY_MAX) 0 |}.

(** [granular_new], for the samplerate [sr] that [sys_getsr] gives. The
    grain index is made before the seeder index. *)
Definition granular_new (env_hann : float -> float -> float -> float) (sr : float)
    (argv : list t_atom) : outcome t_granular :=
  let '(smax, gmax) := granular_new_caps argv in
  let msr := (sr * 0x1.0624dd2f1a9fcp-10)%float in
  let* glist := list_new gmax in
  let* slist := list_new smax in
  Done {| msamplerate := msr; env_n_frm := ENV_N_SMP; master := 1%float;
          poly_max := POLY_MAX; seeders_max := smax; seeders_cnt := 0;
          seeders_arr := map (new_seeder env_hann msr ENV_N_SMP) (seqZ 0 smax);
          seeders_list := slist; seeders_foc := 0;
          grains_max := gmax; grains_cnt := 0;
          grains_arr := replicate (Z.to_nat gmax) blank_grain;
          grains_list := glist |}.

(** The seeder registry as [granular_new] sets it up: an index of capacity
    [seeders_max] over an array of [seeders_max] seeders, [seeders_cnt] the
    length of its used list, and the used list the seeders that are on. *)
Definition registry_wf (x : t_granular) : Prop :=
  exists us es,
    used_indices (seeders_list x) = Done us /\
    empty_indices (seeders_list x) = Done es /\
    us ++ es ≡ₚ seqZ 0 (seeders_max x) /\
    len (seeders_list x) = seeders_max x /\
    Z.of_nat (length (array (seeders_list x))) = seeders_max x + 2 /\
    Z.of_nat (length (seeders_arr x)) = seeders_max x /\
    seeders_cnt x = Z.of_nat (length us) /\
    seeders_max x <= INT16_MAX /\
    (forall i s, rd (seeders_arr x) i = Done s -> (Seeder.is_on s = true <-> i ∈ us)).

(** The registry with its two lists named. *)
Definition registry (x : t_granular) (us es : list Z) : Prop :=
  repr (seeders_list x) us es /\
  len (seeders_list x) = seeders_max x /\
  Z.of_nat (length (seeders_arr x)) = seeders_max x /\
  seeders_cnt x = Z.of_nat (length us) /\
  seeders_max x <= INT16_MAX /\
  (forall i s, rd (seeders_arr x) i = Done s -> (Seeder.is_on s = true <-> i ∈ us)).

(** The grain pool with its two lists named. *)
Definition pool (x : t_granular) (us es : list Z) : Prop :=
  repr (grains_list x) us es /\
  len (grains_list x) = grains_max x /\
  Z.of_nat (length (grains_arr x)) = grains_max x /\
  grains_cnt x = Z.of_nat (length us) /\
  grains_max x <= INT16_MAX.

(** The grains of a list that [granular_file] keeps: those of the other
    seeders. *)
Definition other_seeders (index : Z) (gs : list t_grain) : list t_grain :=
  List.filter (fun g => negb (Grain.index g =? index)) gs.

(** The slots of a list whose grain belongs to another seeder. *)
Definition other_slots (arr : list t_grain) (index : Z) (slots : list Z) : list Z :=
  List.filter
    (fun i => match rd arr i with
              | Done g => negb (Grain.index g =? index)
              | _ => true
              end) slots.

(** A seeder of the array whose buffer is ready, whatever its flag. *)
Definition ready_at (x : t_granular) (i : Z) : Prop :=
  exists s, rd (seeders_arr x) i = Done s /\ Seeder.buff_state s = BUFF_READY.

(** [granular_all_off]: one turn of its loop. The node stays on the head
    cell, [list_remove_node] brings the next index under it. *)
Definition all_off_body (x : t_granular) : outcome t_granular :=
  let node := first_used (seeders_list x) in
  let* v := rd (array (seeders_list x)) node in
  let x := set_seeders_active (wrap16 (seeders_cnt x - 1)) (seeders_list x) x in
  let* x := update_seeder x v (Seeder.set_is_on false) in
  let* '(l, _) := list_remove_node (seeders_list x) node in
  Done (set_seeders_active (seeders_cnt x) l x).

(** [while ( *node != LIST_END)] with the node on the head cell. *)
Definition all_off_cond (x : t_granular) : outcome bool :=
  let* v := rd (array (seeders_list x)) (first_used (seeders_list x)) in
  Done (negb (v =? LIST_END)).

Definition granular_all_off (x : t_granular) : outcome t_granular :=
  while_loop (budget (seeders_list x)) all_off_cond all_off_body x.

(** [granular_all_on]: one turn of its loop. The node starts on
    [first_used + 1], which is the head cell of the empty list; a seeder
    that is ready is switched on and [list_insert_first] is called, which
    moves the head of the empty list; otherwise the node moves on. *)
Definition all_on_body (st : t_granular * Z) : outcome (t_granular * Z) :=
  let '(x, node) := st in
  let* v := rd (array (seeders_list x)) node in
  let* seeder := rd (seeders_arr x) v in
  if Seeder.buff_state seeder =? BUFF_READY then
    let x := set_seeders_active (wrap16 (seeders_cnt x + 1)) (seeders_list x) x in
    let* x := update_seeder x v (Seeder.set_is_on true) in
    let* '(l, _) := list_insert_first (seeders_list x) in
    Done (set_seeders_active (seeders_cnt x) l x, node)
  else Done (x, v).

(** [while ( *node != LIST_END)] *)
Definition all_on_cond (st : t_granular * Z) : outcome bool :=
  let '(x, node) := st in
  let* v := rd (array (seeders_list x)) node in Done (negb (v =? LIST_END)).

Definition granular_all_on (fuel : nat) (x : t_granular) : outcome t_granular :=
  let* '(x, _) :=
    while_loop fuel all_on_cond all_on_body (x, first_used (seeders_list x) + 1) in
  Done x.

(** [granular_get_active]: [atom_setlong(atom++, seeder->is_on)] for each
    seeder, then the first [seeders_max] atoms of [mess_arr] are sent. The
    result is [mess_arr] afterwards and the list sent. *)
Fixpoint get_active_fill (cnt : nat) (index : Z) (x : t_granular) (mess : list t_atom)
    : outcome (list t_atom) :=
  match cnt with
  | O => Done mess
  | S cnt' =>
      let* s := rd (seeders_arr x) index in
      let* mess := wr mess index (A_LONG (if Seeder.is_on s then 1 else 0)) in
      get_active_fill cnt' (index + 1) x mess
  end.

Definition granular_get_active (x : t_granular) (mess_arr : list t_atom)
    : outcome (list t_atom * list t_atom) :=
  let* mess := get_active_fill (Z.to_nat (seeders_max x)) 0 x mess_arr in
  Done (mess, take (Z.to_nat (seeders_max x)) mess).

(** [granular_file]: the loop that removes the grains of the seeder at
    [index] from the pool. *)
Definition purge_body (index : Z) (st : t_granular * Z) : outcome (t_granular * Z) :=
  let '(x, node) := st in
  let* slot := rd (array (grains_list x)) node in
  let* grain := rd (grains_arr x) slot in
  if Grain.index grain =? index then
    let* '(l, _) := list_remove_node (grains_list x) node in
    Done (set_grains (wrap16 (grains_cnt x - 1)) (grains_arr x) l x, node)
  else Done (x, slot).

(** [while ( *node != LIST_END)] *)
Definition purge_cond (st : t_granular * Z) : outcome bool :=
  let '(x, node) := st in
  let* v := rd (array (grains_list x)) node in Done (negb (v =? LIST_END)).

Definition purge_grains (index : Z) (x : t_granular) : outcome t_granular :=
  let* '(x, _) :=
    while_loop (budget (grains_list x)) purge_cond (purge_body index)
      (x, first_used (grains_list x)) in
  Done x.

Definition set_buff_state (v : Z) (s : t_seeder) : t_seeder :=
  {| Seeder.index := Seeder.index s; Seeder.is_on := Seeder.is_on s;
     Seeder.ampl := Seeder.ampl s; Seeder.src_begin := Seeder.src_begin s;
     Seeder.src_len_ms := Seeder.src_len_ms s; Seeder.src_len := Seeder.src_len s;
     Seeder.shift := Seeder.shift s; Seeder.shift_r := Seeder.shift_r s;
     Seeder.out_len := Seeder.out_len s; Seeder.period := Seeder.period s;
     Seeder.period_len := Seeder.period_len s; Seeder.speed := Seeder.speed s;
     Seeder.period_rand := Seeder.period_rand s; Seeder.buff_obj := Seeder.buff_obj s;
     Seeder.buff_n_chn := Seeder.buff_n_chn s; Seeder.buff_n_frm := Seeder.buff_n_frm s;
     Seeder.buff_msr := Seeder.buff_msr s; Seeder.buff_state := v;
     Seeder.env_values := Seeder.env_values s; Seeder.poly_cnt := Seeder.poly_cnt s;
     Seeder.period_cntd := Seeder.period_cntd s |}.

(** [granular_file], as far as the object goes: a seeder that is on loses its
    grains and is switched off (the result of [list_remove_index] is not
    looked at), then the seeder is marked ready and its window goes back to
    the beginning. The [read] message sent to the buffer object is the
    host's business; the frame count, the channel count and the samplerate
    of the seeder only change when the buffer notifies the object. *)
Definition granular_file (x : t_granular) (argv : list t_atom) : outcome t_granular :=
  let* index := granular_check_args x argv 3 in
  if index =? ERR_ARG then Done x
  else
    let* seeder := rd (seeders_arr x) index in
    let* x :=
      if Seeder.is_on seeder then
        let* x := purge_grains index x in
        let* '(l, _) := list_remove_index (seeders_list x) index in
        let x := set_seeders_active (wrap16 (seeders_cnt x - 1)) l x in
        update_seeder x index (Seeder.set_is_on false)
      else Done x in
    update_seeder x index
      (fun s => Seeder.set_src_begin 0 (set_buff_state BUFF_READY s)).


(* ===================================================================== *)
(** * Part II: worked examples                                            *)
(* ===================================================================== *)

(** Small objects on which the theorems below are run. *)

Module Example.
Import LinkedList.

(** A host whose [rand] always gives 0, so that every draw is the lowest one,
    and whose memory around the tables holds zeros. Its [exp] is only right
    at 0, the one place where the examples ask for it. *)
Definition quiet_host : Host :=
  {| RAND_MAX := 32767;
     rand := fun _ => 0;
     exp := fun _ => 1%float;
     stray_env := fun _ _ => 0%float;
     stray_src := fun _ _ => 0%float |}.

(** A seeder that is on, with a window of 4 samples played at its own pitch,
    a grain every 2 samples and no randomization, over a buffer of 16 mono
    frames at 48 kHz. *)
Definition seeder_a : Seeder.t_seeder :=
  {| Seeder.index := 0; Seeder.is_on := true; Seeder.ampl := 1%float;
     Seeder.src_begin := 0; Seeder.src_len_ms := 0x1.5555555555555p-4%float;
     Seeder.src_len := 4; Seeder.shift := 0%float; Seeder.shift_r := 1%float;
     Seeder.out_len := 4; Seeder.period := 0x1p-1%float; Seeder.period_len := 2;
     Seeder.speed := 1%float; Seeder.period_rand := 0%float;
     Seeder.buff_obj := replicate 16 0%float; Seeder.buff_n_chn := 1;
     Seeder.buff_n_frm := 16; Seeder.buff_msr := 48%float;
     Seeder.buff_state := BUFF_READY;
     Seeder.env_values := replicate 1000 1%float;
     Seeder.poly_cnt := 1; Seeder.period_cntd := replicate 10 0 |}.


(** A second seeder, off, whose buffer is linked and loaded. *)
Definition seeder_b : Seeder.t_seeder :=
  {| Seeder.index := 1; Seeder.is_on := false; Seeder.ampl := 1%float;
     Seeder.src_begin := 0; Seeder.src_len_ms := 100%float;
     Seeder.src_len := 4800; Seeder.shift := 0%float; Seeder.shift_r := 1%float;
     Seeder.out_len := 4800; Seeder.period := 0x1p-1%float; Seeder.period_len := 2400;
     Seeder.speed := 1%float; Seeder.period_rand := 0%float;
     Seeder.buff_obj := replicate 16 0%float; Seeder.buff_n_chn := 1;
     Seeder.buff_n_frm := 16; Seeder.buff_msr := 48%float;
     Seeder.buff_state := BUFF_READY;
     Seeder.env_values := replicate 1000 1%float;
     Seeder.poly_cnt := 1; Seeder.period_cntd := replicate 10 0 |}.

(** A third seeder, off, with no buffer linked. *)
Definition seeder_c : Seeder.t_seeder :=
  {| Seeder.index := 2; Seeder.is_on := false; Seeder.ampl := 1%float;
     Seeder.src_begin := 0; Seeder.src_len_ms := 100%float;
     Seeder.src_len := 4800; Seeder.shift := 0%float; Seeder.shift_r := 1%float;
     Seeder.out_len := 4800; Seeder.period := 0x1p-1%float; Seeder.period_len := 2400;
     Seeder.speed := 1%float; Seeder.period_rand := 0%float;
     Seeder.buff_obj := []; Seeder.buff_n_chn := 0;
     Seeder.buff_n_frm := 0; Seeder.buff_msr := 48%float;
     Seeder.buff_state := BUFF_NO_LINK;
     Seeder.env_values := replicate 1000 1%float;
     Seeder.poly_cnt := 1; Seeder.period_cntd := replicate 10 0 |}.

(** An index of capacity 4 whose used list reads 2, 1, 0 and whose empty
    list reads 3. *)
Definition list_a : t_list := {| len := 4; array := [-1; 0; 1; -1; 2; 3] |}.

(** An index of capacity 2 with nothing used, as [list_new] makes it, and the
    same index with both cells used. *)
Definition list_fresh : t_list := {| len := 2; array := [1; -1; -1; 0] |}.
Definition list_full : t_list := {| len := 2; array := [-1; 0; 1; -1] |}.

(** An object of three seeders, the first of them active, with a pool of two
    grains that is empty. *)
Definition object_a : t_granular :=
  {| msamplerate := 48%float; env_n_frm := ENV_N_SMP; master := 1%float;
     poly_max := POLY_MAX; seeders_max := 3; seeders_cnt := 1;
     seeders_arr := [seeder_a; seeder_b; seeder_c];
     seeders_list := {| len := 3; array := [-1; 2; -1; 0; 1] |};
     seeders_foc := 0;
     grains_max := 2; grains_cnt := 0;
     grains_arr := replicate 2 (new_grain seeder_a 0 0);
     grains_list := list_fresh |}.

(** The same object with the two inactive seeders the other way round in the
    inactive list: the one with no buffer first. *)
Definition object_b : t_granular :=
  set_seeders_active 1 {| len := 3; array := [-1; -1; 1; 0; 2] |} object_a.

(** The same again with no seeder active: the inactive list reads 2, 1, 0. *)
Definition object_c : t_granular :=
  set_seeders_arr [Seeder.set_is_on false seeder_a; seeder_b; seeder_c]
    (set_seeders_active 0 {| len := 3; array := [-1; 0; 1; -1; 2] |} object_a).

(** The same object with its pool full: two grains of the first seeder. *)
Definition object_full : t_granular :=
  set_grains 2 (grains_arr object_a) list_full object_a.

End Example.


(* ===================================================================== *)
(** * Part II: properties                                                 *)
(* ===================================================================== *)

(** ** Outcomes, loops and arrays *)

Lemma bind_Done {A B : Type} (m : outcome A) (k : A -> outcome B) (b : B) :
  bind m k = Done b -> exists a, m = Done a /\ k a = Done b.
Proof. destruct m; simpl; intros H; try discriminate. eauto. Qed.

Lemma wr_in_range {A : Type} (a : list A) i (v : A) :
  in_range a i -> wr a i v = Done (upd a i v).
Proof.
  unfold in_range, wr, upd. intros [H1 H2].
  destruct (Z.leb_spec 0 i); [|lia]. destruct (Z.ltb_spec i (Z.of_nat (length a))); [|lia].
  reflexivity.
Qed.

Lemma wr_Done {A : Type} (a a' : list A) i (v : A) :
  wr a i v = Done a' -> in_range a i /\ a' = upd a i v.
Proof.
  unfold in_range, wr, upd.
  destruct (Z.leb_spec 0 i); simpl; [|discriminate].
  destruct (Z.ltb_spec i (Z.of_nat (length a))); [|discriminate].
  intros [= <-]. auto.
Qed.

Lemma rd_Done {A : Type} (a : list A) i (v : A) :
  rd a i = Done v -> in_range a i.
Proof.
  unfold rd, in_range. destruct (Z.leb_spec 0 i); [|discriminate].
  destruct (a !! Z.to_nat i) eqn:E; [|discriminate].
  intros _. apply lookup_lt_Some in E. lia.
Qed.

Lemma rd_in_range {A : Type} (a : list A) i :
  in_range a i -> exists v, rd a i = Done v.
Proof.
  unfold rd, in_range. intros [H1 H2]. destruct (Z.leb_spec 0 i); [|lia].
  destruct (lookup_lt_is_Some_2 a (Z.to_nat i)) as [v Hv]; [lia|].
  rewrite Hv. eauto.
Qed.

Lemma length_upd {A : Type} (a : list A) i (v : A) : length (upd a i v) = length a.
Proof. apply length_insert. Qed.

Lemma in_range_upd {A : Type} (a : list A) i j (v : A) :
  in_range (upd a i v) j <-> in_range a j.
Proof. unfold in_range. rewrite length_upd. tauto. Qed.

Lemma rd_upd_eq {A : Type} (a : list A) i (v : A) :
  in_range a i -> rd (upd a i v) i = Done v.
Proof.
  unfold rd, upd, in_range. intros [H1 H2]. destruct (Z.leb_spec 0 i); [|lia].
  rewrite list_lookup_insert_eq; [reflexivity | lia].
Qed.

Lemma rd_upd_ne {A : Type} (a : list A) i j (v : A) :
  0 <= i -> i <> j -> rd (upd a i v) j = rd a j.
Proof.
  unfold rd, upd. intros H1 H2. destruct (Z.leb_spec 0 j); [|reflexivity].
  rewrite list_lookup_insert_ne; [reflexivity | lia].
Qed.

Lemma upd_comm {A : Type} (a : list A) i j (v w : A) :
  0 <= i -> 0 <= j -> i <> j -> upd (upd a i v) j w = upd (upd a j w) i v.
Proof. unfold upd. intros. apply list_insert_insert_ne. lia. Qed.

Lemma wrap_small bits n :
  0 < bits -> - 2 ^ (bits - 1) <= n < 2 ^ (bits - 1) -> wrap bits n = n.
Proof.
  intros Hb Hn. unfold wrap.
  replace (2 ^ bits) with (2 * 2 ^ (bits - 1)).
  - rewrite Z.mod_small; lia.
  - rewrite <- Z.pow_succ_r by lia. f_equal. lia.
Qed.

Lemma wrap16_small n : -32768 <= n <= 32767 -> wrap16 n = n.
Proof. intros. apply wrap_small; simpl; lia. Qed.

Lemma wrap32_small n : INT32_MIN <= n <= INT32_MAX -> wrap32 n = n.
Proof. unfold INT32_MIN, INT32_MAX. intros. apply wrap_small; simpl; lia. Qed.

(** More budget never changes a result. *)
Lemma while_loop_more {St : Type} cond body (fuel fuel' : nat) (s r : St) :
  while_loop fuel cond body s = Done r -> (fuel <= fuel')%nat ->
  while_loop fuel' cond body s = Done r.
Proof.
  revert fuel' s. induction fuel as [|fuel IH]; intros fuel' s H Hle.
  - destruct fuel'; simpl in *; destruct (cond s) as [[]| |]; simpl in *; try discriminate; auto.
  - destruct fuel' as [|fuel']; [lia|]. simpl in *.
    destruct (cond s) as [[]| |]; simpl in *; try discriminate; auto.
    destruct (body s) as [s'| |]; simpl in *; try discriminate.
    apply IH; [assumption | lia].
Qed.


(** ** The active-set index *)


Lemma chain_ext a a' c c' vs :
  chain a c vs -> rd a' c' = rd a c -> (forall x, x ∈ vs -> rd a' x = rd a x) ->
  chain a' c' vs.
Proof.
  intros H. revert c'. induction H as [c H|c v vs H Hv Hc IH]; intros c' Hc' Hvs.
  - apply chain_end. congruence.
  - apply chain_step with (1 := eq_trans Hc' H); [assumption|].
    apply IH.
    + apply Hvs. left.
    + intros x Hx. apply Hvs. right. assumption.
Qed.

Lemma chain_fun a c vs vs' : chain a c vs -> chain a c vs' -> vs = vs'.
Proof.
  intros H. revert vs'. induction H as [c H|c v vs H Hv Hc IH]; intros vs' H'.
  - inversion H' as [? H1|? v' ? H1 H2 H3]; subst; [reflexivity|congruence].
  - inversion H' as [? H1|? v' ? H1 H2 H3]; subst; [congruence|].
    assert (v' = v) by congruence. subst. f_equal. auto.
Qed.

Lemma path_end_in a c vs p : path a c vs p -> p ∈ c :: vs.
Proof.
  induction 1 as [|c v vs p H Hv Hp IH]; [left|right; assumption].
Qed.

Lemma path_ext a a' c vs p :
  path a c vs p -> NoDup (c :: vs) ->
  (forall x, x ∈ c :: vs -> x <> p -> rd a' x = rd a x) ->
  path a' c vs p.
Proof.
  induction 1 as [|c v vs p H Hv Hp IH]; intros Hnd Hext; [constructor|].
  apply NoDup_cons in Hnd as [Hc Hnd].
  apply path_step; [|assumption|].
  - rewrite Hext; [assumption|left|]. intros ->. apply Hc. eapply path_end_in; eauto.
  - apply IH; [assumption|]. intros x Hx. apply Hext. right. assumption.
Qed.

Lemma path_chain a c pre p post :
  path a c pre p -> chain a p post -> chain a c (pre ++ post).
Proof.
  induction 1 as [|c v vs p H Hv Hp IH]; intros Hc; simpl; [assumption|].
  eapply chain_step; eauto.
Qed.

Lemma chain_split a c pre post :
  chain a c (pre ++ post) -> exists p, path a c pre p /\ chain a p post.
Proof.
  revert c. induction pre as [|v pre IH]; intros c H; simpl in *.
  - exists c. split; [constructor|assumption].
  - inversion H as [|? ? ? H1 H2 H3]; subst.
    destruct (IH _ H3) as (p & Hp & Hc). exists p. split; [|assumption].
    apply path_step; assumption.
Qed.

Lemma chain_cursor a c vs x :
  chain a c vs -> x ∈ c :: vs ->
  exists pre post, vs = pre ++ post /\ path a c pre x /\ chain a x post.
Proof.
  intros H. induction H as [c H|c v vs H Hv Hc IH]; intros Hx.
  - apply list_elem_of_singleton in Hx as ->.
    exists [], []. repeat split; [constructor|apply chain_end; assumption].
  - apply elem_of_cons in Hx as [->|Hx].
    + exists [], (v :: vs). repeat split; [constructor|]. eapply chain_step; eauto.
    + destruct (IH Hx) as (pre & post & -> & Hp & Hq).
      exists (v :: pre), post. repeat split; [|assumption]. apply path_step; assumption.
Qed.

Lemma chain_in_range a c vs x : chain a c vs -> x ∈ c :: vs -> in_range a x.
Proof.
  induction 1 as [c H|c v vs H Hv Hc IH]; intros Hx.
  - apply list_elem_of_singleton in Hx as ->. eapply rd_Done; eauto.
  - apply elem_of_cons in Hx as [->|Hx]; [eapply rd_Done; eauto|auto].
Qed.

(** The executable walk and the chain describe the same list. *)
Lemma indices_from_chain fuel a c vs :
  indices_from fuel a c = Done vs -> chain a c vs.
Proof.
  revert c vs. induction fuel as [|fuel IH]; intros c vs; simpl; intros H.
  - apply bind_Done in H as (v & Hv & H). destruct (Z.eqb_spec v LIST_END); [|discriminate].
    injection H as <-. apply chain_end. congruence.
  - apply bind_Done in H as (v & Hv & H). destruct (Z.eqb_spec v LIST_END).
    + injection H as <-. apply chain_end. congruence.
    + apply bind_Done in H as (rest & Hr & H). injection H as <-.
      eapply chain_step; eauto.
Qed.

Lemma chain_indices_from fuel a c vs :
  chain a c vs -> (length vs <= fuel)%nat -> indices_from fuel a c = Done vs.
Proof.
  intros H. revert fuel. induction H as [c H|c v vs H Hv Hc IH]; intros fuel Hf.
  - destruct fuel; simpl; rewrite H; reflexivity.
  - destruct fuel as [|fuel]; [simpl in Hf; lia|]. simpl. rewrite H. simpl.
    destruct (Z.eqb_spec v LIST_END); [contradiction|].
    rewrite IH by (simpl in Hf; lia). reflexivity.
Qed.

Lemma perm_seqZ_facts (us es : list Z) n :
  us ++ es ≡ₚ seqZ 0 n ->
  NoDup (us ++ es) /\ (forall x, x ∈ us ++ es -> 0 <= x < n) /\
  Z.of_nat (length us + length es) = Z.max 0 n.
Proof.
  intros Hp. split; [|split].
  - rewrite Hp. apply NoDup_seqZ.
  - intros x Hx. rewrite Hp in Hx. apply elem_of_seqZ in Hx. lia.
  - rewrite <- length_app, Hp, length_seqZ. lia.
Qed.

Lemma repr_partition_inv l us es : repr l us es -> partition_inv l.
Proof.
  intros [Hc Hu He Hp]. exists us, es.
  destruct (perm_seqZ_facts _ _ _ Hp) as (_ & _ & Hlen).
  unfold used_indices, empty_indices, budget.
  rewrite (chain_indices_from _ _ _ _ Hu), (chain_indices_from _ _ _ _ He); auto; lia.
Qed.

Lemma partition_inv_repr l : partition_inv l -> exists us es, repr l us es.
Proof.
  intros (us & es & Hu & He & Hp & Hc). exists us, es.
  split; auto; eapply indices_from_chain; eauto.
Qed.

Lemma repr_used_indices l us es : repr l us es -> used_indices l = Done us.
Proof.
  intros [Hc Hu He Hp]. destruct (perm_seqZ_facts _ _ _ Hp) as (_ & _ & Hlen).
  unfold used_indices, budget. apply chain_indices_from; [assumption|lia].
Qed.

Lemma repr_empty_indices l us es : repr l us es -> empty_indices l = Done es.
Proof.
  intros [Hc Hu He Hp]. destruct (perm_seqZ_facts _ _ _ Hp) as (_ & _ & Hlen).
  unfold empty_indices, budget. apply chain_indices_from; [assumption|lia].
Qed.


Lemma rd_spliced a pf pt u nxt v x :
  in_range a pf -> in_range a u -> in_range a pt ->
  pf <> u -> pf <> pt -> u <> pt ->
  rd (spliced a pf pt u nxt v) x =
    if decide (x = pt) then Done u
    else if decide (x = u) then Done v
    else if decide (x = pf) then Done nxt
    else rd a x.
Proof.
  intros Hpf Hu Hpt H1 H2 H3. unfold spliced.
  destruct (decide (x = pt)) as [->|Hx1].
  { apply rd_upd_eq. rewrite !in_range_upd. assumption. }
  rewrite rd_upd_ne by (destruct Hpt; lia || congruence).
  destruct (decide (x = u)) as [->|Hx2].
  { apply rd_upd_eq. rewrite !in_range_upd. assumption. }
  rewrite rd_upd_ne by (destruct Hu; lia || congruence).
  destruct (decide (x = pf)) as [->|Hx3].
  { apply rd_upd_eq. assumption. }
  rewrite rd_upd_ne by (destruct Hpf; lia || congruence). reflexivity.
Qed.

Lemma chain_rd a c vs : chain a c vs -> exists v, rd a c = Done v.
Proof. destruct 1; eauto. Qed.

(** Moving one index from a list to another: [pf] points to [u] in the list
    headed by [hx], [pt] is a pointer of the list headed by [hy]. *)
Lemma spliced_spec a hx hy xpre u xpost ypre ypost pf pt nxt v :
  path a hx xpre pf -> chain a pf (u :: xpost) ->
  path a hy ypre pt -> chain a pt ypost ->
  NoDup (hx :: hy :: (xpre ++ u :: xpost) ++ (ypre ++ ypost)) ->
  rd a u = Done nxt -> rd a pt = Done v ->
  (pf <> u /\ pf <> pt /\ u <> pt) /\
  chain (spliced a pf pt u nxt v) hx (xpre ++ xpost) /\
  chain (spliced a pf pt u nxt v) hy (ypre ++ u :: ypost).
Proof.
  intros Hxp Hxc Hyp Hyc Hnd Hnxt Hv.
  inversion Hxc as [|? ? ? Hpf Hu Hxc']; subst.
  pose proof (path_end_in _ _ _ _ Hxp) as Ipf.
  pose proof (path_end_in _ _ _ _ Hyp) as Ipt.
  pose proof (rd_Done _ _ _ Hpf) as R1. pose proof (rd_Done _ _ _ Hnxt) as R2.
  pose proof (rd_Done _ _ _ Hv) as R3.
  rewrite !NoDup_cons, !NoDup_app, !NoDup_cons in Hnd.
  destruct Hnd as (Nhx & Nhy & (Nxpre & Dx & Nu & Nxpost) & Dxy & Nypre & Dy & Nypost).
  assert (Epf : pf <> u) by (clear - Ipf Nhx Dx; set_solver).
  assert (Ept : pf <> pt) by (clear - Ipf Ipt Nhx Nhy Dxy; set_solver).
  assert (Eu : u <> pt) by (clear - Ipt Nhy Dxy; set_solver).
  split; [auto|].
  assert (Hrd := fun x => rd_spliced a pf pt u nxt v x R1 R2 R3 Epf Ept Eu).
  split.
  - apply path_chain with (p := pf).
    + apply path_ext with (a := a); [assumption| |].
      * apply NoDup_cons. split; [clear - Nhx; set_solver|assumption].
      * intros x Hx Hne. rewrite Hrd. repeat case_decide; subst; try reflexivity;
          exfalso; clear - Hx Hne Ipt Nhx Nhy Dx Dxy; set_solver.
    + apply chain_ext with (a := a) (c := u); [assumption| |].
      * rewrite Hrd. repeat case_decide; congruence.
      * intros x Hx. rewrite Hrd. repeat case_decide; subst; try reflexivity;
          exfalso; clear - Hx Ipf Ipt Nhx Nhy Nu Dx Dxy; set_solver.
  - apply path_chain with (p := pt).
    + apply path_ext with (a := a); [assumption| |].
      * apply NoDup_cons. split; [clear - Nhy; set_solver|assumption].
      * intros x Hx Hne. rewrite Hrd. repeat case_decide; subst; try reflexivity;
          exfalso; clear - Hx Hne Ipf Nhx Nhy Dxy; set_solver.
    + apply chain_step with (v := u); [rewrite Hrd; repeat case_decide; congruence|assumption|].
      apply chain_ext with (a := a) (c := pt); [assumption| |].
      * rewrite Hrd. repeat case_decide; congruence.
      * intros x Hx. rewrite Hrd. repeat case_decide; subst; try reflexivity;
          exfalso; clear - Hx Ipf Ipt Nhx Nhy Dy Dxy; set_solver.
Qed.

Lemma heads_fresh l us es :
  repr l us es ->
  NoDup (us ++ es) /\ first_used l <> first_empty l /\
  (first_used l ∉ us ++ es) /\ (first_empty l ∉ us ++ es) /\
  in_range (array l) (first_used l) /\ in_range (array l) (first_empty l) /\
  (forall x, x ∈ us ++ es -> 0 <= x < len l).
Proof.
  intros [Hc Hu He Hp]. destruct (perm_seqZ_facts _ _ _ Hp) as (Hnd & Hr & Hlen).
  split; [assumption|]. split; [unfold first_used, first_empty; lia|].
  split; [intros H; apply Hr in H; unfold first_used in H; lia|].
  split; [intros H; apply Hr in H; unfold first_empty in H; lia|].
  split; [eapply chain_in_range; [exact Hu|left]|].
  split; [eapply chain_in_range; [exact He|left]|].
  assumption.
Qed.

Lemma repr_to_used l us es epre e epost upre upost pf pt :
  repr l us es -> es = epre ++ e :: epost -> us = upre ++ upost ->
  path (array l) (first_empty l) epre pf -> chain (array l) pf (e :: epost) ->
  path (array l) (first_used l) upre pt -> chain (array l) pt upost ->
  exists a', moved l pf pt e a' /\
    repr (with_array l a') (upre ++ e :: upost) (epre ++ epost).
Proof.
  intros Hr -> -> Hep Hec Hup Huc.
  destruct (heads_fresh _ _ _ Hr) as (Hnd & Hne & Hfu & Hfe & _ & _ & _).
  destruct Hr as [Hc Hu He Hp].
  inversion Hec as [|? ? ? Hpf Hend Hec']; subst.
  destruct (chain_rd _ _ _ Hec') as [nxt Hnxt].
  destruct (chain_rd _ _ _ Huc) as [v Hv].
  destruct (spliced_spec (array l) (first_empty l) (first_used l) epre e epost upre upost
              pf pt nxt v) as ((N1 & N2 & N3) & C1 & C2); try assumption.
  { rewrite !NoDup_cons. split; [|split].
    - clear - Hne Hfe. set_solver.
    - clear - Hfu. set_solver.
    - eapply NoDup_Permutation_proper; [|exact Hnd]. apply Permutation_app_comm. }
  exists (spliced (array l) pf pt e nxt v). split.
  - split; try assumption. exists nxt, v. auto.
  - split; simpl; try assumption.
    + unfold spliced. rewrite !length_upd. assumption.
    + rewrite <- Hp. solve_Permutation.
Qed.


Lemma repr_to_empty l us es upre u upost pf :
  repr l us es -> us = upre ++ u :: upost ->
  path (array l) (first_used l) upre pf -> chain (array l) pf (u :: upost) ->
  exists a', moved l pf (first_empty l) u a' /\
    repr (with_array l a') (upre ++ upost) (u :: es).
Proof.
  intros Hr -> Hup Huc.
  destruct (heads_fresh _ _ _ Hr) as (Hnd & Hne & Hfu & Hfe & _ & _ & _).
  destruct Hr as [Hc Hu He Hp].
  inversion Huc as [|? ? ? Hpf Hend Huc']; subst.
  destruct (chain_rd _ _ _ Huc') as [nxt Hnxt].
  destruct (chain_rd _ _ _ He) as [v Hv].
  destruct (spliced_spec (array l) (first_used l) (first_empty l) upre u upost [] es
              pf (first_empty l) nxt v) as ((N1 & N2 & N3) & C1 & C2); try assumption.
  { constructor. }
  { rewrite !NoDup_cons. split; [|split].
    - clear - Hne Hfu. set_solver.
    - clear - Hfe. set_solver.
    - exact Hnd. }
  exists (spliced (array l) pf (first_empty l) u nxt v). split.
  - split; try assumption. exists nxt, v. auto.
  - split; simpl; try assumption.
    + unfold spliced. rewrite !length_upd. assumption.
    + rewrite <- Hp. solve_Permutation.
Qed.

(** Symbolic execution of the straight-line part of an operation. *)
Ltac side :=
  first [ assumption | congruence | lia
        | match goal with H : in_range _ ?i |- 0 <= ?i => exact (proj1 H) end
        | rewrite ?in_range_upd; assumption ].

Lemma bind_done {A B : Type} (a : A) (k : A -> outcome B) : bind (Done a) k = k a.
Proof. reflexivity. Qed.

Ltac exec1 :=
  match goal with
  | |- context [bind (Done _) _] => rewrite bind_done
  | H : ?m = Done _ |- context [bind ?m _] => rewrite H
  | |- context [bind (rd (upd ?a ?i ?v) ?j) _] =>
      first [ rewrite (rd_upd_ne a i j v) by side | rewrite (rd_upd_eq a j v) by side ]
  | |- context [bind (wr ?a ?i ?v) _] => rewrite (wr_in_range a i v) by side
  | |- context [if ?x =? LIST_END then _ else _] =>
      destruct (Z.eqb_spec x LIST_END); [congruence|]
  end; cbv beta iota.

Ltac exec := cbv beta iota zeta; repeat exec1.

Ltac use_moved H :=
  let nxt := fresh "nxt" in let v := fresh "v" in
  let H1 := fresh "Hpf" in let H2 := fresh "Hu" in let N1 := fresh "N" in
  let N2 := fresh "N" in let N3 := fresh "N" in let H3 := fresh "Hnxt" in
  let H4 := fresh "Hv" in let H5 := fresh "Ha" in
  destruct H as [H1 H2 N1 N2 N3 (nxt & v & H3 & H4 & H5)];
  pose proof (rd_Done _ _ _ H1); pose proof (rd_Done _ _ _ H3);
  pose proof (rd_Done _ _ _ H4).

Lemma list_insert_first_spec l us e es :
  repr l us (e :: es) ->
  exists l', list_insert_first l = Done (l', e) /\ repr l' (e :: us) es /\ len l' = len l.
Proof.
  intros Hr.
  destruct (repr_to_used l us (e :: es) [] e es [] us (first_empty l) (first_used l) Hr
              eq_refl eq_refl (path_here _ _) (repr_empty _ _ _ Hr)
              (path_here _ _) (repr_used _ _ _ Hr)) as (a' & Hm & Hr').
  exists (with_array l a'). split; [|split; [exact Hr'|reflexivity]].
  use_moved Hm. unfold list_insert_first. exec. subst a'. reflexivity.
Qed.

Lemma list_insert_first_full l us :
  repr l us [] -> list_insert_first l = Done (l, LIST_ERR_FULL).
Proof.
  intros Hr. destruct Hr as [_ _ He _]. inversion He as [? H|]; subst.
  unfold list_insert_first. rewrite H. reflexivity.
Qed.

Lemma list_remove_first_spec l u us es :
  repr l (u :: us) es ->
  exists l', list_remove_first l = Done (l', u) /\ repr l' us (u :: es) /\ len l' = len l.
Proof.
  intros Hr.
  destruct (repr_to_empty l (u :: us) es [] u us (first_used l) Hr
              eq_refl (path_here _ _) (repr_used _ _ _ Hr)) as (a' & Hm & Hr').
  exists (with_array l a'). split; [|split; [exact Hr'|reflexivity]].
  use_moved Hm. unfold list_remove_first. exec. subst a'. reflexivity.
Qed.

Lemma list_remove_first_empty l es :
  repr l [] es -> list_remove_first l = Done (l, LIST_ERR_EMPTY).
Proof.
  intros Hr. destruct Hr as [_ Hu _ _]. inversion Hu as [? H|]; subst.
  unfold list_remove_first. rewrite H. reflexivity.
Qed.

(** *** The loops that look for a node *)

Lemma walk_to_end_fuel a c vs fuel :
  chain a c vs -> (length vs <= fuel)%nat ->
  exists p,
    while_loop fuel (fun node => let* v := rd a node in Done (negb (v =? LIST_END)))
      (fun node => rd a node) c = Done p /\
    path a c vs p /\ rd a p = Done LIST_END.
Proof.
  intros H. revert fuel. induction H as [c H|c v vs H Hv Hc IH]; intros fuel Hf.
  - exists c. split; [|split; [constructor|assumption]].
    destruct fuel; simpl; rewrite H; reflexivity.
  - destruct fuel as [|fuel]; [simpl in Hf; lia|].
    destruct (IH fuel) as (p & Hw & Hp & He); [simpl in Hf; lia|].
    exists p. split; [|split; [apply path_step; assumption|assumption]].
    simpl. rewrite H. simpl. destruct (Z.eqb_spec v LIST_END); [contradiction|].
    simpl. exact Hw.
Qed.

Lemma walk_to_end_spec l c vs :
  chain (array l) c vs -> (length vs <= budget l)%nat ->
  exists p, walk_to_end l c = Done p /\ path (array l) c vs p /\
            rd (array l) p = Done LIST_END.
Proof. apply walk_to_end_fuel. Qed.

Lemma walk_nth_fuel a fuel : forall cnt c vs,
  (Z.to_nat cnt <= fuel)%nat -> -32768 <= cnt <= 32767 -> chain a c vs ->
  exists p cnt',
    while_loop fuel
      (fun '(node, cnt) =>
         let* v := rd a node in Done (negb (v =? LIST_END) && (0 <? cnt)))
      (fun '(node, cnt) => let* v := rd a node in Done (v, wrap16 (cnt - 1)))
      (c, cnt) = Done (p, cnt') /\
    path a c (take (Z.to_nat cnt) vs) p /\ chain a p (drop (Z.to_nat cnt) vs).
Proof.
  induction fuel as [|fuel IH]; intros cnt c vs Hf Hr Hc.
  - assert (Z.to_nat cnt = 0%nat) as E by lia. rewrite E. simpl.
    exists c, cnt. split; [|split; [constructor|assumption]].
    destruct (chain_rd _ _ _ Hc) as [v Hv]. rewrite Hv. simpl.
    destruct (Z.ltb_spec 0 cnt); [lia|]. rewrite andb_false_r. reflexivity.
  - inversion Hc as [? H|? v vs' H Hv Hc']; subst.
    + exists c, cnt. rewrite take_nil, drop_nil.
      split; [|split; [constructor|assumption]]. simpl. rewrite H. reflexivity.
    + destruct (Z.ltb_spec 0 cnt) as [Hpos|Hneg].
      * destruct (IH (cnt - 1) v vs') as (p & cnt' & Hw & Hp & Hq); [lia|lia|assumption|].
        exists p, cnt'. replace (Z.to_nat cnt) with (S (Z.to_nat (cnt - 1))) by lia.
        split; [|split; [apply path_step; assumption|assumption]].
        simpl. rewrite H. simpl. destruct (Z.eqb_spec v LIST_END); [contradiction|].
        destruct (Z.ltb_spec 0 cnt); [|lia]. simpl.
        rewrite wrap16_small by lia. exact Hw.
      * assert (Z.to_nat cnt = 0%nat) as E by lia. rewrite E. simpl.
        exists c, cnt. split; [|split; [constructor|assumption]].
        rewrite H. simpl. destruct (Z.ltb_spec 0 cnt); [lia|].
        rewrite andb_false_r. reflexivity.
Qed.

Lemma walk_nth_spec l c vs n :
  -32768 <= n <= 32767 -> chain (array l) c vs ->
  exists p, walk_nth l c n = Done p /\
    path (array l) c (take (Z.to_nat n) vs) p /\
    chain (array l) p (drop (Z.to_nat n) vs).
Proof.
  intros Hn Hc.
  destruct (walk_nth_fuel (array l) (Z.to_nat n) n c vs) as (p & cnt' & Hw & Hp & Hq);
    [lia|assumption|assumption|].
  exists p. unfold walk_nth. rewrite Hw. simpl. auto.
Qed.

Lemma walk_to_index_fuel a index c vs fuel :
  chain a c vs -> (length vs <= fuel)%nat ->
  exists p pre post,
    while_loop fuel
      (fun node =>
         let* v := rd a node in Done (negb (v =? LIST_END) && negb (v =? index)))
      (fun node => rd a node) c = Done p /\
    vs = pre ++ post /\ (index ∉ pre) /\ path a c pre p /\ chain a p post /\
    (post = [] \/ exists post', post = index :: post').
Proof.
  intros H. revert fuel. induction H as [c H|c v vs H Hv Hc IH]; intros fuel Hf.
  - exists c, [], []. split; [|repeat split; [apply not_elem_of_nil|constructor|
      apply chain_end; assumption|left; reflexivity]].
    destruct fuel; simpl; rewrite H; reflexivity.
  - destruct (Z.eqb_spec v index) as [->|Hne].
    + exists c, [], (index :: vs).
      split; [|repeat split; [apply not_elem_of_nil|constructor|
        eapply chain_step; eauto|right; eauto]].
      destruct fuel; simpl; rewrite H; simpl; rewrite Z.eqb_refl, andb_false_r; reflexivity.
    + destruct fuel as [|fuel]; [simpl in Hf; lia|].
      destruct (IH fuel) as (p & pre & post & Hw & -> & Hni & Hp & Hq & Hpost);
        [simpl in Hf; lia|].
      exists p, (v :: pre), post.
      split; [|repeat split; [|apply path_step; assumption|assumption|assumption]].
      * simpl. rewrite H. simpl. destruct (Z.eqb_spec v LIST_END); [contradiction|].
        destruct (Z.eqb_spec v index); [contradiction|]. simpl. exact Hw.
      * intros Hin. apply elem_of_cons in Hin as [E|Hin]; [congruence|contradiction].
Qed.

Lemma walk_to_index_spec l index c vs :
  chain (array l) c vs -> (length vs <= budget l)%nat ->
  exists p pre post,
    walk_to_index l c index = Done p /\
    vs = pre ++ post /\ (index ∉ pre) /\ path (array l) c pre p /\
    chain (array l) p post /\ (post = [] \/ exists post', post = index :: post').
Proof. apply walk_to_index_fuel. Qed.

Lemma walk_before_last_fuel a rest : forall fuel node next,
  rd a node = Done next -> next <> LIST_END -> chain a next rest ->
  (length rest <= fuel)%nat ->
  exists p z pre,
    while_loop fuel
      (fun '(_, next) => let* v := rd a next in Done (negb (v =? LIST_END)))
      (fun '(_, next) => let* v := rd a next in Done (next, v))
      (node, next) = Done (p, z) /\
    next :: rest = pre ++ [z] /\ path a node pre p /\ chain a p [z].
Proof.
  induction rest as [|w rest IH]; intros fuel node next Hn Hne Hc Hf.
  - inversion Hc as [? H|]; subst.
    exists node, next, []. split; [|split; [reflexivity|split; [constructor|]]].
    + destruct fuel; simpl; rewrite H; reflexivity.
    + eapply chain_step; eauto.
  - inversion Hc as [|? ? ? H Hw Hc']; subst.
    destruct fuel as [|fuel]; [simpl in Hf; lia|].
    destruct (IH fuel next w H Hw Hc') as (p & z & pre & Hl & E & Hp & Hq);
      [simpl in Hf; lia|].
    exists p, z, (next :: pre). split; [|split; [|split]].
    + simpl. rewrite H. simpl. destruct (Z.eqb_spec w LIST_END); [contradiction|].
      simpl. exact Hl.
    + simpl. rewrite <- E. reflexivity.
    + apply path_step; assumption.
    + assumption.
Qed.

Lemma repr_budget_used l us es : repr l us es -> (length us <= budget l)%nat.
Proof.
  intros [Hc _ _ Hp]. destruct (perm_seqZ_facts _ _ _ Hp) as (_ & _ & Hlen).
  unfold budget. lia.
Qed.

Lemma repr_budget_empty l us es : repr l us es -> (length es <= budget l)%nat.
Proof.
  intros [Hc _ _ Hp]. destruct (perm_seqZ_facts _ _ _ Hp) as (_ & _ & Hlen).
  unfold budget. lia.
Qed.

(** *** The operations on the two lists *)

Lemma path_fun a c vs p p' : path a c vs p -> path a c vs p' -> p = p'.
Proof.
  intros H. revert p'. induction H as [|c v vs p H Hv Hp IH]; intros p' H'.
  - inversion H'; reflexivity.
  - inversion H'; subst. auto.
Qed.

Lemma chain_at a c pre post p :
  chain a c (pre ++ post) -> path a c pre p -> chain a p post.
Proof.
  intros Hc Hp. destruct (chain_split _ _ _ _ Hc) as (p' & Hp' & Hq).
  rewrite (path_fun _ _ _ _ _ Hp Hp'). assumption.
Qed.

Lemma list_insert_node_spec l upre upost e es node :
  repr l (upre ++ upost) (e :: es) -> path (array l) (first_used l) upre node ->
  exists l', list_insert_node l node = Done (l', e) /\
             repr l' (upre ++ e :: upost) es /\ len l' = len l.
Proof.
  intros Hr Hp.
  pose proof (chain_at _ _ _ _ _ (repr_used _ _ _ Hr) Hp) as Hq.
  destruct (repr_to_used l _ _ [] e es upre upost (first_empty l) node Hr
              eq_refl eq_refl (path_here _ _) (repr_empty _ _ _ Hr) Hp Hq)
    as (a' & Hm & Hr').
  exists (with_array l a'). split; [|split; [exact Hr'|reflexivity]].
  use_moved Hm. unfold list_insert_node. exec. subst a'. reflexivity.
Qed.

Lemma list_insert_full l us op :
  repr l us [] ->
  match op with
  | InsertFirst | InsertNode _ | InsertLast | InsertNth _ => run_op op l = Done (l, LIST_ERR_FULL)
  | _ => True
  end.
Proof.
  intros Hr. destruct Hr as [_ _ He _]. inversion He as [? H|]; subst.
  destruct op; simpl; trivial;
    [unfold list_insert_first|unfold list_insert_node|unfold list_insert_last
    |unfold list_insert_nth]; rewrite H; reflexivity.
Qed.

Lemma list_remove_node_spec l upre u upost es node :
  repr l (upre ++ u :: upost) es -> path (array l) (first_used l) upre node ->
  exists l', list_remove_node l node = Done (l', u) /\
             repr l' (upre ++ upost) (u :: es) /\ len l' = len l.
Proof.
  intros Hr Hp.
  pose proof (chain_at _ _ _ _ _ (repr_used _ _ _ Hr) Hp) as Hq.
  destruct (repr_to_empty l _ es upre u upost node Hr eq_refl Hp Hq) as (a' & Hm & Hr').
  exists (with_array l a'). split; [|split; [exact Hr'|reflexivity]].
  assert (exists u0, rd (array l) (first_used l) = Done u0 /\ u0 <> LIST_END)
    as (u0 & Hu0 & Hne).
  { pose proof (repr_used _ _ _ Hr) as Hc.
    destruct upre; inversion Hc; subst; eauto. }
  use_moved Hm. unfold list_remove_node. exec. subst a'. reflexivity.
Qed.

Lemma list_remove_empty l es op :
  repr l [] es ->
  match op with
  | RemoveFirst | RemoveNode _ | RemoveLast | RemoveNth _ => run_op op l = Done (l, LIST_ERR_EMPTY)
  | _ => True
  end.
Proof.
  intros Hr. destruct Hr as [_ Hu _ _]. inversion Hu as [? H|]; subst.
  destruct op; simpl; trivial;
    [unfold list_remove_first|unfold list_remove_node|unfold list_remove_last
    |unfold list_remove_nth]; rewrite H; reflexivity.
Qed.

Lemma list_insert_last_spec l us e es :
  repr l us (e :: es) ->
  exists l', list_insert_last l = Done (l', e) /\ repr l' (us ++ [e]) es /\ len l' = len l.
Proof.
  intros Hr.
  destruct (walk_to_end_spec l (first_used l) us (repr_used _ _ _ Hr)
              (repr_budget_used _ _ _ Hr)) as (p & Hw & Hp & Hend).
  destruct (repr_to_used l us _ [] e es us [] (first_empty l) p Hr
              eq_refl (eq_sym (app_nil_r us)) (path_here _ _) (repr_empty _ _ _ Hr) Hp
              (chain_end _ _ Hend))
    as (a' & Hm & Hr').
  exists (with_array l a'). split; [|split; [exact Hr'|reflexivity]].
  use_moved Hm. assert (v = LIST_END) by congruence. subst v.
  unfold list_insert_last. exec. subst a'. unfold spliced, with_array. do 2 f_equal.
  rewrite (upd_comm _ p (first_empty l)) by side.
  rewrite (upd_comm _ p e) by side. reflexivity.
Qed.

Lemma list_insert_nth_spec l us e es n :
  repr l us (e :: es) -> -32768 <= n <= 32767 ->
  exists l', list_insert_nth l n = Done (l', e) /\
    repr l' (take (Z.to_nat n) us ++ e :: drop (Z.to_nat n) us) es /\ len l' = len l.
Proof.
  intros Hr Hn.
  destruct (walk_nth_spec l (first_used l) us n Hn (repr_used _ _ _ Hr))
    as (p & Hw & Hp & Hq).
  destruct (repr_to_used l us _ [] e es _ _ (first_empty l) p Hr
              eq_refl (eq_sym (take_drop (Z.to_nat n) us)) (path_here _ _)
              (repr_empty _ _ _ Hr) Hp Hq)
    as (a' & Hm & Hr').
  exists (with_array l a'). split; [|split; [exact Hr'|reflexivity]].
  use_moved Hm. unfold list_insert_nth. exec. subst a'. reflexivity.
Qed.

Lemma list_insert_index_spec l us es index :
  repr l us es ->
  ((index ∉ es) /\ list_insert_index l index = Done (l, LIST_NOT_FOUND)) \/
  (exists pre post l', es = pre ++ index :: post /\
     list_insert_index l index = Done (l', index) /\
     repr l' (index :: us) (pre ++ post) /\ len l' = len l).
Proof.
  intros Hr.
  destruct (walk_to_index_spec l index (first_empty l) es (repr_empty _ _ _ Hr)
              (repr_budget_empty _ _ _ Hr))
    as (p & pre & post & Hw & -> & Hni & Hp & Hq & [->|[post' ->]]).
  - left. split; [rewrite app_nil_r; assumption|].
    inversion Hq as [? Hend|]; subst.
    unfold list_insert_index. rewrite Hw. cbn [bind]. rewrite Hend. reflexivity.
  - right.
    destruct (repr_to_used l us _ pre index post' [] us p (first_used l) Hr
                eq_refl eq_refl Hp Hq (path_here _ _) (repr_used _ _ _ Hr))
      as (a' & Hm & Hr').
    exists pre, post', (with_array l a'). split; [reflexivity|].
    split; [|split; [exact Hr'|reflexivity]].
    use_moved Hm. unfold list_insert_index. exec. subst a'. reflexivity.
Qed.

Lemma list_remove_last_spec l pre z es :
  repr l (pre ++ [z]) es ->
  exists l', list_remove_last l = Done (l', LIST_END) /\
             repr l' pre (z :: es) /\ len l' = len l.
Proof.
  intros Hr. pose proof (repr_used _ _ _ Hr) as Hc.
  assert (exists u0 rest, pre ++ [z] = u0 :: rest) as (u0 & rest & E).
  { destruct pre; simpl; eauto. }
  rewrite E in Hc. inversion Hc as [|? ? ? Hu0 Hne Hc']; subst.
  destruct (walk_before_last_fuel (array l) rest (budget l) (first_used l) u0 Hu0 Hne Hc')
    as (p & z' & pre' & Hw & E' & Hp & Hq).
  { pose proof (repr_budget_used _ _ _ Hr) as Hb. rewrite E in Hb. simpl in Hb. lia. }
  rewrite <- E in E'. apply app_inj_tail in E' as [-> ->].
  destruct (repr_to_empty l _ es pre' z' [] p Hr eq_refl Hp Hq) as (a' & Hm & Hr').
  rewrite app_nil_r in Hr'.
  exists (with_array l a'). split; [|split; [exact Hr'|reflexivity]].
  use_moved Hm.
  assert (nxt = LIST_END).
  { inversion Hq as [|? ? ? Q1 Q2 Q3]; subst. inversion Q3; subst. congruence. }
  subst nxt.
  unfold list_remove_last. exec. subst a'. unfold spliced, with_array. do 2 f_equal.
  rewrite (upd_comm _ (first_empty l) p) by side.
  rewrite (upd_comm _ z' p) by side. reflexivity.
Qed.

Lemma list_remove_nth_spec l us es n :
  repr l us es -> us <> [] -> -32768 <= n <= 32767 ->
  (drop (Z.to_nat n) us = [] /\ list_remove_nth l n = Done (l, LIST_ERR_ARG)) \/
  (exists u post l', drop (Z.to_nat n) us = u :: post /\
     list_remove_nth l n = Done (l', u) /\
     repr l' (take (Z.to_nat n) us ++ post) (u :: es) /\ len l' = len l).
Proof.
  intros Hr Hne Hn.
  assert (exists u0, rd (array l) (first_used l) = Done u0 /\ u0 <> LIST_END)
    as (u0 & Hu0 & Hne0).
  { pose proof (repr_used _ _ _ Hr) as Hc. destruct us; [contradiction|].
    inversion Hc; subst; eauto. }
  destruct (walk_nth_spec l (first_used l) us n Hn (repr_used _ _ _ Hr))
    as (p & Hw & Hp & Hq).
  destruct (drop (Z.to_nat n) us) as [|u post] eqn:Ed.
  - left. split; [reflexivity|]. inversion Hq as [? Hend|]; subst.
    unfold list_remove_nth. rewrite Hu0. cbn [bind].
    destruct (Z.eqb_spec u0 LIST_END); [contradiction|].
    rewrite Hw. cbn [bind]. rewrite Hend. reflexivity.
  - right.
    assert (us = take (Z.to_nat n) us ++ u :: post) as Eus.
    { rewrite <- Ed. symmetry. apply take_drop. }
    destruct (repr_to_empty l us es _ u post p Hr Eus Hp Hq) as (a' & Hm & Hr').
    exists u, post, (with_array l a'). split; [reflexivity|].
    split; [|split; [exact Hr'|reflexivity]].
    use_moved Hm. unfold list_remove_nth. exec. subst a'. reflexivity.
Qed.

Lemma list_remove_index_spec l us es index :
  repr l us es ->
  ((index ∉ us) /\ list_remove_index l index = Done (l, LIST_NOT_FOUND)) \/
  (exists pre post l', us = pre ++ index :: post /\
     list_remove_index l index = Done (l', index) /\
     repr l' (pre ++ post) (index :: es) /\ len l' = len l).
Proof.
  intros Hr.
  destruct (walk_to_index_spec l index (first_used l) us (repr_used _ _ _ Hr)
              (repr_budget_used _ _ _ Hr))
    as (p & pre & post & Hw & -> & Hni & Hp & Hq & [->|[post' ->]]).
  - left. split; [rewrite app_nil_r; assumption|].
    inversion Hq as [? Hend|]; subst.
    unfold list_remove_index. rewrite Hw. cbn [bind]. rewrite Hend. reflexivity.
  - right.
    destruct (repr_to_empty l _ es pre index post' p Hr eq_refl Hp Hq) as (a' & Hm & Hr').
    exists pre, post', (with_array l a'). split; [reflexivity|].
    split; [|split; [exact Hr'|reflexivity]].
    use_moved Hm. unfold list_remove_index. exec. subst a'. reflexivity.
Qed.


(** *** Construction *)

Lemma list_new_fill_spec cnt : forall i a,
  0 <= i -> i + Z.of_nat cnt <= Z.of_nat (length a) ->
  exists a', list_new_fill cnt i a = Done a' /\ length a' = length a /\
    (forall j, i <= j < i + Z.of_nat cnt -> rd a' j = Done (j + 1)) /\
    (forall j, ~ (i <= j < i + Z.of_nat cnt) -> rd a' j = rd a j).
Proof.
  induction cnt as [|cnt IH]; intros i a Hi Hlen.
  - exists a. simpl. split; [reflexivity|]. split; [reflexivity|].
    split; [intros; lia|reflexivity].
  - destruct (IH (i + 1) (upd a i (i + 1))) as (a' & Hf & Hl & Hin & Hout);
      [lia|rewrite length_upd; lia|].
    exists a'. simpl. rewrite wr_in_range by (unfold in_range; lia). simpl.
    rewrite length_upd in Hl. split; [assumption|]. split; [assumption|]. split.
    + intros j Hj. destruct (Z.eq_dec j i) as [->|Hne].
      * rewrite Hout by lia. apply rd_upd_eq. unfold in_range. lia.
      * apply Hin. lia.
    + intros j Hj. rewrite Hout by lia. apply rd_upd_ne; lia.
Qed.

Lemma chain_seqZ a n : forall (k : nat) j c,
  (forall i, 0 <= i < n - 1 -> rd a i = Done (i + 1)) ->
  rd a (n - 1) = Done LIST_END ->
  0 <= j -> j + Z.of_nat k = n -> rd a c = Done j -> (0 < k)%nat ->
  chain a c (seqZ j (Z.of_nat k)).
Proof.
  induction k as [|k IH]; intros j c Hlink Hlast Hj Hjk Hc Hk; [lia|].
  rewrite seqZ_cons by lia.
  apply chain_step; [assumption|unfold LIST_END; lia|].
  replace (Z.pred (Z.of_nat (S k))) with (Z.of_nat k) by lia.
  destruct k as [|k'].
  - simpl. apply chain_end. replace j with (n - 1) by lia. assumption.
  - apply IH; try assumption; try lia. rewrite Hlink by lia. f_equal.
Qed.

Lemma list_new_spec n :
  1 <= n ->
  exists l, list_new n = Done l /\ len l = n /\ repr l [] (seqZ 0 n).
Proof.
  intros Hn. unfold list_new.
  set (a0 := replicate (Z.to_nat (n + 2)) 0).
  assert (Z.of_nat (length a0) = n + 2) as Hl0.
  { unfold a0. rewrite length_replicate. lia. }
  destruct (list_new_fill_spec (Z.to_nat (n - 1)) 0 a0) as (a1 & Hf & Hl1 & Hin & Hout);
    [lia|lia|].
  rewrite Hf. cbn [bind].
  assert (in_range a1 (n - 1)) by (unfold in_range; lia).
  assert (in_range a1 n) by (unfold in_range; lia).
  assert (in_range a1 (n + 1)) by (unfold in_range; lia).
  repeat (rewrite wr_in_range by (rewrite ?in_range_upd; assumption); cbn [bind]).
  eexists. split; [reflexivity|]. split; [reflexivity|].
  set (a4 := upd _ (n + 1) 0).
  assert (Hlink : forall i, 0 <= i < n - 1 -> rd a4 i = Done (i + 1)).
  { intros i Hi. unfold a4. rewrite !rd_upd_ne by lia. apply Hin. lia. }
  assert (Hlast : rd a4 (n - 1) = Done LIST_END).
  { unfold a4. rewrite !rd_upd_ne by lia. apply rd_upd_eq. assumption. }
  split; simpl.
  - unfold a4. rewrite !length_upd. lia.
  - apply chain_end. unfold first_used, a4. simpl.
    rewrite rd_upd_ne by lia. apply rd_upd_eq. rewrite in_range_upd. assumption.
  - replace n with (Z.of_nat (Z.to_nat n)) at 2 by lia.
    apply chain_seqZ with (n := n); try assumption; try lia.
    unfold first_empty, a4. simpl. apply rd_upd_eq. rewrite !in_range_upd. assumption.
  - reflexivity.
Qed.

Lemma insert_first_times_spec es1 : forall l us es2,
  repr l us (es1 ++ es2) ->
  exists l', insert_first_times (length es1) l = Done (l', es1) /\
             repr l' (rev es1 ++ us) es2 /\ len l' = len l.
Proof.
  induction es1 as [|e es1 IH]; intros l us es2 Hr.
  - exists l. simpl. auto.
  - simpl in Hr. destruct (list_insert_first_spec _ _ _ _ Hr) as (l1 & H1 & Hr1 & Hl1).
    destruct (IH _ _ _ Hr1) as (l2 & H2 & Hr2 & Hl2).
    exists l2. simpl. rewrite H1. cbn [bind]. rewrite H2. cbn [bind].
    split; [reflexivity|]. split; [|congruence].
    rewrite <- app_assoc. exact Hr2.
Qed.

(** ** C6 *)

(** C6: a fresh index of capacity [N] hands out 0, 1, ..., N-1 on its first
    [N] calls of [list_insert_first], answers [LIST_ERR_FULL] to the next
    call, and its used list then reads N-1, ..., 1, 0 from the head. *)
Theorem acquire_front_sequence (N : Z) :
  1 <= N <= INT16_MAX ->
  exists l0 lN,
    list_new N = Done l0 /\
    insert_first_times (Z.to_nat N) l0 = Done (lN, seqZ 0 N) /\
    list_insert_first lN = Done (lN, LIST_ERR_FULL) /\
    used_indices lN = Done (rev (seqZ 0 N)).
Proof.
  intros [Hn _].
  destruct (list_new_spec N Hn) as (l0 & Hnew & Hlen & Hr0).
  rewrite <- (app_nil_r (seqZ 0 N)) in Hr0.
  destruct (insert_first_times_spec _ _ _ _ Hr0) as (lN & Hins & HrN & HlN).
  rewrite length_seqZ in Hins. rewrite app_nil_r in HrN.
  exists l0, lN. repeat split; try assumption.
  - eapply list_insert_first_full; eauto.
  - eapply repr_used_indices; eauto.
Qed.

Lemma acquire_front_sequence_4 :
  exists l0 lN,
    list_new 4 = Done l0 /\
    insert_first_times 4 l0 = Done (lN, [0; 1; 2; 3]) /\
    list_insert_first lN = Done (lN, LIST_ERR_FULL) /\
    used_indices lN = Done [3; 2; 1; 0].
Proof.
  exact (acquire_front_sequence 4 ltac:(unfold INT16_MAX; lia)).
Defined.


(** ** C7 *)

Lemma used_cursor_split l us es node :
  repr l us es -> used_cursor l node ->
  exists pre post, us = pre ++ post /\ path (array l) (first_used l) pre node /\
                   chain (array l) node post.
Proof.
  intros Hr (us' & Hu & Hin).
  rewrite (repr_used_indices _ _ _ Hr) in Hu. injection Hu as <-.
  apply chain_cursor; [apply Hr|]. apply elem_of_cons. assumption.
Qed.

Lemma repr_step (op : list_op) l us es :
  repr l us es -> op_pre op l ->
  exists l' r us' es',
    run_op op l = Done (l', r) /\ repr l' us' es' /\ len l' = len l.
Proof.
  intros Hr Hpre.
  assert (Hsame : forall r : Z, exists l' r' us' es',
            Done (l, r) = Done (l', r') /\ repr l' us' es' /\ len l' = len l).
  { intros r. exists l, r, us, es. auto. }
  destruct op as [|node| |n|index| |node| |n|index]; simpl in *.
  - destruct es as [|e es].
    + rewrite (list_insert_first_full _ _ Hr). apply Hsame.
    + destruct (list_insert_first_spec _ _ _ _ Hr) as (l' & H & Hr' & Hl). eauto 8.
  - destruct es as [|e es].
    + pose proof (list_insert_full _ _ (InsertNode node) Hr) as H; simpl in H; rewrite H. apply Hsame.
    + destruct (used_cursor_split _ _ _ _ Hr Hpre) as (pre & post & -> & Hp & Hq).
      destruct (list_insert_node_spec _ _ _ _ _ _ Hr Hp) as (l' & H & Hr' & Hl). eauto 8.
  - destruct es as [|e es].
    + pose proof (list_insert_full _ _ InsertLast Hr) as H; simpl in H; rewrite H. apply Hsame.
    + destruct (list_insert_last_spec _ _ _ _ Hr) as (l' & H & Hr' & Hl). eauto 8.
  - destruct es as [|e es].
    + pose proof (list_insert_full _ _ (InsertNth n) Hr) as H; simpl in H; rewrite H. apply Hsame.
    + destruct (list_insert_nth_spec _ _ _ _ n Hr Hpre) as (l' & H & Hr' & Hl). eauto 8.
  - destruct (list_insert_index_spec _ _ _ index Hr)
      as [[_ H]|(pre & post & l' & _ & H & Hr' & Hl)].
    + rewrite H. apply Hsame.
    + eauto 8.
  - destruct us as [|u us].
    + rewrite (list_remove_first_empty _ _ Hr). apply Hsame.
    + destruct (list_remove_first_spec _ _ _ _ Hr) as (l' & H & Hr' & Hl). eauto 8.
  - destruct Hpre as [Hcur Hne].
    destruct (used_cursor_split _ _ _ _ Hr Hcur) as (pre & post & -> & Hp & Hq).
    destruct post as [|u post].
    + inversion Hq; subst. contradiction.
    + destruct (list_remove_node_spec _ _ _ _ _ _ Hr Hp) as (l' & H & Hr' & Hl). eauto 8.
  - destruct us as [|z pre _] using rev_ind.
    + pose proof (list_remove_empty _ _ RemoveLast Hr) as H; simpl in H; rewrite H. apply Hsame.
    + destruct (list_remove_last_spec _ _ _ _ Hr) as (l' & H & Hr' & Hl). eauto 8.
  - destruct us as [|u us].
    + pose proof (list_remove_empty _ _ (RemoveNth n) Hr) as H; simpl in H; rewrite H. apply Hsame.
    + destruct (list_remove_nth_spec _ _ _ n Hr ltac:(discriminate) Hpre)
        as [[_ H]|(u' & post & l' & _ & H & Hr' & Hl)].
      * rewrite H. apply Hsame.
      * eauto 8.
  - destruct (list_remove_index_spec _ _ _ index Hr)
      as [[_ H]|(pre & post & l' & _ & H & Hr' & Hl)].
    + rewrite H. apply Hsame.
    + eauto 8.
Qed.

(** C7: every operation of the index keeps each of 0 .. N-1 in exactly one
    of the used and the empty list, so that their lengths add up to N, and
    works in the array it was given: the number of cells does not change. *)
Theorem partition_preserved (op : list_op) (l : t_list) :
  partition_inv l -> op_pre op l ->
  exists l' r us es,
    run_op op l = Done (l', r) /\
    partition_inv l' /\ len l' = len l /\
    length (array l') = length (array l) /\
    used_indices l' = Done us /\ empty_indices l' = Done es /\
    (forall i, 0 <= i < len l -> (i ∈ us /\ (i ∉ es)) \/ ((i ∉ us) /\ i ∈ es)) /\
    Z.of_nat (length us) + Z.of_nat (length es) = len l.
Proof.
  intros Hinv Hpre.
  destruct (partition_inv_repr _ Hinv) as (us0 & es0 & Hr).
  destruct (repr_step op l us0 es0 Hr Hpre) as (l' & r & us & es & Hrun & Hr' & Hlen).
  exists l', r, us, es.
  destruct (heads_fresh _ _ _ Hr') as (Hnd & _ & _ & _ & _ & _ & Hrange).
  pose proof (repr_perm _ _ _ Hr') as Hp.
  destruct (perm_seqZ_facts _ _ _ Hp) as (_ & _ & Hsum).
  split; [assumption|]. split; [eapply repr_partition_inv; eauto|].
  split; [assumption|]. split.
  { pose proof (repr_cells _ _ _ Hr). pose proof (repr_cells _ _ _ Hr'). lia. }
  split; [eapply repr_used_indices; eauto|].
  split; [eapply repr_empty_indices; eauto|]. split.
  - intros i Hi.
    assert (i ∈ us ++ es) as Hin.
    { rewrite Hp. apply elem_of_seqZ. lia. }
    apply NoDup_app in Hnd as (_ & Hdis & _).
    apply elem_of_app in Hin as [Hin|Hin].
    + left. split; [assumption|]. apply Hdis. assumption.
    + right. split; [|assumption]. intros Hu. apply (Hdis i Hu Hin).
  - assert (0 <= len l').
    { pose proof (repr_cells _ _ _ Hr'). destruct (Z.le_gt_cases 0 (len l')); [assumption|].
      exfalso. pose proof (repr_used _ _ _ Hr') as Hc.
      apply chain_rd in Hc as [v Hv]. apply rd_Done in Hv. unfold in_range, first_used in Hv. lia. }
    lia.
Qed.

Lemma partition_preserved_remove_index :
  exists l' r us es,
    run_op (RemoveIndex 1) {| len := 4; array := [-1; 0; 1; -1; 2; 3] |} = Done (l', r) /\
    partition_inv l' /\ len l' = 4 /\
    length (array l') = 6%nat /\
    used_indices l' = Done us /\ empty_indices l' = Done es /\
    (forall i, 0 <= i < 4 -> (i ∈ us /\ (i ∉ es)) \/ ((i ∉ us) /\ i ∈ es)) /\
    Z.of_nat (length us) + Z.of_nat (length es) = 4.
Proof.
  apply (partition_preserved (RemoveIndex 1) {| len := 4; array := [-1; 0; 1; -1; 2; 3] |}).
  - exists [2; 1; 0], [3]. split; [reflexivity|]. split; [reflexivity|].
    split; [|reflexivity]. cbn. apply (bool_decide_unpack _). vm_compute. exact I.
  - exact I.
Defined.


(** ** The renderer *)

Lemma wrap32_range n : INT32_MIN <= wrap32 n <= INT32_MAX.
Proof.
  unfold wrap32, wrap, INT32_MIN, INT32_MAX.
  pose proof (Z.mod_pos_bound (n + 2 ^ (32 - 1)) (2 ^ 32) ltac:(lia)). simpl in *. lia.
Qed.

Lemma while_loop_inv {St : Type} (Inv : St -> Prop) cond body fuel (s r : St) :
  (forall s s', Inv s -> cond s = Done true -> body s = Done s' -> Inv s') ->
  Inv s -> while_loop fuel cond body s = Done r ->
  Inv r /\ cond r = Done false.
Proof.
  intros Hstep. revert s. induction fuel as [|fuel IH]; intros s Hs H; simpl in H.
  - destruct (cond s) as [[]| |] eqn:Hc; simpl in H; try discriminate.
    injection H as <-. auto.
  - destruct (cond s) as [[]| |] eqn:Hc; simpl in H; try discriminate.
    + destruct (body s) as [s'| |] eqn:Hb; simpl in H; try discriminate.
      apply (IH s'); [|assumption]. eapply Hstep; eauto.
    + injection H as <-. auto.
Qed.

Section Resample.
Variable D : Z.

Let cond := fun '((R, _) : Z * Z) => Done (D <=? R).
Let body := fun '((R, Ix) : Z * Z) => Done (wrap32 (R - D), wrap32 (Ix + 1)).

Lemma resample_loop_stop fuel R Ix :
  R < D -> while_loop fuel cond body (R, Ix) = Done (R, Ix).
Proof.
  intros HR. destruct fuel; simpl; destruct (Z.leb_spec D R); try lia; reflexivity.
Qed.

Lemma resample_loop_exact (q : nat) : forall fuel R Ix,
  1 <= D -> 0 <= R <= INT32_MAX -> R / D = Z.of_nat q ->
  INT32_MIN <= Ix -> Ix + Z.of_nat q <= INT32_MAX -> (q <= fuel)%nat ->
  while_loop fuel cond body (R, Ix) = Done (R mod D, Ix + Z.of_nat q).
Proof.
  induction q as [|q IH]; intros fuel R Ix HD HR Hq HI HIq Hf.
  - assert (R < D).
    { destruct (Z.lt_ge_cases R D); [assumption|].
      assert (1 <= R / D) by (apply Z.div_le_lower_bound; lia). lia. }
    rewrite resample_loop_stop by assumption.
    rewrite Z.mod_small by lia. f_equal. f_equal. lia.
  - assert (D <= R).
    { destruct (Z.lt_ge_cases R D); [|assumption].
      rewrite Z.div_small in Hq by lia. lia. }
    destruct fuel as [|fuel]; [lia|]. simpl.
    destruct (Z.leb_spec D R); [|lia]. simpl.
    assert (R = (R - D) + 1 * D) as E by lia.
    assert ((R - D) / D = Z.of_nat q) as Hq'.
    { rewrite E in Hq. rewrite Z.div_add in Hq by lia. lia. }
    rewrite !wrap32_small by (unfold INT32_MIN, INT32_MAX in *; lia).
    rewrite IH; try lia.
    f_equal. f_equal; [|lia].
    rewrite E at 2. rewrite Z.mod_add by lia. reflexivity.
Qed.

(** The loop stops for every start when the step down is positive. *)
Lemma resample_loop_total (q : nat) : forall fuel R Ix,
  1 <= D -> R <= INT32_MAX -> R < D + Z.of_nat q * D -> (q <= fuel)%nat ->
  exists R' Ix', while_loop fuel cond body (R, Ix) = Done (R', Ix').
Proof.
  induction q as [|q IH]; intros fuel R Ix HD HR Hq Hf.
  - rewrite resample_loop_stop by lia. eauto.
  - destruct (Z.lt_ge_cases R D) as [Hlt|Hge].
    + rewrite resample_loop_stop by lia. eauto.
    + destruct fuel as [|fuel]; [lia|]. simpl.
      destruct (Z.leb_spec D R); [|lia]. simpl.
      rewrite (wrap32_small (R - D)) by (unfold INT32_MIN, INT32_MAX in *; lia).
      apply IH; lia.
Qed.


End Resample.

Lemma resample_total fuel step D R Ix :
  1 <= D -> (enough <= fuel)%nat ->
  exists R' Ix', resample fuel step D (R, Ix) = Done (R', Ix').
Proof.
  intros HD Hf. unfold resample. simpl.
  pose proof (wrap32_range (R + step)) as Hr.
  apply (resample_loop_total D enough); try lia.
  unfold enough. unfold INT32_MAX in *. nia.
Qed.

Lemma resample_exact fuel step D R Ix :
  1 <= D -> 0 <= R + step <= INT32_MAX ->
  INT32_MIN <= Ix -> Ix + (R + step) / D <= INT32_MAX -> (enough <= fuel)%nat ->
  resample fuel step D (R, Ix) = Done ((R + step) mod D, Ix + (R + step) / D).
Proof.
  intros HD HR HI HIq Hf. unfold resample. simpl.
  rewrite wrap32_small by (unfold INT32_MIN in *; lia).
  assert (0 <= (R + step) / D) by (apply Z.div_pos; lia).
  assert ((R + step) / D <= R + step) by (apply Z.div_le_upper_bound; nia).
  pose proof (resample_loop_exact D (Z.to_nat ((R + step) / D)) fuel (R + step) Ix) as E.
  rewrite Z2Nat.id in E by assumption. apply E; try lia.
  apply Nat.le_trans with enough; [|assumption].
  unfold enough. apply Z2Nat.inj_le; unfold INT32_MAX in *; lia.
Qed.


(** *** One sample of a grain *)

Lemma grain_advance_fields fuel env_n g g' :
  grain_advance fuel env_n g = Done g' ->
  Grain.out_len g' = Grain.out_len g /\ Grain.src_len g' = Grain.src_len g /\
  Grain.out_cntd g' = wrap32 (Grain.out_cntd g - 1) /\
  Grain.index g' = Grain.index g /\ Grain.out_begin g' = Grain.out_begin g /\
  Grain.src_begin g' = Grain.src_begin g /\ Grain.ampl g' = Grain.ampl g.
Proof.
  unfold grain_advance. intros Hg.
  apply bind_Done in Hg as ([sR sI] & _ & Hg).
  apply bind_Done in Hg as ([eR eI] & _ & Hg).
  injection Hg as <-. simpl. auto 10.
Qed.


(** Source and output of equal length: the index goes up by one and the
    remainder stays zero. *)
Lemma grain_advance_unit fuel env_n g L :
  2 <= L <= INT32_MAX -> Grain.out_len g = L -> Grain.src_len g = L ->
  0 <= Grain.src_I g < L -> Grain.src_R g = 0 -> (enough <= fuel)%nat ->
  exists g', grain_advance fuel env_n g = Done g' /\
    Grain.src_I g' = Grain.src_I g + 1 /\ Grain.src_R g' = 0.
Proof.
  intros HL Ho Hs HI HR Hf. unfold grain_advance. rewrite Ho, Hs, HR.
  rewrite (wrap32_small (L - 1)) by (unfold INT32_MIN, INT32_MAX in *; lia).
  assert (E : 0 + (L - 1) = 1 * (L - 1)) by lia.
  rewrite resample_exact; try assumption; try lia;
    try (rewrite E, Z.div_mul by lia; unfold INT32_MIN, INT32_MAX in *; lia).
  2: { unfold INT32_MIN; lia. }
  cbn [bind]. rewrite E, Z.div_mul, Z.mod_mul by lia.
  destruct (resample_total fuel (wrap32 (env_n - 1)) (L - 1)
              (Grain.env_R g) (Grain.env_I g)) as (eR & eI & He); [lia|assumption|].
  rewrite He. cbn [bind]. eexists. split; [reflexivity|]. simpl. auto.
Qed.

Lemma advance_times_unit (k : nat) : forall fuel env_n g L,
  2 <= L <= INT32_MAX -> Grain.out_len g = L -> Grain.src_len g = L ->
  0 <= Grain.src_I g -> Grain.src_I g + Z.of_nat k <= L -> Grain.src_R g = 0 ->
  (enough <= fuel)%nat ->
  exists g', advance_times k fuel env_n g = Done g' /\
    Grain.src_I g' = Grain.src_I g + Z.of_nat k /\ Grain.src_R g' = 0 /\
    Grain.out_len g' = L /\ Grain.src_len g' = L.
Proof.
  induction k as [|k IH]; intros fuel env_n g L HL Ho Hs HI Hk HR Hf.
  - exists g. simpl. repeat split; try assumption. lia.
  - destruct (grain_advance_unit fuel env_n g L) as (g1 & H1 & HI1 & HR1);
      try assumption; try lia.
    destruct (grain_advance_fields _ _ _ _ H1) as (Ho1 & Hs1 & _).
    destruct (IH fuel env_n g1 L) as (g' & H' & HI' & HR' & Ho' & Hs');
      try assumption; try lia; try congruence.
    exists g'. simpl. rewrite H1. cbn [bind].
    repeat split; try assumption. lia.
Qed.

(** ** C8 *)

(** X1: a grain whose source length equals its output length [L >= 2] has,
    after each of its samples, a source index one higher than before and a
    remainder of zero: after [k] samples the cursor is [(k, 0)], and the
    sample that follows takes it to [(k + 1, 0)]. *)
Theorem source_cursor_steps (seeder : t_seeder) (src_offset out_offset L env_n : Z)
    (k : nat) :
  2 <= L <= INT32_MAX ->
  Seeder.src_len seeder = L -> Seeder.out_len seeder = L -> Z.of_nat k < L ->
  exists fuel0, forall fuel, (fuel0 <= fuel)%nat ->
    exists g g',
      advance_times k fuel env_n (new_grain seeder src_offset out_offset) = Done g /\
      Grain.src_I g = Z.of_nat k /\ Grain.src_R g = 0 /\
      grain_advance fuel env_n g = Done g' /\
      Grain.src_I g' = Z.of_nat k + 1 /\ Grain.src_R g' = 0.
Proof.
  intros HL Hs Ho Hk. exists enough. intros fuel Hf.
  destruct (advance_times_unit k fuel env_n (new_grain seeder src_offset out_offset) L)
    as (g & Hg & HI & HR & Ho' & Hs'); simpl; try assumption; try lia.
  simpl in HI.
  destruct (grain_advance_unit fuel env_n g L) as (g' & Hg' & HI' & HR');
    try assumption; try lia.
  exists g, g'. repeat split; try assumption; lia.
Qed.

Lemma source_cursor_steps_example :
  exists fuel0, forall fuel, (fuel0 <= fuel)%nat ->
    exists g g',
      advance_times 2 fuel 1000 (new_grain Example.seeder_a 0 0) = Done g /\
      Grain.src_I g = 2 /\ Grain.src_R g = 0 /\
      grain_advance fuel 1000 g = Done g' /\
      Grain.src_I g' = 3 /\ Grain.src_R g' = 0.
Proof.
  exact (source_cursor_steps Example.seeder_a 0 0 4 1000 2
           ltac:(unfold INT32_MAX; lia) eq_refl eq_refl ltac:(lia)).
Defined.

(** *** The envelope cursor *)

(** After [k] samples the envelope cursor is the quotient and the remainder
    of [k * (env_n - 1)] by [L - 1]. *)
Lemma grain_advance_env fuel env_n g L k :
  2 <= L -> 1 <= env_n -> L + env_n <= INT32_MAX -> Grain.out_len g = L ->
  0 <= k < L - 1 ->
  Grain.env_I g = (k * (env_n - 1)) / (L - 1) ->
  Grain.env_R g = (k * (env_n - 1)) mod (L - 1) ->
  (enough <= fuel)%nat ->
  exists g', grain_advance fuel env_n g = Done g' /\
    Grain.env_I g' = ((k + 1) * (env_n - 1)) / (L - 1) /\
    Grain.env_R g' = ((k + 1) * (env_n - 1)) mod (L - 1).
Proof.
  intros HL Hn Hmax Ho Hk HI HR Hf. unfold grain_advance. rewrite Ho.
  rewrite (wrap32_small (L - 1)) by (unfold INT32_MIN, INT32_MAX in *; lia).
  rewrite (wrap32_small (env_n - 1)) by (unfold INT32_MIN, INT32_MAX in *; lia).
  destruct (resample_total fuel (wrap32 (Grain.src_len g - 1)) (L - 1)
              (Grain.src_R g) (Grain.src_I g)) as (sR & sI & Hs); [lia|assumption|].
  rewrite Hs. cbn [bind].
  set (D := L - 1) in *. set (a := k * (env_n - 1)) in *.
  assert (0 <= a) by (unfold a; nia).
  pose proof (Z.mod_pos_bound a D ltac:(lia)) as Hmod.
  pose proof (Z.div_mod a D ltac:(lia)) as Hdm.
  assert (Esum : (k + 1) * (env_n - 1) = (a / D) * D + (a mod D + (env_n - 1))).
  { unfold a in *. lia. }
  assert (0 <= a / D) by (apply Z.div_pos; lia).
  assert (0 <= (a mod D + (env_n - 1)) / D) by (apply Z.div_pos; lia).
  assert (Hq : ((k + 1) * (env_n - 1)) / D = a / D + (a mod D + (env_n - 1)) / D).
  { rewrite Esum. rewrite Z.div_add_l by lia. reflexivity. }
  assert (Hr : ((k + 1) * (env_n - 1)) mod D = (a mod D + (env_n - 1)) mod D).
  { rewrite Esum. rewrite Z.add_comm. rewrite Z.mod_add by lia. reflexivity. }
  assert (Hbound : ((k + 1) * (env_n - 1)) / D <= env_n - 1).
  { apply Z.div_le_upper_bound; [lia|]. unfold D. nia. }
  rewrite HR, HI.
  rewrite resample_exact; try assumption; try lia;
    try (unfold INT32_MIN, INT32_MAX in *; lia).
  cbn [bind]. eexists. split; [reflexivity|]. simpl. rewrite Hq, Hr. auto.
Qed.

Lemma advance_times_env (j : nat) : forall fuel env_n g L k,
  2 <= L -> 1 <= env_n -> L + env_n <= INT32_MAX -> Grain.out_len g = L ->
  0 <= k -> k + Z.of_nat j <= L - 1 ->
  INT32_MIN + Z.of_nat j <= Grain.out_cntd g <= INT32_MAX ->
  Grain.env_I g = (k * (env_n - 1)) / (L - 1) ->
  Grain.env_R g = (k * (env_n - 1)) mod (L - 1) ->
  (enough <= fuel)%nat ->
  exists g', advance_times j fuel env_n g = Done g' /\
    Grain.env_I g' = ((k + Z.of_nat j) * (env_n - 1)) / (L - 1) /\
    Grain.env_R g' = ((k + Z.of_nat j) * (env_n - 1)) mod (L - 1) /\
    Grain.out_cntd g' = Grain.out_cntd g - Z.of_nat j.
Proof.
  induction j as [|j IH]; intros fuel env_n g L k HL Hn Hmax Ho Hk Hkj Hc HI HR Hf.
  - exists g. simpl. rewrite Z.add_0_r, Z.sub_0_r. auto.
  - destruct (grain_advance_env fuel env_n g L k) as (g1 & H1 & HI1 & HR1);
      try assumption; try lia.
    destruct (grain_advance_fields _ _ _ _ H1) as (Ho1 & _ & Hc1 & _).
    rewrite wrap32_small in Hc1 by (unfold INT32_MIN, INT32_MAX in *; lia).
    destruct (IH fuel env_n g1 L (k + 1)) as (g' & H' & HI' & HR' & Hc');
      try assumption; try congruence; try (unfold INT32_MIN, INT32_MAX in *; lia).
    exists g'. simpl. rewrite H1. cbn [bind].
    replace (k + Z.of_nat (S j)) with (k + 1 + Z.of_nat j) by lia.
    repeat split; try assumption. lia.
Qed.

(** ** C10 *)

(** X2: when a grain of [L >= 2] samples comes to its
    last sample, its envelope index is the last of the table (999), so the
    neighbour it reads for the interpolation, [env_values[env_I + 1]], is
    one past the end: the checked lookup faults there. *)
Theorem envelope_neighbour_past_end (seeder : t_seeder) (src_offset out_offset L : Z) :
  2 <= L -> L + ENV_N_SMP <= INT32_MAX ->
  Seeder.out_len seeder = L ->
  Z.of_nat (length (Seeder.env_values seeder)) = ENV_N_SMP ->
  exists fuel0, forall fuel, (fuel0 <= fuel)%nat ->
    exists g,
      advance_times (Z.to_nat (L - 1)) fuel ENV_N_SMP
        (new_grain seeder src_offset out_offset) = Done g /\
      Grain.out_cntd g = 1 /\
      Grain.env_I g = ENV_N_SMP - 1 /\ Grain.env_R g = 0 /\
      rd (Seeder.env_values seeder) (Grain.env_I g) <> Fault /\
      rd (Seeder.env_values seeder) (wrap32 (Grain.env_I g + 1)) = Fault.
Proof.
  intros HL Hmax Ho Hlen. exists enough. intros fuel Hf.
  destruct (advance_times_env (Z.to_nat (L - 1)) fuel ENV_N_SMP
              (new_grain seeder src_offset out_offset) L 0)
    as (g & Hg & HI & HR & Hc); simpl; try assumption; try lia;
    try (unfold ENV_N_SMP, INT32_MIN, INT32_MAX in *; lia).
  { rewrite Z.div_0_l; lia. }
  { rewrite Z.mod_0_l; lia. }
  exists g.
  assert (E : (0 + Z.of_nat (Z.to_nat (L - 1))) * (ENV_N_SMP - 1)
              = (ENV_N_SMP - 1) * (L - 1)) by lia.
  rewrite E in HI, HR.
  rewrite Z.div_mul in HI by lia. rewrite Z.mod_mul in HR by lia.
  split; [assumption|]. split; [simpl in Hc; lia|]. split; [assumption|].
  split; [assumption|]. rewrite HI. split.
  - destruct (rd_in_range (Seeder.env_values seeder) (ENV_N_SMP - 1)) as [v Hv].
    { unfold in_range. unfold ENV_N_SMP in *. lia. }
    rewrite Hv. discriminate.
  - rewrite wrap32_small by (unfold ENV_N_SMP, INT32_MIN, INT32_MAX; lia).
    unfold rd. replace (ENV_N_SMP - 1 + 1) with ENV_N_SMP by lia.
    destruct (0 <=? ENV_N_SMP); [|reflexivity].
    rewrite lookup_ge_None_2; [reflexivity|]. lia.
Qed.

Lemma envelope_neighbour_past_end_example :
  exists fuel0, forall fuel, (fuel0 <= fuel)%nat ->
    exists g,
      advance_times 3 fuel ENV_N_SMP (new_grain Example.seeder_a 0 0) = Done g /\
      Grain.out_cntd g = 1 /\
      Grain.env_I g = ENV_N_SMP - 1 /\ Grain.env_R g = 0 /\
      rd (Seeder.env_values Example.seeder_a) (Grain.env_I g) <> Fault /\
      rd (Seeder.env_values Example.seeder_a) (wrap32 (Grain.env_I g + 1)) = Fault.
Proof.
  exact (envelope_neighbour_past_end Example.seeder_a 0 0 4
           ltac:(lia) ltac:(unfold ENV_N_SMP, INT32_MAX; lia) eq_refl eq_refl).
Defined.

(** ** C5 *)





(** ** The grain pool *)

Lemma pool_wf_repr x :
  pool_wf x ->
  exists us es, repr (grains_list x) us es /\ grains_cnt x = Z.of_nat (length us).
Proof.
  intros (us & es & Hu & He & Hp & Hl & Ha & _ & Hc & _).
  exists us, es. split; [|assumption].
  split; try (eapply indices_from_chain; eassumption); rewrite Hl; assumption.
Qed.

Lemma read_all_ext {A : Type} (a a' : list A) slots :
  (forall i, i ∈ slots -> rd a' i = rd a i) -> read_all a' slots = read_all a slots.
Proof.
  induction slots as [|i slots IH]; intros Hext; simpl; [reflexivity|].
  rewrite Hext by left. rewrite IH; [reflexivity|].
  intros j Hj. apply Hext. right. assumption.
Qed.

Lemma read_all_total {A : Type} (a : list A) slots :
  (forall i, i ∈ slots -> in_range a i) -> exists vs, read_all a slots = Done vs.
Proof.
  induction slots as [|i slots IH]; intros Hr; simpl; [eauto|].
  destruct (rd_in_range a i) as [v Hv]; [apply Hr; left|]. rewrite Hv. cbn [bind].
  destruct IH as [vs Hvs]; [intros j Hj; apply Hr; right; assumption|].
  rewrite Hvs. cbn [bind]. eauto.
Qed.

Lemma pool_grains_total x : pool_wf x -> exists gs, pool_grains x = Done gs.
Proof.
  intros (us & es & Hu & He & Hp & Hl & Ha & Hg & Hc & _).
  unfold pool_grains. rewrite Hu. cbn [bind]. apply read_all_total.
  intros i Hi. destruct (perm_seqZ_facts _ _ _ Hp) as (_ & Hr & _).
  specialize (Hr i ltac:(apply elem_of_app; left; assumption)).
  unfold in_range. lia.
Qed.

(** A spawn on a full pool changes nothing at all. *)
Lemma add_grain_fs_full x seeder src_offset out_offset :
  grains_cnt x = grains_max x ->
  granular_add_grain_fs x seeder src_offset out_offset = Done x.
Proof. intros E. unfold granular_add_grain_fs. rewrite E, Z.eqb_refl. reflexivity. Qed.

(** Whatever a spawn does, it leaves everything but the pool alone. *)
Lemma add_grain_fs_frame x seeder src_offset out_offset x' :
  granular_add_grain_fs x seeder src_offset out_offset = Done x' ->
  seeders_arr x' = seeders_arr x /\ msamplerate x' = msamplerate x /\
  grains_max x' = grains_max x /\ seeders_list x' = seeders_list x /\
  env_n_frm x' = env_n_frm x /\ master x' = master x.
Proof.
  unfold granular_add_grain_fs. destruct (grains_cnt x =? grains_max x).
  - intros [= <-]. auto 10.
  - intros Hb. apply bind_Done in Hb as ([l slot] & _ & Hb).
    apply bind_Done in Hb as (arr & _ & Hb). injection Hb as <-. simpl. auto 10.
Qed.

(** A spawn on a pool with room puts the new grain in front of the others. *)
Lemma add_grain_fs_room x seeder src_offset out_offset old :
  pool_wf x -> grains_cnt x < grains_max x -> pool_grains x = Done old ->
  exists x',
    granular_add_grain_fs x seeder src_offset out_offset = Done x' /\
    pool_wf x' /\ grains_cnt x' = grains_cnt x + 1 /\
    pool_grains x' = Done (new_grain seeder src_offset out_offset :: old).
Proof.
  intros Hwf Hroom Hold.
  destruct (pool_wf_repr _ Hwf) as (us & es & Hr & Hcnt).
  destruct Hwf as (us_ & es_ & Hu_ & He_ & Hp & Hl & Ha & Hg & Hc_ & Hmax).
  rewrite (repr_used_indices _ _ _ Hr) in Hu_. injection Hu_ as <-.
  rewrite (repr_empty_indices _ _ _ Hr) in He_. injection He_ as <-.
  destruct (perm_seqZ_facts _ _ _ Hp) as (Hnd & Hrange & Hsum).
  destruct es as [|e es].
  { simpl in Hsum. lia. }
  destruct (list_insert_first_spec _ _ _ _ Hr) as (l' & Hins & Hr' & Hl').
  assert (0 <= e < grains_max x) as He.
  { apply Hrange. apply elem_of_app. right. left. }
  unfold granular_add_grain_fs.
  destruct (Z.eqb_spec (grains_cnt x) (grains_max x)); [lia|].
  rewrite Hins. cbn [bind]. rewrite wr_in_range by (unfold in_range; lia). cbn [bind].
  eexists. split; [reflexivity|].
  assert (e ∉ us) as Hfresh.
  { apply NoDup_app in Hnd as (_ & Hdis & _). intros Hin.
    apply (Hdis e Hin). left. }
  split; [|split].
  - exists (e :: us), es. simpl.
    rewrite (repr_used_indices _ _ _ Hr'), (repr_empty_indices _ _ _ Hr').
    repeat split; try assumption; try lia.
    + rewrite <- Hp. solve_Permutation.
    + pose proof (repr_cells _ _ _ Hr'). lia.
    + rewrite length_upd. assumption.
    + rewrite wrap16_small by (unfold INT16_MAX in *; lia). rewrite Hcnt.
      simpl length. lia.
  - simpl. apply wrap16_small. unfold INT16_MAX in *. lia.
  - unfold pool_grains in *. simpl.
    rewrite (repr_used_indices _ _ _ Hr'). cbn [bind]. simpl.
    rewrite rd_upd_eq by (unfold in_range; lia). cbn [bind].
    rewrite (repr_used_indices _ _ _ Hr) in Hold. cbn [bind] in Hold.
    rewrite (read_all_ext (grains_arr x)).
    + rewrite Hold. reflexivity.
    + intros i Hi. apply rd_upd_ne; [lia|]. intros ->. contradiction.
Qed.

(** ** A spawn on a full pool *)

(** X4: on a full pool a spawn leaves the pool and its counter as they are,
    and the turn of the main stream's loop that made it moves the seeder's
    countdown and source window to exactly where the same turn takes them
    when the spawn succeeds, in a pool with room. *)
Theorem full_pool_spawn_dropped `{Host} (x : t_granular) (index : Z) (calls : nat)
    (seeder : t_seeder) (c0 : Z) :
  grains_cnt x = grains_max x ->
  rd (seeders_arr x) index = Done seeder ->
  rd (Seeder.period_cntd seeder) 0 = Done c0 ->
  (forall src_offset out_offset,
     granular_add_grain_fs x seeder src_offset out_offset = Done x) /\
  exists x',
    main_stream_body index (x, calls) = Done (x', S calls) /\
    grains_cnt x' = grains_cnt x /\ grains_arr x' = grains_arr x /\
    grains_list x' = grains_list x /\
    forall y old,
      seeders_arr y = seeders_arr x -> msamplerate y = msamplerate x ->
      pool_wf y -> grains_cnt y < grains_max y -> pool_grains y = Done old ->
      exists y',
        main_stream_body index (y, calls) = Done (y', S calls) /\
        pool_grains y' = Done (new_grain seeder 0 c0 :: old) /\
        grains_cnt y' = grains_cnt y + 1 /\
        seeders_arr y' = seeders_arr x'.
Proof.
  intros Hfull Hs Hc. split; [intros; apply add_grain_fs_full; assumption|].
  unfold main_stream_body at 1. rewrite Hs. cbn [bind]. rewrite Hc. cbn [bind].
  rewrite add_grain_fs_full by assumption. cbn [bind].
  pose proof (rd_Done _ _ _ Hs) as Hi. pose proof (rd_Done _ _ _ Hc) as Hi0.
  unfold main_stream_advance. rewrite wr_in_range by assumption. cbn [bind].
  rewrite wr_in_range by assumption. cbn [bind].
  eexists. split; [reflexivity|]. simpl. repeat split.
  intros y old Hsy Hmy Hwf Hroom Hold.
  destruct (add_grain_fs_room y seeder 0 c0 old Hwf Hroom Hold)
    as (y1 & Hadd & Hwf1 & Hcnt1 & Hpool1).
  destruct (add_grain_fs_frame _ _ _ _ _ Hadd) as (Hs1 & Hm1 & _).
  unfold main_stream_body. rewrite Hsy, Hs. cbn [bind]. rewrite Hc. cbn [bind].
  rewrite Hadd. cbn [bind]. unfold main_stream_advance.
  rewrite wr_in_range by assumption. cbn [bind].
  rewrite Hs1, Hsy. rewrite wr_in_range by assumption. cbn [bind].
  eexists. split; [reflexivity|]. simpl.
  split; [|split; [assumption|]].
  - unfold pool_grains in *. simpl. exact Hpool1.
  - rewrite Hm1, Hmy. reflexivity.
Qed.

Lemma full_pool_spawn_dropped_example :
  (forall src_offset out_offset,
     granular_add_grain_fs Example.object_full Example.seeder_a src_offset out_offset
     = Done Example.object_full) /\
  exists x',
    main_stream_body (H := Example.quiet_host) 0 (Example.object_full, 0%nat)
    = Done (x', 1%nat) /\
    grains_cnt x' = grains_cnt Example.object_full /\
    grains_arr x' = grains_arr Example.object_full /\
    grains_list x' = grains_list Example.object_full /\
    forall y old,
      seeders_arr y = seeders_arr Example.object_full ->
      msamplerate y = msamplerate Example.object_full ->
      pool_wf y -> grains_cnt y < grains_max y -> pool_grains y = Done old ->
      exists y',
        main_stream_body (H := Example.quiet_host) 0 (y, 0%nat) = Done (y', 1%nat) /\
        pool_grains y' = Done (new_grain Example.seeder_a 0 0 :: old) /\
        grains_cnt y' = grains_cnt y + 1 /\
        seeders_arr y' = seeders_arr x'.
Proof.
  exact (full_pool_spawn_dropped (H := Example.quiet_host) Example.object_full 0 0
           Example.seeder_a 0 eq_refl eq_refl eq_refl).
Defined.


(** ** Binary64 facts the scheduler needs *)

Lemma digits2_iter_xO p k :
  Z.pos (digits2_pos (Pos.iter xO p k)) = Z.pos (digits2_pos p) + Z.pos k.
Proof.
  induction k as [|k IH] using Pos.peano_ind.
  - simpl. lia.
  - rewrite Pos.iter_succ. simpl digits2_pos. lia.
Qed.

Lemma Zpos_iter_xO p k : Z.pos (Pos.iter xO p k) = Z.pos p * 2 ^ Z.pos k.
Proof.
  induction k as [|k IH] using Pos.peano_ind.
  - simpl. lia.
  - rewrite Pos.iter_succ. rewrite Pos2Z.inj_xO, IH.
    rewrite Pos2Z.inj_succ, Z.pow_succ_r by lia. lia.
Qed.

Lemma digits2_bound p : forall n, 0 <= n -> Z.pos p < 2 ^ n -> Z.pos (digits2_pos p) <= n.
Proof.
  induction p as [p IH|p IH|]; intros n Hn Hp.
  - assert (1 <= n).
    { destruct (Z.eq_dec n 0) as [->|]; [simpl in Hp; lia|lia]. }
    replace n with (Z.succ (n - 1)) in Hp by lia. rewrite Z.pow_succ_r in Hp by lia.
    specialize (IH (n - 1) ltac:(lia) ltac:(lia)). simpl digits2_pos. lia.
  - assert (1 <= n).
    { destruct (Z.eq_dec n 0) as [->|]; [simpl in Hp; lia|lia]. }
    replace n with (Z.succ (n - 1)) in Hp by lia. rewrite Z.pow_succ_r in Hp by lia.
    specialize (IH (n - 1) ltac:(lia) ltac:(lia)). simpl digits2_pos. lia.
  - assert (1 <= n).
    { destruct (Z.eq_dec n 0) as [->|]; [simpl in Hp; lia|lia]. }
    simpl. lia.
Qed.

(** A 53-bit mantissa with an exponent in range is already rounded. *)
Lemma binary_round_aux_canonical s m e :
  Z.pos (digits2_pos m) = 53 -> -1074 <= e <= 971 ->
  binary_round_aux prec emax s (Z.pos m) e loc_Exact = S754_finite s m e.
Proof.
  intros Hd He. unfold binary_round_aux, shr_fexp, fexp, emin, prec, emax.
  simpl Zdigits2. rewrite Hd.
  replace (Z.max (53 + e - 53) (3 - 1024 - 53) - e) with 0 by lia.
  simpl. rewrite Hd.
  replace (Z.max (53 + e - 53) (3 - 1024 - 53) - e) with 0 by lia.
  simpl. destruct (Z.leb_spec e (1024 - 53)); [reflexivity|lia].
Qed.

Lemma shr_52 m :
  SpecFloat.iter_pos shr_1 52
    {| shr_m := Z.pos (Pos.iter xO m 52); shr_r := false; shr_s := false |}
  = {| shr_m := Z.pos m; shr_r := false; shr_s := false |}.
Proof. reflexivity. Qed.

(** The product of a normal number by one is the number itself. *)
Lemma SF64mul_one s m e :
  Z.pos (digits2_pos m) = 53 -> -1022 <= e <= 971 ->
  SF64mul (S754_finite s m e) (Prim2SF 1) = S754_finite s m e.
Proof.
  intros Hd He. change (Prim2SF 1) with (S754_finite false 4503599627370496 (-52)).
  unfold SF64mul, SFmul. rewrite xorb_false_r.
  rewrite Pos.mul_comm.
  change (4503599627370496 * m)%positive with (Pos.iter xO m 52).
  unfold binary_round_aux, shr_fexp, fexp, emin, prec, emax.
  unfold Zdigits2 at 1. rewrite digits2_iter_xO, Hd.
  replace (Z.max (53 + 52 + (e + -52) - 53) (3 - 1024 - 53) - (e + -52)) with 52 by lia.
  unfold shr at 1.
  change (shr_record_of_loc (Z.pos (Pos.iter xO m 52)) loc_Exact)
    with {| shr_m := Z.pos (Pos.iter xO m 52); shr_r := false; shr_s := false |}.
  rewrite !shr_52.
  cbv beta iota. cbn [shr_m loc_of_shr_record round_nearest_even].
  unfold Zdigits2. rewrite Hd.
  replace (Z.max (53 + (e + -52 + 52) - 53) (3 - 1024 - 53) - (e + -52 + 52)) with 0 by lia.
  unfold shr, shr_record_of_loc, shr_m.
  replace (e + -52 + 52) with e by lia.
  destruct (Z.leb_spec e (1024 - 53)); [reflexivity|lia].
Qed.

(** An integer of less than 32 bits is a binary64 number. *)
Lemma Prim2SF_of_int p :
  Z.pos p <= INT32_MAX ->
  exists m e,
    Prim2SF (of_int (Z.pos p)) = S754_finite false m e /\
    Z.pos (digits2_pos m) = 53 /\ -52 <= e < 0 /\ Z.pos m = Z.pos p * 2 ^ (- e).
Proof.
  intros Hp.
  change (of_int (Z.pos p)) with (of_uint63 (Uint63.of_Z (Z.pos p))).
  rewrite FloatAxioms.of_uint63_spec.
  rewrite Uint63.of_Z_spec, Z.mod_small
    by (unfold INT32_MAX in Hp; change wB with 9223372036854775808; lia).
  unfold binary_normalize, binary_round.
  assert (Hd : Z.pos (digits2_pos p) <= 31).
  { apply digits2_bound; [lia|]. unfold INT32_MAX in Hp. simpl. lia. }
  unfold fexp at 1, emin, prec, emax.
  replace (Z.max (Z.pos (digits2_pos p) + 0 - 53) (3 - 1024 - 53))
    with (Z.pos (digits2_pos p) - 53) by lia.
  unfold shl_align.
  destruct (Z.pos (digits2_pos p) - 53 - 0) as [|k|k] eqn:Ek; try lia.
  exists (Pos.iter xO p k), (Z.pos (digits2_pos p) - 53).
  assert (Z.pos (digits2_pos (Pos.iter xO p k)) = 53) as Hd53.
  { rewrite digits2_iter_xO. lia. }
  split; [|split; [assumption|split; [lia|]]].
  - apply binary_round_aux_canonical; [assumption|lia].
  - rewrite Zpos_iter_xO. f_equal. f_equal. lia.
Qed.

Lemma trunc_int32_of_int P :
  0 <= P <= INT32_MAX -> trunc_int32 (of_int P) = P.
Proof.
  intros HP. destruct P as [|p|p]; [reflexivity| |lia].
  destruct (Prim2SF_of_int p) as (m & e & Hm & Hd & He & Hv); [lia|].
  unfold trunc_int32. rewrite Hm.
  destruct (Z.leb_spec 0 e); [lia|].
  rewrite Hv, Z.div_mul by (apply Z.pow_nonzero; lia).
  unfold INT32_MIN, INT32_MAX in *.
  destruct (Z.leb_spec (-2147483648) (Z.pos p)); [|lia].
  destruct (Z.leb_spec (Z.pos p) 2147483647); [reflexivity|lia].
Qed.

Lemma Prim2SF_zero_of_eqb x :
  (x =? 0)%float = true -> exists b, Prim2SF x = S754_zero b.
Proof.
  rewrite FloatAxioms.eqb_spec. change (Prim2SF 0) with (S754_zero false).
  destruct (Prim2SF x) as [b|b| |b m e]; simpl; try discriminate; eauto;
    destruct b; discriminate.
Qed.

Lemma Prim2SF_inj x y : Prim2SF x = Prim2SF y -> x = y.
Proof.
  intros E. rewrite <- (SF2Prim_Prim2SF x), <- (SF2Prim_Prim2SF y), E. reflexivity.
Qed.

(** With a randomization of zero the factor of the period is one. *)
Lemma period_factor_one prand u :
  (prand =? 0)%float = true -> finite u = true -> (1 + prand * u)%float = 1%float.
Proof.
  intros Hz Hu. apply Prim2SF_inj. rewrite FloatAxioms.add_spec, FloatAxioms.mul_spec.
  destruct (Prim2SF_zero_of_eqb _ Hz) as [b ->].
  unfold finite in Hu.
  change (Prim2SF 1) with (S754_finite false 4503599627370496 (-52)).
  destruct (Prim2SF u) as [c|c| |c m e]; try discriminate; reflexivity.
Qed.

Lemma trunc_int32_times_one P :
  0 <= P <= INT32_MAX -> trunc_int32 (of_int P * 1)%float = P.
Proof.
  intros HP. destruct P as [|p|p]; [reflexivity| |lia].
  destruct (Prim2SF_of_int p) as (m & e & Hm & Hd & He & Hv); [lia|].
  pose proof (trunc_int32_of_int (Z.pos p) HP) as Ht.
  unfold trunc_int32 in *. rewrite FloatAxioms.mul_spec, Hm, SF64mul_one by (assumption || lia).
  rewrite Hm in Ht. exact Ht.
Qed.


(** ** The scheduler *)

Section Scheduler.
Context `{Host}.

Lemma next_period_fixed seeder r :
  (Seeder.period_rand seeder =? 0)%float = true -> finite (unit_draw r) = true ->
  0 <= Seeder.period_len seeder <= INT32_MAX ->
  next_period seeder r = Seeder.period_len seeder.
Proof.
  intros Hz Hu HP. unfold next_period.
  rewrite period_factor_one by assumption. apply trunc_int32_times_one. assumption.
Qed.

(** One turn of the main stream with a fixed period [P]: the countdown goes
    up by [P], and only the countdown and the beginning of the window change. *)
Lemma main_stream_advance_fixed msr seeder c r P :
  (Seeder.period_rand seeder =? 0)%float = true -> finite (unit_draw r) = true ->
  Seeder.period_len seeder = P -> 0 <= P <= INT32_MAX ->
  in_range (Seeder.period_cntd seeder) 0 ->
  INT32_MIN <= c -> c + P <= INT32_MAX ->
  exists b,
    main_stream_advance msr seeder c r =
    Done (Seeder.set_src_begin b
            (Seeder.set_period_cntd (upd (Seeder.period_cntd seeder) 0 (c + P)) seeder)).
Proof.
  intros Hz Hu HP HPr Hin Hc HcP. unfold main_stream_advance.
  rewrite next_period_fixed by (assumption || lia). rewrite HP.
  rewrite wr_in_range by assumption. cbn [bind].
  rewrite (wrap32_small (c + P)) by (unfold INT32_MIN, INT32_MAX in *; lia).
  repeat match goal with |- context [if ?b then _ else _] => destruct b end;
    eexists; reflexivity.
Qed.

Lemma offsets_lookup (k : nat) : forall c P (i : nat) v,
  offsets k c P !! i = Some v -> v = c + Z.of_nat i * P.
Proof.
  induction k as [|k IH]; intros c P i v Hv; simpl in Hv; [discriminate|].
  destruct i as [|i]; simpl in Hv.
  - injection Hv as <-. lia.
  - apply IH in Hv. lia.
Qed.

Lemma length_offsets k c P : length (offsets k c P) = k.
Proof. revert c. induction k as [|k IH]; intros c; simpl; [reflexivity|]. rewrite IH. reflexivity. Qed.

Lemma main_stream_run index frames P (k : nat) : forall fuel x calls c seeder old,
  1 <= P <= INT32_MAX -> pool_wf x ->
  rd (seeders_arr x) index = Done seeder ->
  (Seeder.period_rand seeder =? 0)%float = true -> Seeder.period_len seeder = P ->
  rd (Seeder.period_cntd seeder) 0 = Done c ->
  INT32_MIN <= c -> c + Z.of_nat k * P <= INT32_MAX ->
  frames <= c + Z.of_nat k * P -> (forall j, 0 <= j < Z.of_nat k -> c + j * P < frames) ->
  (forall i, (calls <= i < calls + k)%nat -> finite (unit_draw (rand i)) = true) ->
  grains_cnt x + Z.of_nat k <= grains_max x -> pool_grains x = Done old ->
  (k <= fuel)%nat ->
  exists x' seeder' new,
    main_stream fuel index frames (x, calls) = Done (x', (calls + k)%nat) /\
    pool_wf x' /\ grains_cnt x' = grains_cnt x + Z.of_nat k /\
    pool_grains x' = Done (rev new ++ old) /\
    map Grain.out_begin new = offsets k c P /\
    rd (seeders_arr x') index = Done seeder' /\
    rd (Seeder.period_cntd seeder') 0 = Done (c + Z.of_nat k * P) /\
    Seeder.is_on seeder' = Seeder.is_on seeder /\
    Seeder.poly_cnt seeder' = Seeder.poly_cnt seeder.
Proof.
  induction k as [|k IH];
    intros fuel x calls c seeder old HP Hwf Hs Hz Hlen Hc Hcmin Hcmax Hstop Hgo Hfin
      Hroom Hold Hfuel.
  - exists x, seeder, [].
    replace (c + Z.of_nat 0 * P) with c in * by lia.
    rewrite Nat.add_0_r. change (Z.of_nat 0) with 0. rewrite Z.add_0_r.
    split; [|repeat split; assumption || reflexivity].
    unfold main_stream. destruct fuel; simpl; rewrite Hs; cbn [bind]; rewrite Hc;
      cbn [bind]; destruct (Z.ltb_spec c frames); try lia; reflexivity.
  - destruct fuel as [|fuel]; [lia|].
    assert (c < frames) as Hlt by (specialize (Hgo 0); lia).
    destruct (add_grain_fs_room x seeder 0 c old Hwf ltac:(lia) Hold)
      as (x1 & Hadd & Hwf1 & Hcnt1 & Hpool1).
    destruct (add_grain_fs_frame _ _ _ _ _ Hadd) as (Hs1 & Hm1 & Hmax1 & _).
    pose proof (rd_Done _ _ _ Hs) as Hin.
    pose proof (rd_Done _ _ _ Hc) as Hin0.
    assert (finite (unit_draw (rand calls)) = true) as Hfin0 by (apply Hfin; lia).
    destruct (main_stream_advance_fixed (msamplerate x1) seeder c (rand calls) P
                Hz Hfin0 Hlen ltac:(lia) Hin0 Hcmin ltac:(lia)) as (b & Hadv).
    set (seeder1 := Seeder.set_src_begin b
            (Seeder.set_period_cntd (upd (Seeder.period_cntd seeder) 0 (c + P)) seeder)) in *.
    set (x2 := set_seeders_arr (upd (seeders_arr x1) index seeder1) x1).
    assert (rd (seeders_arr x2) index = Done seeder1) as Hs2
      by (unfold x2; simpl; apply rd_upd_eq; rewrite Hs1; assumption).
    assert (rd (Seeder.period_cntd seeder1) 0 = Done (c + P)) as Hc2
      by (unfold seeder1; simpl; apply rd_upd_eq; assumption).
    assert (forall j, 0 <= j < Z.of_nat k -> c + P + j * P < frames) as Hgo2
      by (intros j Hj; specialize (Hgo (j + 1)); lia).
    assert (forall i, (S calls <= i < S calls + k)%nat -> finite (unit_draw (rand i)) = true)
      as Hfin2 by (intros i Hi; apply Hfin; lia).
    destruct (IH fuel x2 (S calls) (c + P) seeder1 (new_grain seeder 0 c :: old)
                HP Hwf1 Hs2 Hz Hlen Hc2 ltac:(lia) ltac:(lia) ltac:(lia) Hgo2 Hfin2
                ltac:(unfold x2; simpl; lia) Hpool1 ltac:(lia))
      as (x' & seeder' & new & Hrun & Hwf' & Hcnt' & Hpool' & Hoffs & Hs' & Hc' & Hon & Hpoly).
    exists x', seeder', (new_grain seeder 0 c :: new).
    split; [|split; [assumption|split; [unfold x2 in Hcnt'; simpl in Hcnt'; lia|]]].
    + unfold main_stream in *. simpl. rewrite Hs. cbn [bind]. rewrite Hc. cbn [bind].
      destruct (Z.ltb_spec c frames); [|lia].
      rewrite Hadd. cbn [bind]. rewrite Hadv. cbn [bind].
      rewrite wr_in_range by (rewrite Hs1; assumption). cbn [bind].
      fold seeder1. fold x2. rewrite Hrun. f_equal. f_equal. lia.
    + split; [simpl; rewrite <- app_assoc; exact Hpool'|].
      split; [simpl; rewrite Hoffs; reflexivity|].
      split; [exact Hs'|].
      split; [rewrite Hc'; f_equal; lia|].
      split; [rewrite Hon; reflexivity|rewrite Hpoly; reflexivity].
Qed.

(** The number of turns of the loop: the least [k >= 0] with
    [frames <= c + k * P]. *)
Lemma spawn_count_spec frames c P :
  1 <= P ->
  let k := Z.max 0 ((frames - c + P - 1) / P) in
  0 <= k /\ frames <= c + k * P /\ forall j, 0 <= j < k -> c + j * P < frames.
Proof.
  intros HP k.
  pose proof (Z.div_mod (frames - c + P - 1) P ltac:(lia)) as E.
  pose proof (Z.mod_pos_bound (frames - c + P - 1) P ltac:(lia)) as B.
  set (q := (frames - c + P - 1) / P) in *.
  assert (k = Z.max 0 q) as Hk by reflexivity. clearbody k.
  split; [lia|]. split.
  - destruct (Z.max_spec 0 q) as [[Hq Hm]|[Hq Hm]]; rewrite Hk, Hm; nia.
  - intros j Hj. destruct (Z.max_spec 0 q) as [[Hq Hm]|[Hq Hm]]; rewrite Hk, Hm in Hj; nia.
Qed.

End Scheduler.

(** X5: the scheduler at a period randomization of zero. With a period of
    [P >= 1] samples, a block of [frames] samples and a countdown of [c], the
    loop of the main stream spawns [k = max 0 (ceil ((frames - c) / P))]
    grains, at the offsets [c], [c + P], ... of the block (the pool lists the
    newest first), and leaves the countdown at [c + k * P]; for a seeder of
    one stream the whole turn of the seeder loop then ends with the countdown
    at [c + k * P - frames]. *)
Theorem main_stream_schedule `{Host} (x : t_granular) (index frames P c : Z)
    (calls : nat) (seeder : t_seeder) (old : list t_grain) :
  let k := Z.to_nat (Z.max 0 ((frames - c + P - 1) / P)) in
  pool_wf x -> rd (seeders_arr x) index = Done seeder ->
  (Seeder.period_rand seeder =? 0)%float = true ->
  Seeder.period_len seeder = P -> 1 <= P <= INT32_MAX ->
  rd (Seeder.period_cntd seeder) 0 = Done c ->
  INT32_MIN <= c -> c + Z.of_nat k * P <= INT32_MAX -> 0 <= frames ->
  (forall i, (calls <= i < calls + k)%nat -> finite (unit_draw (rand i)) = true) ->
  grains_cnt x + Z.of_nat k <= grains_max x ->
  pool_grains x = Done old ->
  exists fuel0, forall fuel, (fuel0 <= fuel)%nat ->
    exists x' seeder' new,
      main_stream fuel index frames (x, calls) = Done (x', (calls + k)%nat) /\
      pool_grains x' = Done (rev new ++ old) /\
      map Grain.out_begin new = offsets k c P /\
      grains_cnt x' = grains_cnt x + Z.of_nat k /\
      rd (seeders_arr x') index = Done seeder' /\
      rd (Seeder.period_cntd seeder') 0 = Done (c + Z.of_nat k * P) /\
      (Seeder.is_on seeder = true -> Seeder.poly_cnt seeder = 1 ->
       exists x'' seeder'',
         seeder_block fuel index frames (x, calls) = Done (x'', (calls + k)%nat) /\
         pool_grains x'' = Done (rev new ++ old) /\
         rd (seeders_arr x'') index = Done seeder'' /\
         rd (Seeder.period_cntd seeder'') 0 = Done (c + Z.of_nat k * P - frames)).
Proof.
  intros k Hwf Hs Hz Hlen HP Hc Hcmin Hcmax Hfr Hfin Hroom Hold.
  destruct (spawn_count_spec frames c P ltac:(lia)) as (Hk0 & Hstop & Hgo).
  fold (Z.max 0 ((frames - c + P - 1) / P)) in *.
  assert (Z.of_nat k = Z.max 0 ((frames - c + P - 1) / P)) as Ek
    by (unfold k; rewrite Z2Nat.id; lia).
  rewrite <- Ek in Hstop, Hgo. clearbody k.
  exists k. intros fuel Hfuel.
  destruct (main_stream_run index frames P k fuel x calls c seeder old
              HP Hwf Hs Hz Hlen Hc Hcmin Hcmax Hstop Hgo Hfin Hroom Hold Hfuel)
    as (x' & seeder' & new & Hrun & Hwf' & Hcnt' & Hpool' & Hoffs & Hs' & Hc' & Hon & Hpoly).
  exists x', seeder', new.
  split; [assumption|]. split; [assumption|]. split; [assumption|].
  split; [assumption|]. split; [assumption|]. split; [assumption|].
  intros Eon Epoly.
  pose proof (rd_Done _ _ _ Hs') as Hin'. pose proof (rd_Done _ _ _ Hc') as Hin0.
  exists (set_seeders_arr
            (upd (seeders_arr x') index
               (Seeder.set_period_cntd
                  (upd (Seeder.period_cntd seeder') 0 (c + Z.of_nat k * P - frames))
                  seeder')) x').
  eexists.
  split; [|split; [|split]].
  - unfold seeder_block. simpl fst. rewrite Hs. cbn [bind]. rewrite Eon.
    rewrite Hrun. cbn [bind].
    unfold poly_streams. simpl fst. rewrite Hs'. cbn [bind].
    rewrite Hpoly, Epoly. simpl. rewrite Hs'. cbn [bind]. rewrite Hpoly, Epoly. simpl.
    unfold rewind_stream. rewrite Hs'. cbn [bind]. rewrite Hc'. cbn [bind].
    rewrite wrap32_small by (unfold INT32_MIN, INT32_MAX in *; lia).
    rewrite wr_in_range by assumption. cbn [bind].
    rewrite wr_in_range by assumption. cbn [bind]. reflexivity.
  - unfold pool_grains in *. simpl. exact Hpool'.
  - simpl. apply rd_upd_eq. assumption.
  - simpl. apply rd_upd_eq. assumption.
Qed.

(** The pool of the example object is well formed. *)
Lemma object_a_pool_wf : pool_wf Example.object_a.
Proof.
  exists [], [0; 1]. split; [reflexivity|]. split; [reflexivity|].
  split; [apply (bool_decide_unpack _); vm_compute; exact I|].
  repeat split; try reflexivity. unfold INT16_MAX. simpl. lia.
Qed.

Lemma main_stream_schedule_example :
  exists fuel0, forall fuel, (fuel0 <= fuel)%nat ->
    exists x' seeder' new,
      main_stream (H := Example.quiet_host) fuel 0 4 (Example.object_a, 0%nat)
      = Done (x', 2%nat) /\
      pool_grains x' = Done (rev new ++ []) /\
      map Grain.out_begin new = [0; 2] /\
      grains_cnt x' = 2 /\
      rd (seeders_arr x') 0 = Done seeder' /\
      rd (Seeder.period_cntd seeder') 0 = Done 4 /\
      (Seeder.is_on Example.seeder_a = true -> Seeder.poly_cnt Example.seeder_a = 1 ->
       exists x'' seeder'',
         seeder_block (H := Example.quiet_host) fuel 0 4 (Example.object_a, 0%nat)
         = Done (x'', 2%nat) /\
         pool_grains x'' = Done (rev new ++ []) /\
         rd (seeders_arr x'') 0 = Done seeder'' /\
         rd (Seeder.period_cntd seeder'') 0 = Done 0).
Proof.
  apply (main_stream_schedule (H := Example.quiet_host) Example.object_a 0 4 2 0 0
           Example.seeder_a []).
  - exact object_a_pool_wf.
  - reflexivity.
  - reflexivity.
  - reflexivity.
  - unfold INT32_MAX. lia.
  - reflexivity.
  - unfold INT32_MIN. lia.
  - change (4 <= 2147483647). lia.
  - lia.
  - intros i _. reflexivity.
  - change (2 <= 2). lia.
  - reflexivity.
Defined.


(* ===================================================================== *)
(** * The index, operation by operation                                   *)
(* ===================================================================== *)

(** The two lists an index is read as are the two lists of its invariant. *)
Lemma lists_repr l us es :
  partition_inv l -> used_indices l = Done us -> empty_indices l = Done es ->
  repr l us es.
Proof.
  intros Hinv Hu He. destruct (partition_inv_repr _ Hinv) as (us0 & es0 & Hr).
  rewrite (repr_used_indices _ _ _ Hr) in Hu. rewrite (repr_empty_indices _ _ _ Hr) in He.
  injection Hu as <-. injection He as <-. assumption.
Qed.

(** What an operation leaves behind, read the way the code reads it. *)
Lemma repr_reads l us es :
  repr l us es ->
  partition_inv l /\ used_indices l = Done us /\ empty_indices l = Done es.
Proof.
  intros Hr. split; [eapply repr_partition_inv; eauto|].
  split; [eapply repr_used_indices; eauto|eapply repr_empty_indices; eauto].
Qed.

(** The example index is well formed. *)
Lemma list_a_inv : partition_inv Example.list_a.
Proof.
  exists [2; 1; 0], [3]. split; [reflexivity|]. split; [reflexivity|].
  split; [|reflexivity]. apply (bool_decide_unpack _). vm_compute. exact I.
Qed.

(** Two arrays of one length with the same cells are one array. *)
Lemma rd_ext {A : Type} (a b : list A) :
  length b = length a -> (forall i, in_range a i -> rd b i = rd a i) -> b = a.
Proof.
  intros Hlen Hrd. apply list_eq. intros n.
  destruct (Nat.lt_ge_cases n (length a)) as [Hlt|Hge].
  - specialize (Hrd (Z.of_nat n) ltac:(unfold in_range; lia)).
    unfold rd in Hrd. destruct (Z.leb_spec 0 (Z.of_nat n)); [|lia].
    rewrite Nat2Z.id in Hrd.
    destruct (lookup_lt_is_Some_2 a n Hlt) as [x Hx].
    destruct (lookup_lt_is_Some_2 b n ltac:(lia)) as [y Hy].
    rewrite Hx, Hy in *. congruence.
  - rewrite !(proj2 (lookup_ge_None _ _)) by lia. reflexivity.
Qed.

(** Moving an index back where it came from restores the array. *)
Lemma spliced_back a pf pt u nxt v :
  in_range a pf -> in_range a u -> in_range a pt ->
  pf <> u -> pf <> pt -> u <> pt ->
  rd a pf = Done u -> rd a u = Done nxt -> rd a pt = Done v ->
  spliced (spliced a pf pt u nxt v) pt pf u v nxt = a.
Proof.
  intros Ipf Iu Ipt N1 N2 N3 Hpf Hu Hpt.
  assert (forall x, in_range (spliced a pf pt u nxt v) x <-> in_range a x) as Hin.
  { intros x. unfold spliced, in_range. rewrite !length_upd. reflexivity. }
  apply rd_ext.
  - unfold spliced. rewrite !length_upd. reflexivity.
  - intros i Hi.
    rewrite rd_spliced by (rewrite ?Hin; auto).
    destruct (decide (i = pf)) as [->|]; [symmetry; assumption|].
    destruct (decide (i = u)) as [->|]; [symmetry; assumption|].
    destruct (decide (i = pt)) as [->|]; [symmetry; assumption|].
    rewrite rd_spliced by auto.
    destruct (decide (i = pt)); [contradiction|].
    destruct (decide (i = u)); [contradiction|].
    destruct (decide (i = pf)); [contradiction|]. reflexivity.
Qed.

Lemma with_array_self l : with_array l (array l) = l.
Proof. destruct l. reflexivity. Qed.

(** ** Round trips *)

(** X6: on a well-formed index with a free cell, [list_insert_first] followed
    by [list_remove_first] returns the same index twice and gives back the
    index exactly as it was, cell for cell. *)
Theorem insert_first_then_remove_first (l : t_list) (e : Z) (es : list Z) :
  partition_inv l -> empty_indices l = Done (e :: es) ->
  exists l1,
    list_insert_first l = Done (l1, e) /\ 0 <= e < len l /\
    list_remove_first l1 = Done (l, e).
Proof.
  intros Hinv He.
  destruct (partition_inv_repr _ Hinv) as (us & es0 & Hr).
  rewrite (repr_empty_indices _ _ _ Hr) in He. injection He as ->.
  destruct (heads_fresh _ _ _ Hr) as (_ & _ & _ & _ & _ & _ & Hrange).
  destruct (repr_to_used l us (e :: es) [] e es [] us (first_empty l) (first_used l) Hr
              eq_refl eq_refl (path_here _ _) (repr_empty _ _ _ Hr)
              (path_here _ _) (repr_used _ _ _ Hr)) as (a' & Hm & Hr').
  exists (with_array l a').
  use_moved Hm.
  split; [unfold list_insert_first; exec; subst a'; reflexivity|].
  split; [apply Hrange; apply elem_of_app; right; left|].
  assert (rd a' (first_used l) = Done e /\ rd a' e = Done v /\
          rd a' (first_empty l) = Done nxt) as (R1 & R2 & R3).
  { subst a'. rewrite !rd_spliced by assumption.
    repeat match goal with |- context [decide ?P] => destruct (decide P); try congruence end.
    auto. }
  assert (in_range a' (first_used l) /\ in_range a' e /\ in_range a' (first_empty l))
    as (I1 & I2 & I3).
  { subst a'. unfold spliced, in_range. rewrite !length_upd. auto. }
  unfold list_remove_first.
  change (array (with_array l a')) with a'.
  change (first_used (with_array l a')) with (first_used l).
  change (first_empty (with_array l a')) with (first_empty l).
  cbv zeta. rewrite R1. cbn [bind].
  destruct (Z.eqb_spec e LIST_END); [congruence|].
  rewrite R2. cbn [bind]. rewrite wr_in_range by assumption. cbn [bind].
  rewrite rd_upd_ne by (first [exact (proj1 I1) | congruence]). rewrite R3. cbn [bind].
  rewrite wr_in_range by (rewrite in_range_upd; assumption). cbn [bind].
  rewrite wr_in_range by (rewrite !in_range_upd; assumption). cbn [bind].
  f_equal. f_equal.
  change (upd (upd (upd a' (first_used l) v) e nxt) (first_empty l) e)
    with (spliced a' (first_used l) (first_empty l) e v nxt).
  subst a'. rewrite spliced_back by assumption.
  unfold with_array. simpl. destruct l. reflexivity.
Qed.

Lemma insert_first_then_remove_first_example :
  exists l1,
    list_insert_first Example.list_a = Done (l1, 3) /\ 0 <= 3 < len Example.list_a /\
    list_remove_first l1 = Done (Example.list_a, 3).
Proof.
  exact (insert_first_then_remove_first Example.list_a 3 [] list_a_inv eq_refl).
Defined.

(** The other way round, on a well-formed index with a used cell,
    [list_remove_first] followed by [list_insert_first] returns the same
    index twice and gives back the index exactly as it was. *)
Theorem remove_first_then_insert_first (l : t_list) (u : Z) (us : list Z) :
  partition_inv l -> used_indices l = Done (u :: us) ->
  exists l1,
    list_remove_first l = Done (l1, u) /\ 0 <= u < len l /\
    list_insert_first l1 = Done (l, u).
Proof.
  intros Hinv Hu.
  destruct (partition_inv_repr _ Hinv) as (us0 & es & Hr).
  rewrite (repr_used_indices _ _ _ Hr) in Hu. injection Hu as ->.
  destruct (heads_fresh _ _ _ Hr) as (_ & _ & _ & _ & _ & _ & Hrange).
  destruct (repr_to_empty l (u :: us) es [] u us (first_used l) Hr
              eq_refl (path_here _ _) (repr_used _ _ _ Hr)) as (a' & Hm & Hr').
  exists (with_array l a').
  use_moved Hm.
  split; [unfold list_remove_first; exec; subst a'; reflexivity|].
  split; [apply Hrange; apply elem_of_app; left; left|].
  assert (rd a' (first_empty l) = Done u /\ rd a' u = Done v /\
          rd a' (first_used l) = Done nxt) as (R1 & R2 & R3).
  { subst a'. rewrite !rd_spliced by assumption.
    repeat match goal with |- context [decide ?P] => destruct (decide P); try congruence end.
    auto. }
  assert (in_range a' (first_used l) /\ in_range a' u /\ in_range a' (first_empty l))
    as (I1 & I2 & I3).
  { subst a'. unfold spliced, in_range. rewrite !length_upd. auto. }
  unfold list_insert_first.
  change (array (with_array l a')) with a'.
  change (first_used (with_array l a')) with (first_used l).
  change (first_empty (with_array l a')) with (first_empty l).
  cbv zeta. rewrite R1. cbn [bind].
  destruct (Z.eqb_spec u LIST_END); [congruence|].
  rewrite R2. cbn [bind]. rewrite wr_in_range by assumption. cbn [bind].
  rewrite rd_upd_ne by (first [exact (proj1 I3) | congruence]). rewrite R3. cbn [bind].
  rewrite wr_in_range by (rewrite in_range_upd; assumption). cbn [bind].
  rewrite wr_in_range by (rewrite !in_range_upd; assumption). cbn [bind].
  f_equal. f_equal.
  change (upd (upd (upd a' (first_empty l) v) u nxt) (first_used l) u)
    with (spliced a' (first_empty l) (first_used l) u v nxt).
  subst a'. rewrite spliced_back by auto.
  unfold with_array. simpl. destruct l. reflexivity.
Qed.

Lemma remove_first_then_insert_first_example :
  exists l1,
    list_remove_first Example.list_a = Done (l1, 2) /\ 0 <= 2 < len Example.list_a /\
    list_insert_first l1 = Done (Example.list_a, 2).
Proof.
  exact (remove_first_then_insert_first Example.list_a 2 [1; 0] list_a_inv eq_refl).
Defined.

(** ** Where an operation puts or finds an index *)

(** X7: [list_insert_last] takes the head of the empty list, returns it and
    puts it at the end of the used list. *)
Theorem insert_last_appends (l : t_list) (us : list Z) (e : Z) (es : list Z) :
  partition_inv l -> used_indices l = Done us -> empty_indices l = Done (e :: es) ->
  exists l',
    list_insert_last l = Done (l', e) /\ partition_inv l' /\
    used_indices l' = Done (us ++ [e]) /\ empty_indices l' = Done es.
Proof.
  intros Hinv Hu He. pose proof (lists_repr _ _ _ Hinv Hu He) as Hr.
  destruct (list_insert_last_spec _ _ _ _ Hr) as (l' & Hrun & Hr' & _).
  exists l'. split; [assumption|]. apply repr_reads. assumption.
Qed.

Lemma insert_last_appends_example :
  exists l',
    list_insert_last Example.list_a = Done (l', 3) /\ partition_inv l' /\
    used_indices l' = Done ([2; 1; 0] ++ [3]) /\ empty_indices l' = Done [].
Proof.
  exact (insert_last_appends Example.list_a [2; 1; 0] 3 [] list_a_inv eq_refl eq_refl).
Defined.

(** X8: [list_insert_nth] takes the head of the empty list, returns it and
    puts it in front of the [n]-th used index: at the head when [n <= 0], at
    the end when the used list has [n] indices or less. *)
Theorem insert_nth_position (l : t_list) (us : list Z) (e : Z) (es : list Z) (n : Z) :
  partition_inv l -> used_indices l = Done us -> empty_indices l = Done (e :: es) ->
  -32768 <= n <= 32767 ->
  exists l',
    list_insert_nth l n = Done (l', e) /\ partition_inv l' /\
    used_indices l' = Done (take (Z.to_nat n) us ++ e :: drop (Z.to_nat n) us) /\
    empty_indices l' = Done es.
Proof.
  intros Hinv Hu He Hn. pose proof (lists_repr _ _ _ Hinv Hu He) as Hr.
  destruct (list_insert_nth_spec _ _ _ _ n Hr Hn) as (l' & Hrun & Hr' & _).
  exists l'. split; [assumption|]. apply repr_reads. assumption.
Qed.

Lemma insert_nth_position_example :
  exists l',
    list_insert_nth Example.list_a 1 = Done (l', 3) /\ partition_inv l' /\
    used_indices l' = Done [2; 3; 1; 0] /\ empty_indices l' = Done [].
Proof.
  exact (insert_nth_position Example.list_a [2; 1; 0] 3 [] 1 list_a_inv eq_refl eq_refl
           ltac:(lia)).
Defined.

(** X9: [list_remove_nth] removes the [n]-th used index (the first when
    [n <= 0]), returns it and puts it at the head of the empty list; when the
    used list has [n] indices or less it returns [LIST_ERR_ARG] and changes
    nothing. *)
Theorem remove_nth_position (l : t_list) (us es : list Z) (n : Z) :
  partition_inv l -> used_indices l = Done us -> empty_indices l = Done es ->
  us <> [] -> -32768 <= n <= 32767 ->
  match us !! Z.to_nat n with
  | Some u =>
      exists l',
        list_remove_nth l n = Done (l', u) /\ partition_inv l' /\
        used_indices l' = Done (delete (Z.to_nat n) us) /\
        empty_indices l' = Done (u :: es)
  | None => list_remove_nth l n = Done (l, LIST_ERR_ARG)
  end.
Proof.
  intros Hinv Hu He Hne Hn. pose proof (lists_repr _ _ _ Hinv Hu He) as Hr.
  destruct (list_remove_nth_spec _ _ _ n Hr Hne Hn)
    as [(Hd & Hrun)|(u & post & l' & Hd & Hrun & Hr' & _)].
  - rewrite (proj2 (lookup_ge_None us (Z.to_nat n))); [assumption|].
    apply drop_nil_inv in Hd. exact Hd.
  - assert (us !! Z.to_nat n = Some u) as Hl.
    { rewrite <- (Nat.add_0_r (Z.to_nat n)), <- lookup_drop, Hd. reflexivity. }
    rewrite Hl. exists l'. split; [assumption|].
    replace (delete (Z.to_nat n) us) with (take (Z.to_nat n) us ++ post).
    + apply repr_reads. assumption.
    + rewrite delete_take_drop. f_equal.
      replace (S (Z.to_nat n)) with (Z.to_nat n + 1)%nat by lia.
      rewrite <- drop_drop, Hd. reflexivity.
Qed.

Lemma remove_nth_position_example :
  exists l',
    list_remove_nth Example.list_a 1 = Done (l', 1) /\ partition_inv l' /\
    used_indices l' = Done [2; 0] /\ empty_indices l' = Done [1; 3].
Proof.
  exact (remove_nth_position Example.list_a [2; 1; 0] [3] 1 list_a_inv eq_refl eq_refl
           ltac:(discriminate) ltac:(lia)).
Defined.

(** X10: [list_remove_last] removes the last used index and puts it at the
    head of the empty list, but the value it returns is read back from the
    cell it has just overwritten: it is [LIST_END], never the index removed. *)
Theorem remove_last_returns_list_end (l : t_list) (us : list Z) (z : Z) (es : list Z) :
  partition_inv l -> used_indices l = Done (us ++ [z]) -> empty_indices l = Done es ->
  exists l',
    list_remove_last l = Done (l', LIST_END) /\ z <> LIST_END /\ partition_inv l' /\
    used_indices l' = Done us /\ empty_indices l' = Done (z :: es).
Proof.
  intros Hinv Hu He. pose proof (lists_repr _ _ _ Hinv Hu He) as Hr.
  destruct (list_remove_last_spec _ _ _ _ Hr) as (l' & Hrun & Hr' & _).
  exists l'. split; [assumption|]. split.
  - destruct (heads_fresh _ _ _ Hr) as (_ & _ & _ & _ & _ & _ & Hrange).
    specialize (Hrange z ltac:(set_solver)). unfold LIST_END. lia.
  - apply repr_reads. assumption.
Qed.

Lemma remove_last_returns_list_end_example :
  exists l',
    list_remove_last Example.list_a = Done (l', LIST_END) /\ 0 <> LIST_END /\
    partition_inv l' /\
    used_indices l' = Done [2; 1] /\ empty_indices l' = Done [0; 3].
Proof.
  exact (remove_last_returns_list_end Example.list_a [2; 1] 0 [3] list_a_inv eq_refl eq_refl).
Defined.

(** X11: [list_insert_index] moves the index it is given from wherever it is
    in the empty list to the head of the used list; an index that is not in
    the empty list (used already, or no index at all) gives [LIST_NOT_FOUND]
    and changes nothing. *)
Theorem insert_index_by_value (l : t_list) (us es : list Z) (index : Z) :
  partition_inv l -> used_indices l = Done us -> empty_indices l = Done es ->
  (index ∈ es ->
   exists pre post l',
     es = pre ++ index :: post /\
     list_insert_index l index = Done (l', index) /\ partition_inv l' /\
     used_indices l' = Done (index :: us) /\ empty_indices l' = Done (pre ++ post)) /\
  ((index ∉ es) -> list_insert_index l index = Done (l, LIST_NOT_FOUND)).
Proof.
  intros Hinv Hu He. pose proof (lists_repr _ _ _ Hinv Hu He) as Hr.
  destruct (list_insert_index_spec _ _ _ index Hr)
    as [(Hni & Hrun)|(pre & post & l' & -> & Hrun & Hr' & _)].
  - split; [intros Hin; contradiction|intros _; assumption].
  - split.
    + intros _. exists pre, post, l'. split; [reflexivity|]. split; [assumption|].
      apply repr_reads. assumption.
    + intros Hni. exfalso. apply Hni. set_solver.
Qed.

Lemma insert_index_by_value_example :
  (3 ∈ [3] ->
   exists pre post l',
     [3] = pre ++ 3 :: post /\
     list_insert_index Example.list_a 3 = Done (l', 3) /\ partition_inv l' /\
     used_indices l' = Done [3; 2; 1; 0] /\ empty_indices l' = Done (pre ++ post)) /\
  ((3 ∉ [3]) -> list_insert_index Example.list_a 3 = Done (Example.list_a, LIST_NOT_FOUND)).
Proof.
  exact (insert_index_by_value Example.list_a [2; 1; 0] [3] 3 list_a_inv eq_refl eq_refl).
Defined.

(** X12: [list_remove_index] moves the index it is given from wherever it is
    in the used list to the head of the empty list, the rest of the used
    list keeping its order; an index that is not used gives [LIST_NOT_FOUND]
    and changes nothing. *)
Theorem remove_index_by_value (l : t_list) (us es : list Z) (index : Z) :
  partition_inv l -> used_indices l = Done us -> empty_indices l = Done es ->
  (index ∈ us ->
   exists pre post l',
     us = pre ++ index :: post /\
     list_remove_index l index = Done (l', index) /\ partition_inv l' /\
     used_indices l' = Done (pre ++ post) /\ empty_indices l' = Done (index :: es)) /\
  ((index ∉ us) -> list_remove_index l index = Done (l, LIST_NOT_FOUND)).
Proof.
  intros Hinv Hu He. pose proof (lists_repr _ _ _ Hinv Hu He) as Hr.
  destruct (list_remove_index_spec _ _ _ index Hr)
    as [(Hni & Hrun)|(pre & post & l' & -> & Hrun & Hr' & _)].
  - split; [intros Hin; contradiction|intros _; assumption].
  - split.
    + intros _. exists pre, post, l'. split; [reflexivity|]. split; [assumption|].
      apply repr_reads. assumption.
    + intros Hni. exfalso. apply Hni. set_solver.
Qed.

Lemma remove_index_by_value_example :
  (1 ∈ [2; 1; 0] ->
   exists pre post l',
     [2; 1; 0] = pre ++ 1 :: post /\
     list_remove_index Example.list_a 1 = Done (l', 1) /\ partition_inv l' /\
     used_indices l' = Done (pre ++ post) /\ empty_indices l' = Done [1; 3]) /\
  ((1 ∉ [2; 1; 0]) ->
   list_remove_index Example.list_a 1 = Done (Example.list_a, LIST_NOT_FOUND)).
Proof.
  exact (remove_index_by_value Example.list_a [2; 1; 0] [3] 1 list_a_inv eq_refl eq_refl).
Defined.

(** ** Cursors *)

(** The cell a walk over [vs] from [c] ends on. *)
Lemma path_last a c vs p : path a c vs p -> p = default c (last vs).
Proof.
  induction 1 as [c|c v vs p Hc Hv Hp IH]; [reflexivity|].
  rewrite IH. destruct vs as [|w vs]; [reflexivity|].
  rewrite last_cons_cons. destruct (last (w :: vs)) eqn:E; [reflexivity|].
  apply last_None in E. discriminate.
Qed.

Lemma chain_path_last a c pre post :
  chain a c (pre ++ post) -> path a c pre (default c (last pre)).
Proof.
  intros Hc. destruct (chain_split _ _ _ _ Hc) as (p & Hp & _).
  rewrite <- (path_last _ _ _ _ Hp). assumption.
Qed.

(** X13: the loops of granular.c remove the index under their cursor with
    [list_remove_node] and do not move the cursor afterwards. With the cursor
    [node] on the cell before the used index [u] (the head cell, or the cell
    of the index in front of [u]), the call removes and returns [u], and
    [node] then points to the index that followed [u], or to [LIST_END]. *)
Theorem remove_node_keeps_cursor (l : t_list) (pre : list Z) (u : Z) (post es : list Z) :
  partition_inv l -> used_indices l = Done (pre ++ u :: post) ->
  empty_indices l = Done es ->
  let node := default (first_used l) (last pre) in
  exists l',
    list_remove_node l node = Done (l', u) /\ partition_inv l' /\
    used_indices l' = Done (pre ++ post) /\ empty_indices l' = Done (u :: es) /\
    rd (array l) node = Done u /\
    rd (array l') node = Done (default LIST_END (head post)).
Proof.
  intros Hinv Hu He node. pose proof (lists_repr _ _ _ Hinv Hu He) as Hr.
  pose proof (chain_path_last _ _ _ _ (repr_used _ _ _ Hr)) as Hp. fold node in Hp.
  destruct (list_remove_node_spec _ _ _ _ _ node Hr Hp) as (l' & Hrun & Hr' & Hlen).
  exists l'. split; [assumption|].
  destruct (repr_reads _ _ _ Hr') as (Hinv' & Hu' & He').
  split; [assumption|]. split; [assumption|]. split; [assumption|].
  pose proof (chain_at _ _ _ _ _ (repr_used _ _ _ Hr) Hp) as Hc.
  split; [inversion Hc; subst; assumption|].
  assert (path (array l') (first_used l') pre node) as Hp'.
  { pose proof (chain_path_last _ _ _ _ (repr_used _ _ _ Hr')) as Hq.
    unfold first_used in *. rewrite Hlen in *. exact Hq. }
  pose proof (chain_at _ _ _ _ _ (repr_used _ _ _ Hr') Hp') as Hc'.
  inversion Hc'; subst; simpl; assumption.
Qed.

Lemma remove_node_keeps_cursor_example :
  exists l',
    list_remove_node Example.list_a 2 = Done (l', 1) /\ partition_inv l' /\
    used_indices l' = Done ([2] ++ [0]) /\ empty_indices l' = Done [1; 3] /\
    rd (array Example.list_a) 2 = Done 1 /\
    rd (array l') 2 = Done 0.
Proof.
  exact (remove_node_keeps_cursor Example.list_a [2] 1 [0] [3] list_a_inv eq_refl eq_refl).
Defined.

(** The loop of [list_prev_node], along the used indices in front of the
    one looked for. *)
Lemma walk_prev_fuel a node : forall pre c p fuel,
  path a c pre p -> rd a p = Done node -> (node ∉ pre) -> (length pre <= fuel)%nat ->
  while_loop fuel
    (fun current => let* v := rd a current in Done (negb (v =? node)))
    (fun current => rd a current) c = Done p.
Proof.
  induction pre as [|v pre IH]; intros c p fuel Hp Hrd Hni Hf.
  - inversion Hp; subst. destruct fuel; simpl; rewrite Hrd; cbn [bind];
      rewrite Z.eqb_refl; reflexivity.
  - inversion Hp as [|? ? ? ? Hc Hv Hp']; subst.
    destruct fuel as [|fuel]; [simpl in Hf; lia|].
    simpl. rewrite Hc. cbn [bind].
    destruct (Z.eqb_spec v node) as [->|Hne]; [exfalso; apply Hni; left|].
    simpl. apply IH with (p := p); try assumption.
    + intros Hin. apply Hni. right. assumption.
    + simpl in Hf. lia.
Qed.

(** X14: on the used list [list_prev_node] undoes [list_next_node]. For a
    used index [u], with [p] the cell in front of it (the head cell, or the
    cell of the used index before [u]): [list_next_node] takes [p] to the
    cell of [u], and [list_prev_node] takes the cell of [u] back to [p]; on
    the head cell [list_prev_node] stays where it is. *)
Theorem prev_node_undoes_next_node (l : t_list) (pre : list Z) (u : Z) (post es : list Z) :
  partition_inv l -> used_indices l = Done (pre ++ u :: post) ->
  empty_indices l = Done es ->
  let p := default (first_used l) (last pre) in
  list_next_node l p = Done u /\ list_prev_node l u = Done p /\
  list_prev_node l (first_used l) = Done (first_used l).
Proof.
  intros Hinv Hu He p. pose proof (lists_repr _ _ _ Hinv Hu He) as Hr.
  pose proof (chain_path_last _ _ _ _ (repr_used _ _ _ Hr)) as Hp. fold p in Hp.
  pose proof (chain_at _ _ _ _ _ (repr_used _ _ _ Hr) Hp) as Hc.
  destruct (heads_fresh _ _ _ Hr) as (Hnd & _ & Hfu & _ & _ & _ & Hrange).
  inversion Hc as [|? ? ? Hrd Hend _]; subst.
  split; [|split].
  - unfold list_next_node. rewrite Hrd. cbn [bind].
    destruct (Z.eqb_spec u LIST_END); [contradiction|reflexivity].
  - unfold list_prev_node.
    destruct (Z.eqb_spec u (first_used l)) as [E|_].
    { exfalso. apply Hfu. rewrite <- E. set_solver. }
    apply walk_prev_fuel with (pre := pre); try assumption.
    + apply NoDup_app in Hnd as (Hnd & _ & _).
      apply NoDup_app in Hnd as (_ & Hdis & _). intros Hin. apply (Hdis u Hin). left.
    + pose proof (repr_budget_used _ _ _ Hr) as Hb. rewrite length_app in Hb. lia.
  - unfold list_prev_node. rewrite Z.eqb_refl. reflexivity.
Qed.

Lemma prev_node_undoes_next_node_example :
  list_next_node Example.list_a 2 = Done 1 /\ list_prev_node Example.list_a 1 = Done 2 /\
  list_prev_node Example.list_a (first_used Example.list_a)
  = Done (first_used Example.list_a).
Proof.
  exact (prev_node_undoes_next_node Example.list_a [2] 1 [0] [3] list_a_inv eq_refl eq_refl).
Defined.

(** ** Edges *)

Lemma list_new_nonpositive n : n <= 0 -> list_new n = Fault.
Proof.
  intros Hn. unfold list_new.
  replace (Z.to_nat (n - 1)) with 0%nat by lia. simpl list_new_fill. cbn [bind].
  unfold wr. destruct (Z.leb_spec 0 (n - 1)); [lia|]. reflexivity.
Qed.

(** [list_new] asked for a capacity of zero or less writes [LIST_END]
    in front of the array it has just allocated ([array[len - 1]] with
    [len <= 0]). *)
Theorem list_new_writes_before_array (n : Z) : n <= 0 -> list_new n = Fault.
Proof. apply list_new_nonpositive. Qed.

Lemma list_new_writes_before_array_example : list_new 0 = Fault.
Proof. exact (list_new_writes_before_array 0 ltac:(lia)). Defined.

(** X15: on an index with no free cell the four insertions that take the
    first free cell return [LIST_ERR_FULL] and [list_insert_index] returns
    [LIST_NOT_FOUND], whatever their argument; none of them changes the
    index. *)
Theorem full_index_refuses (l : t_list) (node n index : Z) :
  partition_inv l -> empty_indices l = Done [] ->
  list_insert_first l = Done (l, LIST_ERR_FULL) /\
  list_insert_node l node = Done (l, LIST_ERR_FULL) /\
  list_insert_last l = Done (l, LIST_ERR_FULL) /\
  list_insert_nth l n = Done (l, LIST_ERR_FULL) /\
  list_insert_index l index = Done (l, LIST_NOT_FOUND).
Proof.
  intros Hinv He. destruct (partition_inv_repr _ Hinv) as (us & es & Hr).
  rewrite (repr_empty_indices _ _ _ Hr) in He. injection He as ->.
  split; [exact (list_insert_full l us InsertFirst Hr)|].
  split; [exact (list_insert_full l us (InsertNode node) Hr)|].
  split; [exact (list_insert_full l us InsertLast Hr)|].
  split; [exact (list_insert_full l us (InsertNth n) Hr)|].
  destruct (list_insert_index_spec _ _ _ index Hr)
    as [(_ & Hrun)|(pre & post & _ & E & _)]; [assumption|].
  destruct pre; discriminate.
Qed.

Lemma full_index_refuses_example :
  list_insert_first Example.list_full = Done (Example.list_full, LIST_ERR_FULL) /\
  list_insert_node Example.list_full 1 = Done (Example.list_full, LIST_ERR_FULL) /\
  list_insert_last Example.list_full = Done (Example.list_full, LIST_ERR_FULL) /\
  list_insert_nth Example.list_full 1 = Done (Example.list_full, LIST_ERR_FULL) /\
  list_insert_index Example.list_full 1 = Done (Example.list_full, LIST_NOT_FOUND).
Proof.
  apply (full_index_refuses Example.list_full 1 1 1).
  - exists [1; 0], []. split; [reflexivity|]. split; [reflexivity|].
    split; [|reflexivity]. apply (bool_decide_unpack _). vm_compute. exact I.
  - reflexivity.
Defined.

(** X16: on an index with no used cell the four removals that go by
    position return [LIST_ERR_EMPTY] and [list_remove_index] returns
    [LIST_NOT_FOUND], whatever their argument; none of them changes the
    index. *)
Theorem empty_index_refuses (l : t_list) (node n index : Z) :
  partition_inv l -> used_indices l = Done [] ->
  list_remove_first l = Done (l, LIST_ERR_EMPTY) /\
  list_remove_node l node = Done (l, LIST_ERR_EMPTY) /\
  list_remove_last l = Done (l, LIST_ERR_EMPTY) /\
  list_remove_nth l n = Done (l, LIST_ERR_EMPTY) /\
  list_remove_index l index = Done (l, LIST_NOT_FOUND).
Proof.
  intros Hinv Hu. destruct (partition_inv_repr _ Hinv) as (us & es & Hr).
  rewrite (repr_used_indices _ _ _ Hr) in Hu. injection Hu as ->.
  split; [exact (list_remove_empty l es RemoveFirst Hr)|].
  split; [exact (list_remove_empty l es (RemoveNode node) Hr)|].
  split; [exact (list_remove_empty l es RemoveLast Hr)|].
  split; [exact (list_remove_empty l es (RemoveNth n) Hr)|].
  destruct (list_remove_index_spec _ _ _ index Hr)
    as [(_ & Hrun)|(pre & post & _ & E & _)]; [assumption|].
  destruct pre; discriminate.
Qed.

Lemma empty_index_refuses_example :
  list_remove_first Example.list_fresh = Done (Example.list_fresh, LIST_ERR_EMPTY) /\
  list_remove_node Example.list_fresh 0 = Done (Example.list_fresh, LIST_ERR_EMPTY) /\
  list_remove_last Example.list_fresh = Done (Example.list_fresh, LIST_ERR_EMPTY) /\
  list_remove_nth Example.list_fresh 0 = Done (Example.list_fresh, LIST_ERR_EMPTY) /\
  list_remove_index Example.list_fresh 0 = Done (Example.list_fresh, LIST_NOT_FOUND).
Proof.
  apply (empty_index_refuses Example.list_fresh 0 0 0).
  - exists [], [0; 1]. split; [reflexivity|]. split; [reflexivity|].
    split; [|reflexivity]. apply (bool_decide_unpack _). vm_compute. exact I.
  - reflexivity.
Defined.


(* ===================================================================== *)
(** * The control path                                                    *)
(* ===================================================================== *)

(** ** The test of the arguments *)

Lemma wrap_range bits n : 0 < bits -> - 2 ^ (bits - 1) <= wrap bits n < 2 ^ (bits - 1).
Proof.
  intros Hb. unfold wrap.
  assert (2 ^ bits = 2 * 2 ^ (bits - 1)) as E.
  { replace bits with (Z.succ (bits - 1)) at 1 by lia. rewrite Z.pow_succ_r by lia. reflexivity. }
  pose proof (Z.mod_pos_bound (n + 2 ^ (bits - 1)) (2 ^ bits) ltac:(lia)). lia.
Qed.

Lemma wrap16_range n : -32768 <= wrap16 n <= 32767.
Proof. pose proof (wrap_range 16 n ltac:(lia)) as H. unfold wrap16. simpl in H. lia. Qed.

Lemma wrap16_period n k : wrap16 (n + 65536 * k) = wrap16 n.
Proof.
  unfold wrap16, wrap. change (2 ^ 16) with 65536.
  replace (n + 65536 * k + 2 ^ (16 - 1)) with (n + 2 ^ (16 - 1) + k * 65536) by lia.
  rewrite Z.mod_add by lia. reflexivity.
Qed.

Lemma check_args_total x argv argc_exp :
  1 <= argc_exp ->
  exists r,
    granular_check_args x argv argc_exp = Done r /\
    (r = ERR_ARG \/ 0 <= r < seeders_max x) /\
    (r <> ERR_ARG ->
     Z.of_nat (length argv) = argc_exp /\
     exists n rest, argv = A_LONG n :: rest /\ r = wrap16 n).
Proof.
  intros He. unfold granular_check_args.
  destruct (Z.eqb_spec (Z.of_nat (length argv)) argc_exp) as [E|E]; simpl.
  - destruct argv as [|a0 rest]; [simpl in E; lia|].
    change (rd (a0 :: rest) 0) with (Done a0). cbn [bind].
    destruct a0 as [n|f|s]; simpl.
    + destruct (Z.ltb_spec (wrap16 n) 0);
        [eexists; split; [reflexivity|split; [left; reflexivity|congruence]]|].
      destruct (Z.leb_spec (seeders_max x) (wrap16 n));
        [eexists; split; [reflexivity|split; [left; reflexivity|congruence]]|].
      eexists. split; [reflexivity|]. split; [right; lia|].
      intros _. split; [assumption|]. eauto.
    + eexists; split; [reflexivity|split; [left; reflexivity|congruence]].
    + eexists; split; [reflexivity|split; [left; reflexivity|congruence]].
  - eexists; split; [reflexivity|split; [left; reflexivity|congruence]].
Qed.

(** [granular_check_args], called for a method of at least one
    argument, always returns, and what it returns is [ERR_ARG] or an index of
    the seeder array. The index is the first atom cast to [t_int16], so an
    integer and the same integer plus a multiple of 65536 are treated alike.
    Anything but [ERR_ARG] means that the argument count was the expected
    one and the first atom an integer. *)
Theorem check_args_result (x : t_granular) (argv : list t_atom) (argc_exp : Z) :
  1 <= argc_exp ->
  (exists r,
     granular_check_args x argv argc_exp = Done r /\
     (r = ERR_ARG \/ 0 <= r < seeders_max x) /\
     (r <> ERR_ARG ->
      Z.of_nat (length argv) = argc_exp /\
      exists n rest, argv = A_LONG n :: rest /\ r = wrap16 n)) /\
  (forall n k rest,
     granular_check_args x (A_LONG (n + 65536 * k) :: rest) argc_exp
     = granular_check_args x (A_LONG n :: rest) argc_exp).
Proof.
  intros He. split.
  - apply check_args_total. assumption.
  - intros n k rest. unfold granular_check_args. simpl length.
    destruct (negb _); [reflexivity|].
    change (rd (A_LONG (n + 65536 * k) :: rest) 0) with (Done (A_LONG (n + 65536 * k))).
    change (rd (A_LONG n :: rest) 0) with (Done (A_LONG n)).
    cbn [bind is_A_LONG negb atom_getlong]. rewrite wrap16_period. reflexivity.
Qed.

Lemma check_args_result_example :
  (exists r,
     granular_check_args Example.object_a [A_LONG 65537] 1 = Done r /\
     (r = ERR_ARG \/ 0 <= r < seeders_max Example.object_a) /\
     (r <> ERR_ARG ->
      Z.of_nat (length [A_LONG 65537]) = 1 /\
      exists n rest, [A_LONG 65537] = A_LONG n :: rest /\ r = wrap16 n)) /\
  (forall n k rest,
     granular_check_args Example.object_a (A_LONG (n + 65536 * k) :: rest) 1
     = granular_check_args Example.object_a (A_LONG n :: rest) 1).
Proof.
  exact (check_args_result Example.object_a [A_LONG 65537] 1 ltac:(lia)).
Defined.

(** ** Messages that test their arguments, and messages that do not *)

Lemma check_args_rejects x argv argc_exp :
  (Z.of_nat (length argv) <> argc_exp \/
   exists a rest, argv = a :: rest /\
     (is_A_LONG a = false \/ wrap16 (atom_getlong a) < 0 \/
      seeders_max x <= wrap16 (atom_getlong a))) ->
  granular_check_args x argv argc_exp = Done ERR_ARG.
Proof.
  intros Hbad. unfold granular_check_args.
  destruct (Z.eqb_spec (Z.of_nat (length argv)) argc_exp) as [E|E]; simpl; [|reflexivity].
  destruct Hbad as [Hbad|(a & rest & -> & Hbad)]; [contradiction|].
  change (rd (a :: rest) 0) with (Done a). cbn [bind].
  destruct (is_A_LONG a) eqn:Ea; simpl; [|reflexivity].
  destruct (Z.ltb_spec (wrap16 (atom_getlong a)) 0); [reflexivity|].
  destruct (Z.leb_spec (seeders_max x) (wrap16 (atom_getlong a))); [reflexivity|].
  destruct Hbad as [Hbad|[Hbad|Hbad]]; [discriminate|lia|lia].
Qed.

(** X17: the four messages that call [granular_check_args] ([set_seeder],
    [seeder_on], [seeder_off], [focus]) leave the object exactly as it is
    when the number of arguments is not the documented one, when the first
    argument is not an integer, or when it is not an index of the seeder
    array. *)
Theorem checked_messages_reject `{Host} (m : message) (x : t_granular) (argv : list t_atom) :
  m = msg_set_seeder \/ m = msg_seeder_on \/ m = msg_seeder_off \/ m = msg_focus ->
  (Z.of_nat (length argv) <> arity m \/
   exists a rest, argv = a :: rest /\
     (is_A_LONG a = false \/ wrap16 (atom_getlong a) < 0 \/
      seeders_max x <= wrap16 (atom_getlong a))) ->
  dispatch m x argv = Done x.
Proof.
  intros Hm Hbad. pose proof (check_args_rejects x argv (arity m) Hbad) as Hc.
  destruct Hm as [-> | [-> | [-> | ->]]]; simpl in *.
  - unfold granular_set_seeder. destruct (negb _); [reflexivity|].
    rewrite Hc. reflexivity.
  - unfold granular_seeder_on. rewrite Hc. reflexivity.
  - unfold granular_seeder_off. rewrite Hc. reflexivity.
  - unfold granular_focus. rewrite Hc. reflexivity.
Qed.

Lemma checked_messages_reject_example :
  dispatch (H := Example.quiet_host) msg_seeder_on Example.object_a [A_LONG 3]
  = Done Example.object_a.
Proof.
  apply (checked_messages_reject (H := Example.quiet_host) msg_seeder_on Example.object_a [A_LONG 3]).
  - right. left. reflexivity.
  - right. exists (A_LONG 3), []. split; [reflexivity|]. right. right.
    change (3 <= 3). lia.
Defined.

(** X18: the eight messages that set one parameter ([ampl], [begin],
    [length], [shift], [period], [speed], [poly], [period_rand]) never look
    at the number of their arguments: whatever follows the first two atoms
    is ignored. And they index the seeder array with the first atom as it
    comes: with an index outside the array the access is outside the array
    ([poly] gets there when its count is one it accepts). *)
Theorem setters_do_not_check `{Host} (m : message) (x : t_granular) (a0 a1 : t_atom)
    (rest : list t_atom) :
  arity m = 2 ->
  dispatch m x (a0 :: a1 :: rest) = dispatch m x [a0; a1] /\
  (~ in_range (seeders_arr x) (wrap16 (atom_getlong a0)) ->
   m <> msg_poly \/ 1 <= wrap16 (trunc_int32 (atom_getfloat a1)) <= poly_max x ->
   dispatch m x (a0 :: a1 :: rest) = Fault).
Proof.
  intros Hm.
  assert (forall f, ~ in_range (seeders_arr x) (wrap16 (atom_getlong a0)) ->
                    update_seeder x (wrap16 (atom_getlong a0)) f = Fault) as Hupd.
  { intros f Hout. unfold update_seeder.
    destruct (rd (seeders_arr x) (wrap16 (atom_getlong a0))) eqn:E; try reflexivity.
    - exfalso. apply Hout. eapply rd_Done; eauto.
    - unfold rd in E. destruct (0 <=? _); [|discriminate].
      destruct (_ !! _); discriminate. }
  destruct m; simpl in Hm; try discriminate; (split; [reflexivity|]); intros Hout Hp;
    simpl; unfold granular_ampl, granular_begin, granular_length, granular_shift,
      granular_period, granular_speed, granular_poly, granular_period_rand;
    change (rd (a0 :: a1 :: rest) 0) with (Done a0);
    change (rd (a0 :: a1 :: rest) 1) with (Done a1); cbn [bind];
    try (apply Hupd; assumption).
  destruct Hp as [Hp|Hp]; [congruence|].
  destruct (Z.ltb_spec (wrap16 (trunc_int32 (atom_getfloat a1))) 1); [lia|].
  destruct (Z.ltb_spec (poly_max x) (wrap16 (trunc_int32 (atom_getfloat a1)))); [lia|].
  simpl. destruct (rd (seeders_arr x) (wrap16 (atom_getlong a0))) eqn:E; try reflexivity.
  - exfalso. apply Hout. eapply rd_Done; eauto.
  - unfold rd in E. destruct (0 <=? _); [|discriminate]. destruct (_ !! _); discriminate.
Qed.

Lemma setters_do_not_check_example :
  dispatch (H := Example.quiet_host) msg_ampl Example.object_a
    [A_LONG 3; A_FLOAT 1%float; A_LONG 7]
  = dispatch (H := Example.quiet_host) msg_ampl Example.object_a
      [A_LONG 3; A_FLOAT 1%float] /\
  (~ in_range (seeders_arr Example.object_a) (wrap16 (atom_getlong (A_LONG 3))) ->
   msg_ampl <> msg_poly \/
   1 <= wrap16 (trunc_int32 (atom_getfloat (A_FLOAT 1%float))) <= poly_max Example.object_a ->
   dispatch (H := Example.quiet_host) msg_ampl Example.object_a
     [A_LONG 3; A_FLOAT 1%float; A_LONG 7] = Fault).
Proof.
  exact (setters_do_not_check (H := Example.quiet_host) msg_ampl Example.object_a (A_LONG 3) (A_FLOAT 1%float)
           [A_LONG 7] eq_refl).
Defined.

(** ** The source window *)

(** X19: [granular_begin] on a seeder of the array. The beginning it stores
    is [(t_int32)(fraction * buff_n_frm)] put through two tests. When the
    window is not longer than the buffer ([src_len <= buff_n_frm]) the
    window ends up inside the buffer; when it is longer, the second test
    always fires and the beginning stored is [buff_n_frm - src_len], a
    negative number. (The sum of the beginning and the length is taken not
    to overflow 32 bits.) *)
Theorem begin_window (x : t_granular) (index : Z) (s : t_seeder) (a1 : t_atom) :
  rd (seeders_arr x) index = Done s -> -32768 <= index <= 32767 ->
  0 <= Seeder.src_len s <= INT32_MAX -> 0 <= Seeder.buff_n_frm s <= INT32_MAX ->
  trunc_int32 (atom_getfloat a1 * of_int (Seeder.buff_n_frm s)) + Seeder.src_len s
    <= INT32_MAX ->
  exists x' s',
    granular_begin x [A_LONG index; a1] = Done x' /\
    rd (seeders_arr x') index = Done s' /\
    Seeder.src_len s' = Seeder.src_len s /\ Seeder.buff_n_frm s' = Seeder.buff_n_frm s /\
    (Seeder.src_len s <= Seeder.buff_n_frm s ->
     0 <= Seeder.src_begin s' /\
     Seeder.src_begin s' + Seeder.src_len s' <= Seeder.buff_n_frm s') /\
    (Seeder.buff_n_frm s < Seeder.src_len s ->
     Seeder.src_begin s' = Seeder.buff_n_frm s - Seeder.src_len s /\
     Seeder.src_begin s' < 0).
Proof.
  intros Hs Hi Hlen Hfrm Hsum.
  pose proof (rd_Done _ _ _ Hs) as Hin.
  set (b := trunc_int32 (atom_getfloat a1 * of_int (Seeder.buff_n_frm s))) in *.
  unfold granular_begin.
  change (rd [A_LONG index; a1] 0) with (Done (A_LONG index)).
  change (rd [A_LONG index; a1] 1) with (Done a1). cbn [bind atom_getlong].
  rewrite wrap16_small by (unfold INT16_MAX; lia).
  unfold update_seeder. rewrite Hs. cbn [bind].
  rewrite wr_in_range by assumption. cbn [bind].
  eexists. eexists. split; [reflexivity|].
  split; [simpl; apply rd_upd_eq; assumption|].
  fold b. unfold clamp_begin. cbn [Seeder.src_begin Seeder.set_src_begin].
  destruct (Z.ltb_spec b 0) as [Hb|Hb];
    cbn [Seeder.src_begin Seeder.src_len Seeder.buff_n_frm Seeder.set_src_begin].
  - rewrite (wrap32_small (0 + Seeder.src_len s)) by (unfold INT32_MIN, INT32_MAX in *; lia).
    destruct (Z.ltb_spec (Seeder.buff_n_frm s) (0 + Seeder.src_len s)) as [Hc|Hc];
      cbn [Seeder.src_begin Seeder.src_len Seeder.buff_n_frm Seeder.set_src_begin].
    + rewrite wrap32_small by (unfold INT32_MIN, INT32_MAX in *; lia).
      repeat split; lia.
    + repeat split; lia.
  - rewrite (wrap32_small (b + Seeder.src_len s)) by (unfold INT32_MIN, INT32_MAX in *; lia).
    destruct (Z.ltb_spec (Seeder.buff_n_frm s) (b + Seeder.src_len s)) as [Hc|Hc];
      cbn [Seeder.src_begin Seeder.src_len Seeder.buff_n_frm Seeder.set_src_begin].
    + rewrite wrap32_small by (unfold INT32_MIN, INT32_MAX in *; lia).
      repeat split; lia.
    + repeat split; lia.
Qed.

Lemma begin_window_example :
  exists x' s',
    granular_begin Example.object_a [A_LONG 1; A_FLOAT 0x1p-1%float] = Done x' /\
    rd (seeders_arr x') 1 = Done s' /\
    Seeder.src_len s' = Seeder.src_len Example.seeder_b /\
    Seeder.buff_n_frm s' = Seeder.buff_n_frm Example.seeder_b /\
    (Seeder.src_len Example.seeder_b <= Seeder.buff_n_frm Example.seeder_b ->
     0 <= Seeder.src_begin s' /\
     Seeder.src_begin s' + Seeder.src_len s' <= Seeder.buff_n_frm s') /\
    (Seeder.buff_n_frm Example.seeder_b < Seeder.src_len Example.seeder_b ->
     Seeder.src_begin s' = Seeder.buff_n_frm Example.seeder_b - Seeder.src_len Example.seeder_b /\
     Seeder.src_begin s' < 0).
Proof.
  apply (begin_window Example.object_a 1 Example.seeder_b (A_FLOAT 0x1p-1%float)).
  - reflexivity.
  - lia.
  - change (0 <= 4800 <= 2147483647). lia.
  - change (0 <= 16 <= 2147483647). lia.
  - change (8 + 4800 <= 2147483647). lia.
Defined.

(** ** The streams of a seeder *)

Lemma set_period_cntd_same s : Seeder.set_period_cntd (Seeder.period_cntd s) s = s.
Proof. destruct s. reflexivity. Qed.

Lemma spread_streams_spec cnt : forall i s,
  0 <= i -> i + Z.of_nat cnt <= Z.of_nat (length (Seeder.period_cntd s)) ->
  exists c',
    spread_streams cnt i s = Done (Seeder.set_period_cntd c' s) /\
    length c' = length (Seeder.period_cntd s) /\
    (forall j, i <= j < i + Z.of_nat cnt ->
       rd c' j = Done (Z.quot (wrap32 (j * Seeder.period_len s)) (Seeder.poly_cnt s))) /\
    (forall j, ~ (i <= j < i + Z.of_nat cnt) -> rd c' j = rd (Seeder.period_cntd s) j).
Proof.
  induction cnt as [|cnt IH]; intros i s Hi Hlen.
  - exists (Seeder.period_cntd s). simpl. rewrite set_period_cntd_same.
    split; [reflexivity|]. split; [reflexivity|]. split; [intros j Hj; lia|]. reflexivity.
  - simpl. rewrite wr_in_range by (unfold in_range; lia). cbn [bind].
    set (c1 := upd (Seeder.period_cntd s) i _).
    destruct (IH (i + 1) (Seeder.set_period_cntd c1 s)) as (c' & Hrun & Hl & Hin & Hout).
    { lia. }
    { simpl. unfold c1. rewrite length_upd. lia. }
    exists c'. simpl in *. split; [exact Hrun|].
    split; [rewrite Hl; unfold c1; apply length_upd|]. split.
    + intros j Hj. destruct (Z.eq_dec j i) as [->|Hne].
      * rewrite Hout by lia. unfold c1. apply rd_upd_eq. unfold in_range. lia.
      * apply Hin. lia.
    + intros j Hj. rewrite Hout by lia. unfold c1. apply rd_upd_ne; lia.
Qed.

(** X20: [granular_poly] on a seeder of the array. A count [n] between 1 and
    [POLY_MAX] is stored and the countdowns of the streams are spread over
    one period: stream [i < n] gets [i * period_len / n] (stream 0 starts
    over at 0), the countdowns of the other streams stay as they are. Any
    other count, given as a float and cut down to a [t_int16], changes
    nothing. *)
Theorem poly_spreads_streams (x : t_granular) (index : Z) (s : t_seeder) (a1 : t_atom) :
  rd (seeders_arr x) index = Done s -> -32768 <= index <= 32767 ->
  poly_max x = POLY_MAX ->
  Z.of_nat (length (Seeder.period_cntd s)) = POLY_MAX ->
  0 <= Seeder.period_len s -> (POLY_MAX - 1) * Seeder.period_len s <= INT32_MAX ->
  let n := wrap16 (trunc_int32 (atom_getfloat a1)) in
  (1 <= n <= POLY_MAX ->
   exists x' s',
     granular_poly x [A_LONG index; a1] = Done x' /\
     rd (seeders_arr x') index = Done s' /\
     Seeder.poly_cnt s' = n /\
     (forall i, 0 <= i < n ->
        rd (Seeder.period_cntd s') i = Done (i * Seeder.period_len s / n)) /\
     (forall i, n <= i -> rd (Seeder.period_cntd s') i = rd (Seeder.period_cntd s) i) /\
     s' = Seeder.set_period_cntd (Seeder.period_cntd s') (Seeder.set_poly_cnt n s)) /\
  (~ (1 <= n <= POLY_MAX) -> granular_poly x [A_LONG index; a1] = Done x).
Proof.
  intros Hs Hi Hmax Hlen HP HPmax n.
  pose proof (rd_Done _ _ _ Hs) as Hin.
  unfold granular_poly.
  change (rd [A_LONG index; a1] 0) with (Done (A_LONG index)).
  change (rd [A_LONG index; a1] 1) with (Done a1). cbn [bind atom_getlong].
  rewrite (wrap16_small index) by (unfold INT16_MAX; lia). fold n. rewrite Hmax.
  split.
  - intros Hn.
    destruct (Z.ltb_spec n 1); [lia|]. destruct (Z.ltb_spec POLY_MAX n); [lia|].
    cbn [orb]. rewrite Hs. cbn [bind]. cbn [Seeder.poly_cnt Seeder.set_poly_cnt].
    destruct (spread_streams_spec (Z.to_nat n) 0 (Seeder.set_poly_cnt n s))
      as (c' & Hrun & Hl & Hin' & Hout); [lia|simpl; lia|].
    rewrite Hrun. cbn [bind]. rewrite wr_in_range by assumption. cbn [bind].
    eexists. eexists. split; [reflexivity|].
    split; [simpl; apply rd_upd_eq; assumption|].
    split; [reflexivity|]. simpl in *. split; [|split; [|reflexivity]].
    + intros i Hi'. rewrite Hin' by lia. f_equal.
      assert (0 <= i * Seeder.period_len s <= INT32_MAX) as Hb.
      { unfold POLY_MAX in *. split; [nia|]. nia. }
      rewrite wrap32_small by (unfold INT32_MIN, INT32_MAX in *; lia).
      apply Z.quot_div_nonneg; lia.
    + intros i Hi'. apply Hout. lia.
  - intros Hn.
    assert ((n <? 1) || (POLY_MAX <? n) = true) as ->; [|reflexivity].
    destruct (Z.ltb_spec n 1); [reflexivity|].
    destruct (Z.ltb_spec POLY_MAX n); [reflexivity|]. lia.
Qed.

Lemma poly_spreads_streams_example :
  (1 <= wrap16 (trunc_int32 (atom_getfloat (A_FLOAT 3%float))) <= POLY_MAX ->
   exists x' s',
     granular_poly Example.object_a [A_LONG 1; A_FLOAT 3%float] = Done x' /\
     rd (seeders_arr x') 1 = Done s' /\
     Seeder.poly_cnt s' = 3 /\
     (forall i, 0 <= i < 3 ->
        rd (Seeder.period_cntd s') i = Done (i * Seeder.period_len Example.seeder_b / 3)) /\
     (forall i, 3 <= i ->
        rd (Seeder.period_cntd s') i = rd (Seeder.period_cntd Example.seeder_b) i) /\
     s' = Seeder.set_period_cntd (Seeder.period_cntd s')
            (Seeder.set_poly_cnt 3 Example.seeder_b)) /\
  (~ (1 <= wrap16 (trunc_int32 (atom_getfloat (A_FLOAT 3%float))) <= POLY_MAX) ->
   granular_poly Example.object_a [A_LONG 1; A_FLOAT 3%float] = Done Example.object_a).
Proof.
  apply (poly_spreads_streams Example.object_a 1 Example.seeder_b (A_FLOAT 3%float)).
  - reflexivity.
  - lia.
  - reflexivity.
  - reflexivity.
  - change (0 <= 2400). lia.
  - change ((10 - 1) * 2400 <= 2147483647). lia.
Defined.


(* ===================================================================== *)
(** * The seeder registry                                                 *)
(* ===================================================================== *)

Lemma registry_wf_lists x :
  registry_wf x -> exists us es, registry x us es.
Proof.
  intros (us & es & Hu & He & Hp & Hl & Ha & Hs & Hc & Hm & Hf).
  exists us, es. split; [|auto 10].
  split; try (eapply indices_from_chain; eassumption); rewrite Hl; assumption.
Qed.

Lemma registry_lists_wf x us es : registry x us es -> registry_wf x.
Proof.
  intros (Hr & Hl & Hs & Hc & Hm & Hf). exists us, es.
  split; [eapply repr_used_indices; eauto|].
  split; [eapply repr_empty_indices; eauto|].
  split; [rewrite <- Hl; apply (repr_perm _ _ _ Hr)|].
  split; [assumption|].
  split; [rewrite <- Hl; apply (repr_cells _ _ _ Hr)|]. auto.
Qed.

Lemma registry_used x us es us' :
  registry x us es -> used_indices (seeders_list x) = Done us' -> us' = us.
Proof.
  intros (Hr & _) Hu. rewrite (repr_used_indices _ _ _ Hr) in Hu. congruence.
Qed.

(** An index of the registry is in one of its two lists, and names a seeder. *)
Lemma registry_index x us es i :
  registry x us es -> 0 <= i < seeders_max x ->
  i ∈ us ++ es /\ exists s, rd (seeders_arr x) i = Done s.
Proof.
  intros (Hr & Hl & Hs & _) Hi. split.
  - rewrite (repr_perm _ _ _ Hr). apply elem_of_seqZ. lia.
  - apply rd_in_range. unfold in_range. lia.
Qed.

Lemma registry_count x us es : registry x us es -> 0 <= seeders_cnt x <= seeders_max x.
Proof.
  intros (Hr & Hl & _ & Hc & _).
  destruct (perm_seqZ_facts _ _ _ (repr_perm _ _ _ Hr)) as (_ & _ & Hsum).
  destruct (heads_fresh _ _ _ Hr) as (_ & _ & _ & _ & Hfu & _).
  unfold in_range, first_used in Hfu. rewrite Hl in Hsum, Hfu. lia.
Qed.

Lemma set_is_on_same s : Seeder.set_is_on (Seeder.is_on s) s = s.
Proof. destruct s. reflexivity. Qed.

(** ** Switching one seeder on or off *)

(** What [granular_seeder_on] does once its tests are passed. *)
Lemma seeder_on_step x us es i s :
  registry x us es -> rd (seeders_arr x) i = Done s -> Seeder.is_on s = false ->
  exists pre post l',
    es = pre ++ i :: post /\
    list_insert_index (seeders_list x) i = Done (l', i) /\ i <> LIST_END /\
    wrap16 (seeders_cnt x + 1) = seeders_cnt x + 1 /\
    registry
      (set_seeders_arr (upd (seeders_arr x) i (Seeder.set_is_on true s))
         (set_seeders_active (seeders_cnt x + 1) l' x))
      (i :: us) (pre ++ post).
Proof.
  intros Hreg Hs Hoff. pose proof Hreg as (Hr & Hl & Hlen & Hc & Hm & Hf).
  pose proof (rd_Done _ _ _ Hs) as Hin.
  assert (i ∉ us) as Hni.
  { intros Hi. apply (Hf i s Hs) in Hi. congruence. }
  destruct (registry_index x us es i Hreg ltac:(unfold in_range in Hin; lia)) as (Hmem & _).
  assert (i ∈ es) as Hie by (apply elem_of_app in Hmem as [?|?]; [contradiction|assumption]).
  destruct (list_insert_index_spec _ _ _ i Hr)
    as [(Hno & _)|(pre & post & l' & -> & Hrun & Hr' & Hl')]; [contradiction|].
  pose proof (registry_count _ _ _ Hreg) as Hcnt.
  exists pre, post, l'. split; [reflexivity|]. split; [assumption|].
  split; [unfold LIST_END; unfold in_range in Hin; lia|].
  assert (Z.of_nat (length us) < seeders_max x) as Hroom.
  { destruct (perm_seqZ_facts _ _ _ (repr_perm _ _ _ Hr)) as (_ & _ & Hsum).
    rewrite Hl in Hsum. rewrite length_app in Hsum. simpl in Hsum. lia. }
  split; [apply wrap16_small; unfold INT16_MAX in *; lia|].
  split; [exact Hr'|]. simpl.
  split; [lia|]. split; [rewrite length_upd; assumption|].
  split; [lia|]. split; [assumption|].
  intros j sj Hj. destruct (Z.eq_dec j i) as [->|Hne].
  - rewrite rd_upd_eq in Hj by assumption. injection Hj as <-. simpl.
    split; [intros _; left|reflexivity].
  - rewrite rd_upd_ne in Hj by (unfold in_range in Hin; lia).
    rewrite (Hf j sj Hj). split; [intros ?; right; assumption|].
    intros Hin'. apply elem_of_cons in Hin' as [?|?]; [contradiction|assumption].
Qed.

(** What [granular_seeder_off] does once its tests are passed. *)
Lemma seeder_off_step x us es i s :
  registry x us es -> rd (seeders_arr x) i = Done s -> Seeder.is_on s = true ->
  exists pre post l',
    us = pre ++ i :: post /\
    list_remove_index (seeders_list x) i = Done (l', i) /\ i <> LIST_END /\
    wrap16 (seeders_cnt x - 1) = seeders_cnt x - 1 /\
    registry
      (set_seeders_arr (upd (seeders_arr x) i (Seeder.set_is_on false s))
         (set_seeders_active (seeders_cnt x - 1) l' x))
      (pre ++ post) (i :: es).
Proof.
  intros Hreg Hs Hon. pose proof Hreg as (Hr & Hl & Hlen & Hc & Hm & Hf).
  pose proof (rd_Done _ _ _ Hs) as Hin.
  assert (i ∈ us) as Hiu by (apply (Hf i s Hs); assumption).
  destruct (list_remove_index_spec _ _ _ i Hr)
    as [(Hno & _)|(pre & post & l' & -> & Hrun & Hr' & Hl')]; [contradiction|].
  pose proof (registry_count _ _ _ Hreg) as Hcnt.
  exists pre, post, l'. split; [reflexivity|]. split; [assumption|].
  split; [unfold LIST_END; unfold in_range in Hin; lia|].
  rewrite length_app in Hc. simpl in Hc.
  split; [apply wrap16_small; unfold INT16_MAX in *; lia|].
  split; [exact Hr'|]. simpl.
  split; [lia|]. split; [rewrite length_upd; assumption|].
  split; [rewrite length_app; lia|]. split; [assumption|].
  destruct (heads_fresh _ _ _ Hr) as (Hnd & _).
  apply NoDup_app in Hnd as (Hnd & _ & _).
  assert (i ∉ pre ++ post) as Hfresh.
  { apply NoDup_app in Hnd as (_ & Hdis & Hnd2). apply NoDup_cons in Hnd2 as (Hn2 & _).
    intros Hx. apply elem_of_app in Hx as [Hx|Hx]; [|contradiction].
    apply (Hdis i Hx). left. }
  intros j sj Hj. destruct (Z.eq_dec j i) as [->|Hne].
  - rewrite rd_upd_eq in Hj by assumption. injection Hj as <-. simpl.
    split; [discriminate|intros ?; contradiction].
  - rewrite rd_upd_ne in Hj by (unfold in_range in Hin; lia).
    rewrite (Hf j sj Hj). clear - Hne. set_solver.
Qed.

Lemma check_args_cases x argv argc_exp :
  1 <= argc_exp ->
  granular_check_args x argv argc_exp = Done ERR_ARG \/
  exists i, granular_check_args x argv argc_exp = Done i /\ 0 <= i < seeders_max x.
Proof.
  intros He. destruct (check_args_total x argv argc_exp He) as (r & Hr & [->|Hi] & _).
  - left. assumption.
  - right. eauto.
Qed.

(** X21: [granular_seeder_on] and [granular_seeder_off] keep the registry in
    order whatever their arguments: the active list stays a list of distinct
    seeder indices, [seeders_cnt] its length, and a seeder is in it exactly
    when its [is_on] flag is set. A seeder whose buffer is not ready is never
    switched on. *)
Theorem seeder_on_off_keep_registry (x : t_granular) (argv : list t_atom) :
  registry_wf x ->
  (exists x', granular_seeder_on x argv = Done x' /\ registry_wf x') /\
  (exists x', granular_seeder_off x argv = Done x' /\ registry_wf x') /\
  (forall n s, rd (seeders_arr x) (wrap16 n) = Done s ->
     Seeder.buff_state s <> BUFF_READY -> granular_seeder_on x [A_LONG n] = Done x).
Proof.
  intros Hwf. destruct (registry_wf_lists _ Hwf) as (us & es & Hreg).
  split; [|split].
  - unfold granular_seeder_on.
    destruct (check_args_cases x argv 1 ltac:(lia)) as [->|(i & -> & Hi)]; cbn [bind].
    { simpl. eauto. }
    destruct (Z.eqb_spec i ERR_ARG); [eauto|].
    destruct (registry_index _ _ _ i Hreg Hi) as (_ & s & Hs). rewrite Hs. cbn [bind].
    destruct (Seeder.is_on s) eqn:Eon; [eauto|].
    destruct (Seeder.buff_state s =? BUFF_NO_FILE); [eauto|].
    destruct (Seeder.buff_state s =? BUFF_READY); simpl; [|eauto].
    destruct (seeder_on_step x us es i s Hreg Hs Eon)
      as (pre & post & l' & _ & Hrun & Hne & Hw & Hreg').
    rewrite Hrun. cbn [bind]. destruct (Z.eqb_spec i LIST_END); [contradiction|].
    cbn [seeders_cnt set_seeders_active]. rewrite Hw.
    unfold update_seeder. cbn [seeders_arr set_seeders_active]. rewrite Hs. cbn [bind].
    rewrite wr_in_range by (eapply rd_Done; eauto). cbn [bind].
    eexists. split; [reflexivity|]. eapply registry_lists_wf. exact Hreg'.
  - unfold granular_seeder_off.
    destruct (check_args_cases x argv 1 ltac:(lia)) as [->|(i & -> & Hi)]; cbn [bind].
    { simpl. eauto. }
    destruct (Z.eqb_spec i ERR_ARG); [eauto|].
    destruct (registry_index _ _ _ i Hreg Hi) as (_ & s & Hs). rewrite Hs. cbn [bind].
    destruct (Seeder.is_on s) eqn:Eon; simpl; [|eauto].
    destruct (seeder_off_step x us es i s Hreg Hs Eon)
      as (pre & post & l' & _ & Hrun & Hne & Hw & Hreg').
    rewrite Hrun. cbn [bind]. destruct (Z.eqb_spec i LIST_END); [contradiction|].
    cbn [seeders_cnt set_seeders_active]. rewrite Hw.
    unfold update_seeder. cbn [seeders_arr set_seeders_active]. rewrite Hs. cbn [bind].
    rewrite wr_in_range by (eapply rd_Done; eauto). cbn [bind].
    eexists. split; [reflexivity|]. eapply registry_lists_wf. exact Hreg'.
  - intros n s Hs Hst. unfold granular_seeder_on, granular_check_args.
    simpl length. change (Z.of_nat 1 =? 1) with true. cbn [negb].
    change (rd [A_LONG n] 0) with (Done (A_LONG n)). cbn [bind is_A_LONG negb atom_getlong].
    destruct (wrap16 n <? 0); [reflexivity|].
    destruct (seeders_max x <=? wrap16 n); [reflexivity|]. cbn [bind].
    destruct (Z.eqb_spec (wrap16 n) ERR_ARG); [reflexivity|].
    rewrite Hs. cbn [bind]. destruct (Seeder.is_on s); [reflexivity|].
    destruct (Seeder.buff_state s =? BUFF_NO_FILE); [reflexivity|].
    destruct (Z.eqb_spec (Seeder.buff_state s) BUFF_READY); [contradiction|reflexivity].
Qed.

(** The registry of the example object is in order. *)
Lemma object_a_registry_wf : registry_wf Example.object_a.
Proof.
  exists [0], [1; 2]. split; [reflexivity|]. split; [reflexivity|].
  split; [apply (bool_decide_unpack _); vm_compute; exact I|].
  split; [reflexivity|]. split; [reflexivity|]. split; [reflexivity|].
  split; [reflexivity|]. split; [unfold INT16_MAX; simpl; lia|].
  intros i s Hi.
  assert (i = 0 \/ i = 1 \/ i = 2) as Hcase.
  { apply rd_Done in Hi. unfold in_range in Hi. simpl in Hi. lia. }
  destruct Hcase as [-> | [-> | ->]]; injection Hi as <-; simpl;
    (split; [intros E; try discriminate; set_solver|]);
    intros Hin; try reflexivity; exfalso; clear - Hin; set_solver.
Qed.

Lemma seeder_on_off_keep_registry_example :
  (exists x', granular_seeder_on Example.object_a [A_LONG 1] = Done x' /\ registry_wf x') /\
  (exists x', granular_seeder_off Example.object_a [A_LONG 1] = Done x' /\ registry_wf x') /\
  (forall n s, rd (seeders_arr Example.object_a) (wrap16 n) = Done s ->
     Seeder.buff_state s <> BUFF_READY ->
     granular_seeder_on Example.object_a [A_LONG n] = Done Example.object_a).
Proof.
  exact (seeder_on_off_keep_registry Example.object_a [A_LONG 1] object_a_registry_wf).
Defined.

(** X22: [seeder_on] followed by [seeder_off]. On a seeder of the array that
    is off and whose buffer is ready, [seeder_on] puts its index at the head
    of the active list, counts it and sets its flag; [seeder_off] on the same
    index then takes all three back: the active list, the counter and the
    seeder array are what they were. *)
Theorem seeder_on_then_off (x : t_granular) (n : Z) (s : t_seeder) (us : list Z) :
  registry_wf x -> used_indices (seeders_list x) = Done us ->
  rd (seeders_arr x) (wrap16 n) = Done s ->
  Seeder.is_on s = false -> Seeder.buff_state s = BUFF_READY ->
  exists x1 x2,
    granular_seeder_on x [A_LONG n] = Done x1 /\
    used_indices (seeders_list x1) = Done (wrap16 n :: us) /\
    seeders_cnt x1 = seeders_cnt x + 1 /\
    seeders_arr x1 = upd (seeders_arr x) (wrap16 n) (Seeder.set_is_on true s) /\
    granular_seeder_off x1 [A_LONG n] = Done x2 /\
    used_indices (seeders_list x2) = Done us /\
    seeders_cnt x2 = seeders_cnt x /\ seeders_arr x2 = seeders_arr x /\
    registry_wf x2.
Proof.
  intros Hwf Hu Hs Hoff Hready.
  destruct (registry_wf_lists _ Hwf) as (us0 & es & Hreg).
  pose proof (registry_used _ _ _ _ Hreg Hu) as ->.
  pose proof (rd_Done _ _ _ Hs) as Hin.
  assert (0 <= wrap16 n < seeders_max x) as Hi.
  { destruct Hreg as (_ & _ & Hlen & _). unfold in_range in Hin. lia. }
  assert (forall y, seeders_max y = seeders_max x ->
            granular_check_args y [A_LONG n] 1 = Done (wrap16 n)) as Hcheck.
  { intros y Hy. unfold granular_check_args. simpl length.
    change (Z.of_nat 1 =? 1) with true. cbn [negb].
    change (rd [A_LONG n] 0) with (Done (A_LONG n)).
    cbn [bind is_A_LONG negb atom_getlong]. rewrite Hy.
    destruct (Z.ltb_spec (wrap16 n) 0); [lia|].
    destruct (Z.leb_spec (seeders_max x) (wrap16 n)); [lia|]. reflexivity. }
  destruct (seeder_on_step x us0 es (wrap16 n) s Hreg Hs Hoff)
    as (pre & post & l1 & Hes & Hrun1 & Hne & Hw1 & Hreg1).
  set (x1 := set_seeders_arr (upd (seeders_arr x) (wrap16 n) (Seeder.set_is_on true s))
               (set_seeders_active (seeders_cnt x + 1) l1 x)) in *.
  assert (rd (seeders_arr x1) (wrap16 n) = Done (Seeder.set_is_on true s)) as Hs1
    by (unfold x1; simpl; apply rd_upd_eq; assumption).
  destruct (seeder_off_step x1 (wrap16 n :: us0) (pre ++ post) (wrap16 n)
              (Seeder.set_is_on true s) Hreg1 Hs1 eq_refl)
    as (pre2 & post2 & l2 & Hus & Hrun2 & _ & Hw2 & Hreg2).
  assert (pre2 = [] /\ post2 = us0) as (-> & ->).
  { destruct Hreg1 as (Hr1 & _). destruct (heads_fresh _ _ _ Hr1) as (Hnd & _).
    apply NoDup_app in Hnd as (Hnd & _ & _).
    destruct pre2 as [|p pre2]; simpl in Hus.
    - injection Hus as <-. auto.
    - injection Hus as <- Hus. exfalso. apply NoDup_cons in Hnd as (Hni & _).
      apply Hni. rewrite Hus. set_solver. }
  exists x1. eexists.
  split.
  { unfold granular_seeder_on. rewrite Hcheck by reflexivity. cbn [bind].
    destruct (Z.eqb_spec (wrap16 n) ERR_ARG) as [E|_]; [unfold ERR_ARG in E; lia|].
    rewrite Hs. cbn [bind]. rewrite Hoff, Hready.
    change (BUFF_READY =? BUFF_NO_FILE) with false.
    change (BUFF_READY =? BUFF_READY) with true. cbn [negb].
    rewrite Hrun1. cbn [bind]. destruct (Z.eqb_spec (wrap16 n) LIST_END); [contradiction|].
    cbn [seeders_cnt set_seeders_active]. rewrite Hw1.
    unfold update_seeder. cbn [seeders_arr set_seeders_active]. rewrite Hs. cbn [bind].
    rewrite wr_in_range by assumption. cbn [bind]. reflexivity. }
  split; [destruct Hreg1 as (Hr1 & _); apply (repr_used_indices _ _ _ Hr1)|].
  split; [reflexivity|]. split; [reflexivity|].
  split.
  { unfold granular_seeder_off. rewrite Hcheck by reflexivity. cbn [bind].
    destruct (Z.eqb_spec (wrap16 n) ERR_ARG) as [E|_]; [unfold ERR_ARG in E; lia|].
    rewrite Hs1. cbn [bind]. cbn [Seeder.is_on Seeder.set_is_on negb].
    rewrite Hrun2. cbn [bind]. destruct (Z.eqb_spec (wrap16 n) LIST_END); [contradiction|].
    cbn [seeders_cnt set_seeders_active]. rewrite Hw2.
    unfold update_seeder. cbn [seeders_arr set_seeders_active]. rewrite Hs1. cbn [bind].
    rewrite wr_in_range by (eapply rd_Done; eauto). cbn [bind]. reflexivity. }
  split; [destruct Hreg2 as (Hr2 & _); apply (repr_used_indices _ _ _ Hr2)|].
  split; [unfold x1; simpl; lia|].
  split; [|eapply registry_lists_wf; exact Hreg2].
  unfold x1. simpl. unfold upd. rewrite list_insert_insert_eq.
  replace (Seeder.set_is_on false (Seeder.set_is_on true s)) with s
    by (destruct s; simpl in Hoff; subst; reflexivity).
  apply list_insert_id. unfold rd in Hs.
  destruct (0 <=? wrap16 n); [|discriminate].
  destruct (seeders_arr x !! Z.to_nat (wrap16 n)); [congruence|discriminate].
Qed.

Lemma seeder_on_then_off_example :
  exists x1 x2,
    granular_seeder_on Example.object_a [A_LONG 1] = Done x1 /\
    used_indices (seeders_list x1) = Done (wrap16 1 :: [0]) /\
    seeders_cnt x1 = seeders_cnt Example.object_a + 1 /\
    seeders_arr x1
    = upd (seeders_arr Example.object_a) (wrap16 1) (Seeder.set_is_on true Example.seeder_b) /\
    granular_seeder_off x1 [A_LONG 1] = Done x2 /\
    used_indices (seeders_list x2) = Done [0] /\
    seeders_cnt x2 = seeders_cnt Example.object_a /\
    seeders_arr x2 = seeders_arr Example.object_a /\
    registry_wf x2.
Proof.
  exact (seeder_on_then_off Example.object_a 1 Example.seeder_b [0]
           object_a_registry_wf eq_refl eq_refl eq_refl eq_refl).
Defined.

(** ** Switching every seeder off or on *)

Lemma registry_switch_off x pre i post es s l' :
  registry x (pre ++ i :: post) es -> rd (seeders_arr x) i = Done s ->
  repr l' (pre ++ post) (i :: es) -> len l' = len (seeders_list x) ->
  registry
    (set_seeders_arr (upd (seeders_arr x) i (Seeder.set_is_on false s))
       (set_seeders_active (seeders_cnt x - 1) l' x))
    (pre ++ post) (i :: es).
Proof.
  intros (Hr & Hl & Hlen & Hc & Hm & Hf) Hs Hr' Hl'.
  pose proof (rd_Done _ _ _ Hs) as Hin.
  rewrite length_app in Hc. simpl in Hc.
  split; [exact Hr'|]. simpl.
  split; [lia|]. split; [rewrite length_upd; assumption|].
  split; [rewrite length_app; lia|]. split; [assumption|].
  destruct (heads_fresh _ _ _ Hr) as (Hnd & _).
  apply NoDup_app in Hnd as (Hnd & _ & _).
  assert (i ∉ pre ++ post) as Hfresh.
  { apply NoDup_app in Hnd as (_ & Hdis & Hnd2). apply NoDup_cons in Hnd2 as (Hn2 & _).
    intros Hx. apply elem_of_app in Hx as [Hx|Hx]; [|contradiction].
    apply (Hdis i Hx). left. }
  intros j sj Hj. destruct (Z.eq_dec j i) as [->|Hne].
  - rewrite rd_upd_eq in Hj by assumption. injection Hj as <-. simpl.
    split; [discriminate|intros ?; contradiction].
  - rewrite rd_upd_ne in Hj by (unfold in_range in Hin; lia).
    rewrite (Hf j sj Hj). clear - Hne. set_solver.
Qed.

Lemma set_is_on_twice b c s :
  Seeder.set_is_on b (Seeder.set_is_on c s) = Seeder.set_is_on b s.
Proof. reflexivity. Qed.

Lemma map_upd_absorb {A : Type} (f : A -> A) (a : list A) i s :
  rd a i = Done s -> (forall y, f (f y) = f y) -> map f (upd a i (f s)) = map f a.
Proof.
  intros Hs Hf. unfold upd. rewrite list_fmap_insert. rewrite Hf.
  apply list_insert_id. rewrite list_lookup_fmap.
  unfold rd in Hs. destruct (0 <=? i); [|discriminate].
  destruct (a !! Z.to_nat i); [|discriminate]. injection Hs as ->. reflexivity.
Qed.

(** The loop of [granular_all_off], one active seeder after the other. *)
Lemma all_off_loop us : forall fuel x es,
  registry x us es -> (length us <= fuel)%nat ->
  exists x',
    while_loop fuel all_off_cond all_off_body x = Done x' /\
    registry x' [] (rev us ++ es) /\
    seeders_arr x' = map (Seeder.set_is_on false) (seeders_arr x) /\
    grains_list x' = grains_list x /\ grains_arr x' = grains_arr x /\
    grains_cnt x' = grains_cnt x /\ seeders_foc x' = seeders_foc x /\
    seeders_max x' = seeders_max x.
Proof.
  induction us as [|u us IH]; intros fuel x es Hreg Hfuel.
  - exists x. pose proof Hreg as (Hr & _ & _ & _ & _ & Hf).
    pose proof (repr_used _ _ _ Hr) as Hc. inversion Hc as [? Hend|]; subst.
    split.
    { destruct fuel; simpl; unfold all_off_cond; rewrite Hend; reflexivity. }
    split; [exact Hreg|]. split; [|auto 10].
    symmetry. apply list_eq. intros k. rewrite list_lookup_fmap.
    destruct (seeders_arr x !! k) as [s|] eqn:E; [|reflexivity]. simpl. f_equal.
    assert (rd (seeders_arr x) (Z.of_nat k) = Done s) as Hs.
    { unfold rd. destruct (Z.leb_spec 0 (Z.of_nat k)); [|lia]. rewrite Nat2Z.id, E. reflexivity. }
    pose proof (Hf _ _ Hs) as Hiff.
    destruct (Seeder.is_on s) eqn:Eon.
    + exfalso. destruct Hiff as [Hiff _]. specialize (Hiff eq_refl). set_solver.
    + rewrite <- Eon. apply set_is_on_same.
  - destruct fuel as [|fuel]; [simpl in Hfuel; lia|].
    pose proof Hreg as (Hr & Hl & Hlen & Hc & Hm & Hf).
    pose proof (repr_used _ _ _ Hr) as Hch.
    inversion Hch as [|? ? ? Hrd Hend _]; subst.
    destruct (heads_fresh _ _ _ Hr) as (_ & _ & _ & _ & _ & _ & Hrange).
    assert (in_range (seeders_arr x) u) as Hin.
    { specialize (Hrange u ltac:(set_solver)). unfold in_range. lia. }
    destruct (rd_in_range _ _ Hin) as [s Hs].
    destruct (list_remove_node_spec (seeders_list x) [] u us es (first_used (seeders_list x))
                Hr (path_here _ _)) as (l' & Hrun & Hr' & Hl').
    pose proof (registry_switch_off x [] u us es s l' Hreg Hs Hr' Hl') as Hreg1.
    pose proof (registry_count _ _ _ Hreg) as Hcnt.
    assert (wrap16 (seeders_cnt x - 1) = seeders_cnt x - 1) as Hw.
    { simpl in Hc. apply wrap16_small. unfold INT16_MAX in *. lia. }
    set (x1 := set_seeders_arr (upd (seeders_arr x) u (Seeder.set_is_on false s))
                 (set_seeders_active (seeders_cnt x - 1) l' x)) in *.
    destruct (IH fuel x1 (u :: es) Hreg1 ltac:(simpl in Hfuel; lia))
      as (x' & Hloop & Hreg' & Harr & Hg1 & Hg2 & Hg3 & Hg4 & Hg5).
    exists x'. split.
    { simpl. unfold all_off_cond at 1. rewrite Hrd. cbn [bind].
      destruct (Z.eqb_spec u LIST_END); [contradiction|]. cbn [negb].
      unfold all_off_body at 1. rewrite Hrd. cbn [bind]. rewrite Hw.
      unfold update_seeder. cbn [seeders_arr set_seeders_active]. rewrite Hs. cbn [bind].
      rewrite wr_in_range by assumption. cbn [bind].
      cbn [seeders_list set_seeders_arr set_seeders_active].
      rewrite Hrun. cbn [bind]. exact Hloop. }
    split; [simpl; rewrite <- app_assoc; exact Hreg'|].
    split; [|unfold x1 in *; simpl in *; auto 10].
    rewrite Harr. unfold x1. simpl. apply map_upd_absorb; [assumption|reflexivity].
Qed.

(** X23: [granular_all_off] empties the active list: it ends, every seeder
    is off afterwards and is otherwise what it was, [seeders_cnt] is 0, the
    registry is in order, and the grain pool is not touched. *)
Theorem all_off_empties_registry (x : t_granular) :
  registry_wf x ->
  exists x',
    granular_all_off x = Done x' /\ registry_wf x' /\
    used_indices (seeders_list x') = Done [] /\ seeders_cnt x' = 0 /\
    seeders_arr x' = map (Seeder.set_is_on false) (seeders_arr x) /\
    grains_list x' = grains_list x /\ grains_arr x' = grains_arr x /\
    grains_cnt x' = grains_cnt x.
Proof.
  intros Hwf. destruct (registry_wf_lists _ Hwf) as (us & es & Hreg).
  destruct (all_off_loop us (budget (seeders_list x)) x es Hreg)
    as (x' & Hloop & Hreg' & Harr & Hg1 & Hg2 & Hg3 & _).
  { destruct Hreg as (Hr & _). eapply repr_budget_used; eauto. }
  exists x'. split; [exact Hloop|]. split; [eapply registry_lists_wf; eauto|].
  pose proof Hreg' as (Hr' & _ & _ & Hc' & _).
  split; [apply (repr_used_indices _ _ _ Hr')|]. auto 10.
Qed.

Lemma all_off_empties_registry_example :
  exists x',
    granular_all_off Example.object_a = Done x' /\ registry_wf x' /\
    used_indices (seeders_list x') = Done [] /\ seeders_cnt x' = 0 /\
    seeders_arr x' = map (Seeder.set_is_on false) (seeders_arr Example.object_a) /\
    grains_list x' = grains_list Example.object_a /\
    grains_arr x' = grains_arr Example.object_a /\
    grains_cnt x' = grains_cnt Example.object_a.
Proof.
  exact (all_off_empties_registry Example.object_a object_a_registry_wf).
Defined.

Lemma map_upd_same {A B : Type} (f : A -> B) (a : list A) i s s' :
  rd a i = Done s -> f s' = f s -> map f (upd a i s') = map f a.
Proof.
  intros Hs Hf. unfold upd. rewrite list_fmap_insert. rewrite Hf.
  apply list_insert_id. rewrite list_lookup_fmap.
  unfold rd in Hs. destruct (0 <=? i); [|discriminate].
  destruct (a !! Z.to_nat i); [|discriminate]. injection Hs as ->. reflexivity.
Qed.

Lemma registry_switch_on x us pre i post s l' :
  registry x us (pre ++ i :: post) -> rd (seeders_arr x) i = Done s ->
  repr l' (i :: us) (pre ++ post) -> len l' = len (seeders_list x) ->
  registry
    (set_seeders_arr (upd (seeders_arr x) i (Seeder.set_is_on true s))
       (set_seeders_active (seeders_cnt x + 1) l' x))
    (i :: us) (pre ++ post).
Proof.
  intros (Hr & Hl & Hlen & Hc & Hm & Hf) Hs Hr' Hl'.
  pose proof (rd_Done _ _ _ Hs) as Hin.
  split; [exact Hr'|]. simpl.
  split; [lia|]. split; [rewrite length_upd; assumption|].
  split; [lia|]. split; [assumption|].
  destruct (heads_fresh _ _ _ Hr) as (Hnd & _).
  assert (i ∉ us) as Hfresh.
  { apply NoDup_app in Hnd as (_ & Hdis & _). intros Hx. apply (Hdis i Hx). set_solver. }
  intros j sj Hj. destruct (Z.eq_dec j i) as [->|Hne].
  - rewrite rd_upd_eq in Hj by assumption. injection Hj as <-. simpl.
    split; [intros _; left|reflexivity].
  - rewrite rd_upd_ne in Hj by (unfold in_range in Hin; lia).
    rewrite (Hf j sj Hj). clear - Hne. set_solver.
Qed.

Lemma registry_room x us e es :
  registry x us (e :: es) ->
  in_range (seeders_arr x) e /\ wrap16 (seeders_cnt x + 1) = seeders_cnt x + 1.
Proof.
  intros (Hr & Hl & Hlen & Hc & Hm & Hf).
  destruct (heads_fresh _ _ _ Hr) as (_ & _ & _ & _ & _ & _ & Hrange).
  destruct (perm_seqZ_facts _ _ _ (repr_perm _ _ _ Hr)) as (_ & _ & Hsum).
  simpl length in Hsum.
  specialize (Hrange e ltac:(set_solver)). split; [unfold in_range; lia|].
  apply wrap16_small. unfold INT16_MAX in *. lia.
Qed.

(** The end of the loop of [granular_all_on]: a walk over seeders that are
    not ready changes nothing. *)
Lemma all_on_idle ns : forall fuel x node,
  chain (array (seeders_list x)) node ns ->
  (forall i, i ∈ ns ->
     exists s, rd (seeders_arr x) i = Done s /\ Seeder.buff_state s <> BUFF_READY) ->
  (length ns <= fuel)%nat ->
  exists node', while_loop fuel all_on_cond all_on_body (x, node) = Done (x, node').
Proof.
  induction ns as [|v ns IH]; intros fuel x node Hc Hidle Hf.
  - inversion Hc as [? Hend|]; subst. exists node.
    destruct fuel; simpl; rewrite Hend; reflexivity.
  - inversion Hc as [|? ? ? Hrd Hne Hc']; subst.
    destruct fuel as [|fuel]; [simpl in Hf; lia|].
    destruct (Hidle v ltac:(left)) as (s & Hs & Hst).
    destruct (IH fuel x v Hc') as (node' & Hrun).
    { intros i Hi. apply Hidle. right. assumption. }
    { simpl in Hf. lia. }
    exists node'. simpl. rewrite Hrd. cbn [bind].
    destruct (Z.eqb_spec v LIST_END); [contradiction|]. cbn [negb].
    rewrite Hs. cbn [bind].
    destruct (Z.eqb_spec (Seeder.buff_state s) BUFF_READY); [contradiction|].
    exact Hrun.
Qed.

(** The beginning of the loop: the ready seeders at the head of the empty
    list are switched on one after the other, the node staying on the head
    cell. *)
Lemma all_on_ready rs : forall fuel x us ns,
  registry x us (rs ++ ns) ->
  (forall i, i ∈ rs ->
     exists s, rd (seeders_arr x) i = Done s /\ Seeder.buff_state s = BUFF_READY) ->
  (forall i, i ∈ ns ->
     exists s, rd (seeders_arr x) i = Done s /\ Seeder.buff_state s <> BUFF_READY) ->
  (length rs + length ns <= fuel)%nat ->
  exists x' node',
    while_loop fuel all_on_cond all_on_body (x, first_empty (seeders_list x))
    = Done (x', node') /\
    registry x' (rev rs ++ us) ns /\
    map (Seeder.set_is_on false) (seeders_arr x')
    = map (Seeder.set_is_on false) (seeders_arr x) /\
    grains_list x' = grains_list x /\ grains_arr x' = grains_arr x /\
    grains_cnt x' = grains_cnt x.
Proof.
  induction rs as [|r rs IH]; intros fuel x us ns Hreg Hready Hidle Hf.
  - simpl in *. pose proof Hreg as (Hr & _).
    destruct (all_on_idle ns fuel x (first_empty (seeders_list x)) (repr_empty _ _ _ Hr)
                Hidle Hf) as (node' & Hrun).
    exists x, node'. auto 10.
  - destruct fuel as [|fuel]; [simpl in Hf; lia|].
    simpl in Hreg. pose proof Hreg as (Hr & Hl & Hlen & Hc & Hm & Hfl).
    pose proof (repr_empty _ _ _ Hr) as Hch.
    inversion Hch as [|? ? ? Hrd Hne _]; subst.
    destruct (Hready r ltac:(left)) as (s & Hs & Hst).
    destruct (registry_room _ _ _ _ Hreg) as (Hin & Hw).
    destruct (list_insert_first_spec _ _ _ _ Hr) as (l' & Hins & Hr' & Hl').
    pose proof (registry_switch_on x us [] r (rs ++ ns) s l' Hreg Hs Hr' Hl') as Hreg1.
    set (x1 := set_seeders_arr (upd (seeders_arr x) r (Seeder.set_is_on true s))
                 (set_seeders_active (seeders_cnt x + 1) l' x)) in *.
    assert (forall i, i <> r -> rd (seeders_arr x1) i = rd (seeders_arr x) i) as Hother.
    { intros i Hi. unfold x1. simpl. apply rd_upd_ne; [unfold in_range in Hin; lia|congruence]. }
    destruct (heads_fresh _ _ _ Hr) as (Hnd & _).
    apply NoDup_app in Hnd as (_ & _ & Hnd). apply NoDup_cons in Hnd as (Hnr & _).
    destruct (IH fuel x1 (r :: us) ns Hreg1)
      as (x' & node' & Hrun & Hreg' & Harr & Hg1 & Hg2 & Hg3).
    { intros i Hi. rewrite Hother by (intros ->; apply Hnr; set_solver).
      apply Hready. right. assumption. }
    { intros i Hi. rewrite Hother by (intros ->; apply Hnr; set_solver).
      apply Hidle. assumption. }
    { simpl in Hf. lia. }
    exists x', node'. split.
    { simpl. rewrite Hrd. cbn [bind].
      destruct (Z.eqb_spec r LIST_END); [contradiction|]. cbn [negb].
      rewrite Hs. cbn [bind]. rewrite Hst. change (BUFF_READY =? BUFF_READY) with true.
      cbv iota. rewrite Hw.
      unfold update_seeder. cbn [seeders_arr set_seeders_active]. rewrite Hs. cbn [bind].
      rewrite wr_in_range by assumption. cbn [bind].
      cbn [seeders_list set_seeders_arr set_seeders_active].
      rewrite Hins. cbn [bind].
      replace (first_empty (seeders_list x)) with (first_empty (seeders_list x1))
        by (unfold first_empty, x1; simpl; lia).
      exact Hrun. }
    split; [simpl; rewrite <- app_assoc; exact Hreg'|].
    split; [|unfold x1 in *; simpl in *; auto].
    rewrite Harr. unfold x1. simpl. apply (map_upd_same _ _ _ s); [assumption|reflexivity].
Qed.

(** X24: [granular_all_on] when the seeders that are ready come first in the
    inactive list (as when all of them are ready, or none). The loop ends;
    the ready ones are switched on and put in front of the active list, the
    last of them first; the others stay where they are; seeders only change
    by their [is_on] flag, the registry is in order and the grain pool is not
    touched. *)
Theorem all_on_ready_first (x : t_granular) (us rs ns : list Z) :
  registry_wf x ->
  used_indices (seeders_list x) = Done us ->
  empty_indices (seeders_list x) = Done (rs ++ ns) ->
  (forall i s, i ∈ rs -> rd (seeders_arr x) i = Done s ->
     Seeder.buff_state s = BUFF_READY) ->
  (forall i s, i ∈ ns -> rd (seeders_arr x) i = Done s ->
     Seeder.buff_state s <> BUFF_READY) ->
  exists fuel0, forall fuel, (fuel0 <= fuel)%nat ->
    exists x',
      granular_all_on fuel x = Done x' /\ registry_wf x' /\
      used_indices (seeders_list x') = Done (rev rs ++ us) /\
      empty_indices (seeders_list x') = Done ns /\
      seeders_cnt x' = seeders_cnt x + Z.of_nat (length rs) /\
      map (Seeder.set_is_on false) (seeders_arr x')
      = map (Seeder.set_is_on false) (seeders_arr x) /\
      grains_list x' = grains_list x /\ grains_arr x' = grains_arr x /\
      grains_cnt x' = grains_cnt x.
Proof.
  intros Hwf Hu He Hready Hidle.
  destruct (registry_wf_lists _ Hwf) as (us0 & es0 & Hreg).
  pose proof (registry_used _ _ _ _ Hreg Hu) as <-.
  assert (es0 = rs ++ ns) as ->.
  { destruct Hreg as (Hr & _). rewrite (repr_empty_indices _ _ _ Hr) in He. congruence. }
  assert (forall i, i ∈ rs ++ ns -> exists s, rd (seeders_arr x) i = Done s) as Hex.
  { intros i Hi. destruct Hreg as (Hr & Hl & Hlen & _).
    destruct (heads_fresh _ _ _ Hr) as (_ & _ & _ & _ & _ & _ & Hrange).
    specialize (Hrange i ltac:(set_solver)). apply rd_in_range. unfold in_range. lia. }
  exists (length rs + length ns)%nat. intros fuel Hf.
  destruct (all_on_ready rs fuel x us ns Hreg)
    as (x' & node' & Hrun & Hreg' & Harr & Hg1 & Hg2 & Hg3); [| |assumption|].
  { intros i Hi. destruct (Hex i ltac:(set_solver)) as [s Hs]. eauto. }
  { intros i Hi. destruct (Hex i ltac:(set_solver)) as [s Hs]. eauto. }
  exists x'. split.
  { unfold granular_all_on.
    change (first_used (seeders_list x) + 1) with (first_empty (seeders_list x)).
    rewrite Hrun. reflexivity. }
  split; [eapply registry_lists_wf; eauto|].
  pose proof Hreg' as (Hr' & _ & _ & Hc' & _).
  pose proof Hreg as (_ & _ & _ & Hc & _).
  split; [apply (repr_used_indices _ _ _ Hr')|].
  split; [apply (repr_empty_indices _ _ _ Hr')|].
  split; [rewrite Hc', Hc, length_app, length_rev; lia|]. auto.
Qed.

Lemma all_on_ready_first_example :
  exists fuel0, forall fuel, (fuel0 <= fuel)%nat ->
    exists x',
      granular_all_on fuel Example.object_a = Done x' /\ registry_wf x' /\
      used_indices (seeders_list x') = Done (rev [1] ++ [0]) /\
      empty_indices (seeders_list x') = Done [2] /\
      seeders_cnt x' = seeders_cnt Example.object_a + Z.of_nat (length [1]) /\
      map (Seeder.set_is_on false) (seeders_arr x')
      = map (Seeder.set_is_on false) (seeders_arr Example.object_a) /\
      grains_list x' = grains_list Example.object_a /\
      grains_arr x' = grains_arr Example.object_a /\
      grains_cnt x' = grains_cnt Example.object_a.
Proof.
  apply (all_on_ready_first Example.object_a [0] [1] [2] object_a_registry_wf eq_refl eq_refl).
  - intros i s Hi Hs. assert (i = 1) as -> by set_solver. injection Hs as <-. reflexivity.
  - intros i s Hi Hs. assert (i = 2) as -> by set_solver. injection Hs as <-. discriminate.
Defined.

(** ** [granular_all_on] with a seeder that is not ready in the way *)

(** A loop whose test always holds and whose body always ends never ends. *)
Lemma while_loop_spins {St : Type} (Inv : St -> Prop) cond body :
  (forall s, Inv s -> cond s = Done true /\ exists s', body s = Done s' /\ Inv s') ->
  forall fuel (s : St), Inv s -> while_loop fuel cond body s = OutOfFuel.
Proof.
  intros Hstep. induction fuel as [|fuel IH]; intros s Hs;
    destruct (Hstep s Hs) as (Hc & s' & Hb & Hs'); simpl; rewrite Hc; cbn [bind].
  - reflexivity.
  - rewrite Hb. cbn [bind]. apply IH. assumption.
Qed.

Lemma ready_at_flag x i j s b cnt l :
  ready_at x i -> rd (seeders_arr x) j = Done s ->
  ready_at (set_seeders_arr (upd (seeders_arr x) j (Seeder.set_is_on b s))
              (set_seeders_active cnt l x)) i.
Proof.
  intros (si & Hi & Hst) Hj. pose proof (rd_Done _ _ _ Hj) as Hin.
  unfold ready_at. simpl. destruct (Z.eq_dec i j) as [->|Hne].
  - rewrite rd_upd_eq by assumption. exists (Seeder.set_is_on b s).
    split; [reflexivity|]. simpl. congruence.
  - rewrite rd_upd_ne by (unfold in_range in Hin; lia). eauto.
Qed.

Lemma while_loop_step {St : Type} cond body fuel (s s' : St) :
  cond s = Done true -> body s = Done s' ->
  while_loop (S fuel) cond body s = while_loop fuel cond body s'.
Proof. intros Hc Hb. simpl. rewrite Hc. cbn [bind]. rewrite Hb. reflexivity. Qed.

Lemma while_loop_stop {St : Type} cond body fuel (s : St) :
  cond s = Done false -> while_loop fuel cond body s = Done s.
Proof. intros Hc. destruct fuel; simpl; rewrite Hc; reflexivity. Qed.

(** One turn of the loop on a seeder that is ready. *)
Lemma all_on_body_ready x node v s :
  rd (array (seeders_list x)) node = Done v -> rd (seeders_arr x) v = Done s ->
  Seeder.buff_state s = BUFF_READY ->
  all_on_body (x, node) =
    let x1 := set_seeders_arr (upd (seeders_arr x) v (Seeder.set_is_on true s))
                (set_seeders_active (wrap16 (seeders_cnt x + 1)) (seeders_list x) x) in
    let* '(l, _) := list_insert_first (seeders_list x) in
    Done (set_seeders_active (seeders_cnt x1) l x1, node).
Proof.
  intros Hv Hs Hst. unfold all_on_body. rewrite Hv. cbn [bind]. rewrite Hs. cbn [bind].
  rewrite Hst. change (BUFF_READY =? BUFF_READY) with true. cbv iota.
  unfold update_seeder. cbn [seeders_arr set_seeders_active]. rewrite Hs. cbn [bind].
  rewrite wr_in_range by (eapply rd_Done; eauto). cbn [bind]. reflexivity.
Qed.

Lemma chain_second a c v w vs : chain a c (v :: w :: vs) -> rd a v = Done w /\ w <> LIST_END.
Proof.
  intros Hc. inversion Hc as [|? ? ? _ _ Hc']; subst.
  inversion Hc' as [|? ? ? Hrd Hne _]; subst. auto.
Qed.

(** X25: [granular_all_on] never returns when, in the inactive list, a
    seeder that is not ready is followed by one that is, and the first of the
    active seeders is ready. The node, left on the cell of the seeder that is
    not ready, comes to point into the active list once [list_insert_first]
    has moved that seeder there; from then on every turn finds the same
    ready seeder under the node and moves nothing. *)
Theorem all_on_never_returns (x : t_granular) (u n r : Z) (us rest : list Z)
    (su sn sr : t_seeder) (fuel : nat) :
  registry_wf x ->
  used_indices (seeders_list x) = Done (u :: us) ->
  empty_indices (seeders_list x) = Done (n :: r :: rest) ->
  rd (seeders_arr x) u = Done su -> Seeder.buff_state su = BUFF_READY ->
  rd (seeders_arr x) n = Done sn -> Seeder.buff_state sn <> BUFF_READY ->
  rd (seeders_arr x) r = Done sr -> Seeder.buff_state sr = BUFF_READY ->
  granular_all_on fuel x = OutOfFuel.
Proof.
  intros Hwf Hu He Hsu Hstu Hsn Hstn Hsr Hstr.
  destruct (registry_wf_lists _ Hwf) as (us0 & es0 & Hreg).
  pose proof (registry_used _ _ _ _ Hreg Hu) as <-.
  destruct Hreg as (Hr & Hl & Hlen & _).
  rewrite (repr_empty_indices _ _ _ Hr) in He. injection He as ->.
  set (Inv := fun st : t_granular * Z =>
    let '(y, node) := st in
    ready_at y u /\ ready_at y r /\
    (exists s, rd (seeders_arr y) n = Done s /\ Seeder.buff_state s <> BUFF_READY) /\
    ((node = first_empty (seeders_list y) /\
      repr (seeders_list y) (u :: us) (n :: r :: rest)) \/
     (node = n /\ repr (seeders_list y) (u :: us) (n :: r :: rest)) \/
     (node = n /\ exists pre post es, repr (seeders_list y) (pre ++ n :: u :: post) es))).
  unfold granular_all_on.
  rewrite (while_loop_spins Inv all_on_cond all_on_body); [reflexivity| |].
  - intros [y node] (Hyu & Hyr & Hyn & Hphase).
    destruct Hphase as [(-> & Hry)|[(-> & Hry)|(-> & pre & post & es & Hry)]].
    + (* the node is on the head cell of the inactive list *)
      pose proof (repr_empty _ _ _ Hry) as Hc.
      inversion Hc as [|? ? ? Hrd Hne _]; subst.
      split.
      { simpl. rewrite Hrd. cbn [bind].
        destruct (Z.eqb_spec n LIST_END); [contradiction|reflexivity]. }
      destruct Hyn as (s & Hs & Hst).
      exists (y, n). split.
      { unfold all_on_body. rewrite Hrd. cbn [bind]. rewrite Hs. cbn [bind].
        destruct (Z.eqb_spec (Seeder.buff_state s) BUFF_READY); [contradiction|reflexivity]. }
      split; [assumption|]. split; [assumption|]. split; [eauto|]. right. left. auto.
    + (* the node is on the cell of the seeder that is not ready *)
      destruct (chain_second _ _ _ _ _ (repr_empty _ _ _ Hry)) as (Hrd & Hne).
      split.
      { simpl. rewrite Hrd. cbn [bind].
        destruct (Z.eqb_spec r LIST_END); [contradiction|reflexivity]. }
      destruct Hyr as (s & Hs & Hst).
      destruct (list_insert_first_spec _ _ _ _ Hry) as (l' & Hins & Hr' & Hl').
      rewrite (all_on_body_ready y n r s Hrd Hs Hst). cbv zeta.
      cbn [seeders_list set_seeders_arr set_seeders_active]. rewrite Hins. cbn [bind].
      eexists. split; [reflexivity|].
      split; [apply ready_at_flag; assumption|].
      split; [apply ready_at_flag; [exists s; auto|assumption]|].
      split.
      { destruct Hyn as (s' & Hs' & Hst'). simpl.
        pose proof (rd_Done _ _ _ Hs) as Hin.
        destruct (heads_fresh _ _ _ Hry) as (Hnd & _).
        apply NoDup_app in Hnd as (_ & _ & Hnd). apply NoDup_cons in Hnd as (Hnr & _).
        rewrite rd_upd_ne; [eauto|unfold in_range in Hin; lia|].
        intros ->. apply Hnr. left. }
      right. right. split; [reflexivity|]. exists [], us, (r :: rest). exact Hr'.
    + (* the node points into the active list *)
      destruct (chain_split _ _ _ _ (repr_used _ _ _ Hry)) as (p & _ & Hc).
      destruct (chain_second _ _ _ _ _ Hc) as (Hrd & Hne).
      split.
      { simpl. rewrite Hrd. cbn [bind].
        destruct (Z.eqb_spec u LIST_END); [contradiction|reflexivity]. }
      pose proof Hyu as (s & Hs & Hst).
      rewrite (all_on_body_ready y n u s Hrd Hs Hst). cbv zeta.
      cbn [seeders_list set_seeders_arr set_seeders_active].
      assert (forall l',
        (exists pre' post' es', repr l' (pre' ++ n :: u :: post') es') ->
        Inv (set_seeders_active
               (seeders_cnt
                  (set_seeders_arr (upd (seeders_arr y) u (Seeder.set_is_on true s))
                     (set_seeders_active (wrap16 (seeders_cnt y + 1)) (seeders_list y) y)))
               l'
               (set_seeders_arr (upd (seeders_arr y) u (Seeder.set_is_on true s))
                  (set_seeders_active (wrap16 (seeders_cnt y + 1)) (seeders_list y) y)), n))
        as Hnext.
      { intros l' Hl'. unfold Inv.
        split; [apply (ready_at_flag y u u s true); assumption|].
        split; [apply (ready_at_flag y r u s true); assumption|].
        split.
        { destruct Hyn as (s' & Hs' & Hst'). simpl.
          pose proof (rd_Done _ _ _ Hs) as Hin.
          destruct (Z.eq_dec n u) as [E|E].
          - exfalso. rewrite E in Hs'. congruence.
          - rewrite rd_upd_ne; [eauto|unfold in_range in Hin; lia|congruence]. }
        right. right. split; [reflexivity|]. exact Hl'. }
      destruct es as [|e es].
      * rewrite (list_insert_first_full _ _ Hry). cbn [bind].
        eexists. split; [reflexivity|]. apply Hnext. eauto.
      * destruct (list_insert_first_spec _ _ _ _ Hry) as (l' & Hins & Hr' & Hl').
        rewrite Hins. cbn [bind]. eexists. split; [reflexivity|]. apply Hnext.
        exists (e :: pre), post, es. exact Hr'.
  - unfold Inv.
    split; [exists su; auto|]. split; [exists sr; auto|]. split; [exists sn; auto|].
    left. split; [reflexivity|assumption].
Qed.

(** The registry of the second example object, whose inactive list reads
    2, 1, is in order. *)
Lemma object_b_registry_wf : registry_wf Example.object_b.
Proof.
  exists [0], [2; 1]. split; [reflexivity|]. split; [reflexivity|].
  split; [apply (bool_decide_unpack _); vm_compute; exact I|].
  split; [reflexivity|]. split; [reflexivity|]. split; [reflexivity|].
  split; [reflexivity|]. split; [unfold INT16_MAX; simpl; lia|].
  intros i s Hi.
  assert (i = 0 \/ i = 1 \/ i = 2) as Hcase.
  { apply rd_Done in Hi. unfold in_range in Hi. simpl in Hi. lia. }
  destruct Hcase as [-> | [-> | ->]]; injection Hi as <-; simpl;
    (split; [intros E; try discriminate; set_solver|]);
    intros Hin; try reflexivity; exfalso; clear - Hin; set_solver.
Qed.

Lemma all_on_never_returns_example : granular_all_on 1000 Example.object_b = OutOfFuel.
Proof.
  apply (all_on_never_returns Example.object_b 0 2 1 [] [] Example.seeder_a
           Example.seeder_c Example.seeder_b 1000 object_b_registry_wf);
    try reflexivity; discriminate.
Defined.

(** X26: [granular_all_on] with no seeder active and, at the head of the
    inactive list, a seeder that is not ready followed by one that is. The
    loop ends after two turns, and what it leaves is out of order: the seeder
    that is ready has its flag set but stays in the inactive list, the
    seeder that is not ready is the one put in the active list, with its flag
    down, and [seeders_cnt] counts one active seeder. *)
Theorem all_on_switches_wrong_seeder (x : t_granular) (n r : Z) (rest : list Z)
    (sn sr : t_seeder) :
  registry_wf x ->
  used_indices (seeders_list x) = Done [] ->
  empty_indices (seeders_list x) = Done (n :: r :: rest) ->
  rd (seeders_arr x) n = Done sn -> Seeder.buff_state sn <> BUFF_READY ->
  rd (seeders_arr x) r = Done sr -> Seeder.buff_state sr = BUFF_READY ->
  exists fuel0, forall fuel, (fuel0 <= fuel)%nat ->
    exists x',
      granular_all_on fuel x = Done x' /\
      used_indices (seeders_list x') = Done [n] /\
      empty_indices (seeders_list x') = Done (r :: rest) /\
      seeders_cnt x' = 1 /\
      rd (seeders_arr x') n = Done sn /\ Seeder.is_on sn = false /\
      rd (seeders_arr x') r = Done (Seeder.set_is_on true sr) /\
      ~ registry_wf x'.
Proof.
  intros Hwf Hu He Hsn Hstn Hsr Hstr.
  destruct (registry_wf_lists _ Hwf) as (us0 & es0 & Hreg).
  pose proof (registry_used _ _ _ _ Hreg Hu) as <-.
  pose proof Hreg as (Hr & Hl & Hlen & Hc & Hm & Hf).
  rewrite (repr_empty_indices _ _ _ Hr) in He. injection He as ->.
  pose proof (repr_empty _ _ _ Hr) as Hch.
  inversion Hch as [|? ? ? Hrdn Hnen _]; subst.
  destruct (chain_second _ _ _ _ _ Hch) as (Hrdr & Hner).
  destruct (list_insert_first_spec _ _ _ _ Hr) as (l' & Hins & Hr' & Hl').
  destruct (heads_fresh _ _ _ Hr) as (Hnd & _).
  simpl in Hnd. apply NoDup_cons in Hnd as (Hnr & _).
  assert (n <> r) as Hneq by (intros ->; apply Hnr; left).
  assert (Seeder.is_on sn = false) as Hoffn.
  { destruct (Seeder.is_on sn) eqn:E; [|reflexivity].
    apply (Hf n sn Hsn) in E. set_solver. }
  assert (Seeder.is_on sr = false) as Hoffr.
  { destruct (Seeder.is_on sr) eqn:E; [|reflexivity].
    apply (Hf r sr Hsr) in E. set_solver. }
  pose proof (rd_Done _ _ _ Hsr) as Hinr.
  exists 2%nat. intros fuel Hfuel.
  destruct fuel as [|[|fuel]]; try lia.
  set (x' := set_seeders_active (wrap16 (seeders_cnt x + 1)) l'
               (set_seeders_arr (upd (seeders_arr x) r (Seeder.set_is_on true sr))
                  (set_seeders_active (wrap16 (seeders_cnt x + 1)) (seeders_list x) x))).
  assert (seeders_cnt x' = 1) as Hcnt.
  { unfold x'. simpl. simpl in Hc. rewrite Hc. reflexivity. }
  exists x'.
  assert (used_indices (seeders_list x') = Done [n]) as Hu'
    by (apply (repr_used_indices _ _ _ Hr')).
  assert (rd (seeders_arr x') r = Done (Seeder.set_is_on true sr)) as Hr2
    by (unfold x'; simpl; apply rd_upd_eq; assumption).
  split.
  { unfold granular_all_on.
    change (first_used (seeders_list x) + 1) with (first_empty (seeders_list x)).
    rewrite (while_loop_step _ _ _ _ (x, n)).
    2:{ simpl. rewrite Hrdn. cbn [bind].
        destruct (Z.eqb_spec n LIST_END); [contradiction|reflexivity]. }
    2:{ unfold all_on_body. rewrite Hrdn. cbn [bind]. rewrite Hsn. cbn [bind].
        destruct (Z.eqb_spec (Seeder.buff_state sn) BUFF_READY); [contradiction|reflexivity]. }
    rewrite (while_loop_step _ _ _ _ (x', n)).
    2:{ simpl. rewrite Hrdr. cbn [bind].
        destruct (Z.eqb_spec r LIST_END); [contradiction|reflexivity]. }
    2:{ rewrite (all_on_body_ready x n r sr Hrdr Hsr Hstr). cbv zeta.
        cbn [seeders_list set_seeders_arr set_seeders_active]. rewrite Hins. reflexivity. }
    rewrite while_loop_stop; [reflexivity|].
    pose proof (repr_used _ _ _ Hr') as Hc'.
    inversion Hc' as [|? ? ? _ _ Hc'']; subst. inversion Hc'' as [? Hend|]; subst.
    simpl. change (seeders_list x') with l'. rewrite Hend. reflexivity. }
  split; [assumption|].
  split; [apply (repr_empty_indices _ _ _ Hr')|].
  split; [assumption|].
  split; [unfold x'; simpl; rewrite rd_upd_ne by (unfold in_range in Hinr; lia); assumption|].
  split; [assumption|]. split; [assumption|].
  intros (us1 & es1 & Hu1 & _ & _ & _ & _ & _ & _ & _ & Hf1).
  rewrite Hu' in Hu1. injection Hu1 as <-.
  destruct (Hf1 r _ Hr2) as (Hin1 & _). specialize (Hin1 eq_refl).
  apply Hneq. set_solver.
Qed.

(** The registry of the third example object, with no active seeder, is in
    order. *)
Lemma object_c_registry_wf : registry_wf Example.object_c.
Proof.
  exists [], [2; 1; 0]. split; [reflexivity|]. split; [reflexivity|].
  split; [apply (bool_decide_unpack _); vm_compute; exact I|].
  split; [reflexivity|]. split; [reflexivity|]. split; [reflexivity|].
  split; [reflexivity|]. split; [unfold INT16_MAX; simpl; lia|].
  intros i s Hi.
  assert (i = 0 \/ i = 1 \/ i = 2) as Hcase.
  { apply rd_Done in Hi. unfold in_range in Hi. simpl in Hi. lia. }
  destruct Hcase as [-> | [-> | ->]]; injection Hi as <-; simpl;
    (split; [intros E; try discriminate; set_solver|]);
    intros Hin; try reflexivity; exfalso; clear - Hin; set_solver.
Qed.

Lemma all_on_switches_wrong_seeder_example :
  exists fuel0, forall fuel, (fuel0 <= fuel)%nat ->
    exists x',
      granular_all_on fuel Example.object_c = Done x' /\
      used_indices (seeders_list x') = Done [2] /\
      empty_indices (seeders_list x') = Done [1; 0] /\
      seeders_cnt x' = 1 /\
      rd (seeders_arr x') 2 = Done Example.seeder_c /\
      Seeder.is_on Example.seeder_c = false /\
      rd (seeders_arr x') 1 = Done (Seeder.set_is_on true Example.seeder_b) /\
      ~ registry_wf x'.
Proof.
  apply (all_on_switches_wrong_seeder Example.object_c 2 1 [0] Example.seeder_c
           Example.seeder_b object_c_registry_wf); try reflexivity; discriminate.
Defined.


(* ===================================================================== *)
(** * Messages sent out, creation, file loading                           *)
(* ===================================================================== *)

(** ** [granular_get_active] *)

Lemma rd_lookup {A : Type} (a : list A) (k : nat) v :
  a !! k = Some v -> rd a (Z.of_nat k) = Done v.
Proof.
  intros E. unfold rd. destruct (Z.leb_spec 0 (Z.of_nat k)); [|lia].
  rewrite Nat2Z.id, E. reflexivity.
Qed.

Lemma lookup_rd {A : Type} (a : list A) i v :
  rd a i = Done v -> a !! Z.to_nat i = Some v.
Proof.
  unfold rd. destruct (0 <=? i); [|discriminate].
  destruct (a !! Z.to_nat i); [congruence|discriminate].
Qed.

Lemma get_active_fill_spec x cnt : forall index mess,
  0 <= index -> index + Z.of_nat cnt <= Z.of_nat (length (seeders_arr x)) ->
  index + Z.of_nat cnt <= Z.of_nat (length mess) ->
  exists mess',
    get_active_fill cnt index x mess = Done mess' /\ length mess' = length mess /\
    (forall j s, index <= j < index + Z.of_nat cnt -> rd (seeders_arr x) j = Done s ->
       rd mess' j = Done (A_LONG (if Seeder.is_on s then 1 else 0))) /\
    (forall j, ~ (index <= j < index + Z.of_nat cnt) -> rd mess' j = rd mess j).
Proof.
  induction cnt as [|cnt IH]; intros index mess Hi Harr Hmess.
  - exists mess. simpl. split; [reflexivity|]. split; [reflexivity|].
    split; [intros; lia|reflexivity].
  - simpl. destruct (rd_in_range (seeders_arr x) index) as [s Hs]; [unfold in_range; lia|].
    rewrite Hs. cbn [bind]. rewrite wr_in_range by (unfold in_range; lia). cbn [bind].
    destruct (IH (index + 1) (upd mess index (A_LONG (if Seeder.is_on s then 1 else 0))))
      as (mess' & Hrun & Hlen & Hin & Hout); [lia|lia|rewrite length_upd; lia|].
    exists mess'. split; [assumption|]. split; [rewrite Hlen; apply length_upd|]. split.
    + intros j sj Hj Hsj. destruct (Z.eq_dec j index) as [->|Hne].
      * rewrite Hout by lia. rewrite rd_upd_eq by (unfold in_range; lia).
        rewrite Hs in Hsj. injection Hsj as <-. reflexivity.
      * apply Hin; [lia|assumption].
    + intros j Hj. rewrite Hout by lia. apply rd_upd_ne; lia.
Qed.

Lemma get_active_fill_overflow x cnt : forall index mess,
  0 <= index <= Z.of_nat (length mess) ->
  index + Z.of_nat cnt <= Z.of_nat (length (seeders_arr x)) ->
  Z.of_nat (length mess) < index + Z.of_nat cnt ->
  get_active_fill cnt index x mess = Fault.
Proof.
  induction cnt as [|cnt IH]; intros index mess Hi Harr Hover; [lia|].
  simpl. destruct (rd_in_range (seeders_arr x) index) as [s Hs]; [unfold in_range; lia|].
  rewrite Hs. cbn [bind].
  destruct (Z.eq_dec index (Z.of_nat (length mess))) as [E|E].
  - unfold wr. destruct (Z.ltb_spec index (Z.of_nat (length mess))); [lia|].
    rewrite andb_false_r. reflexivity.
  - rewrite wr_in_range by (unfold in_range; lia). cbn [bind].
    apply IH; rewrite ?length_upd; lia.
Qed.

(** X27: [granular_get_active] writes one atom per seeder into [mess_arr],
    which holds 20 atoms. With at most 20 seeders the list sent is the
    [is_on] flag of every seeder, in order; with more (the number of seeders
    is an argument of the object box) the twenty-first write is outside the
    array. *)
Theorem get_active_within_twenty (x : t_granular) (mess_arr : list t_atom) :
  Z.of_nat (length mess_arr) = MESS_ARR_LEN ->
  Z.of_nat (length (seeders_arr x)) = seeders_max x ->
  (seeders_max x <= MESS_ARR_LEN ->
   exists mess,
     granular_get_active x mess_arr
     = Done (mess, map (fun s => A_LONG (if Seeder.is_on s then 1 else 0)) (seeders_arr x)) /\
     length mess = length mess_arr) /\
  (MESS_ARR_LEN < seeders_max x -> granular_get_active x mess_arr = Fault).
Proof.
  intros Hmess Harr. split.
  - intros Hle. unfold granular_get_active.
    destruct (get_active_fill_spec x (Z.to_nat (seeders_max x)) 0 mess_arr)
      as (mess & Hrun & Hlen & Hin & _); try lia.
    rewrite Hrun. cbn [bind]. exists mess. split; [|assumption]. f_equal. f_equal.
    apply list_eq. intros k. rewrite list_lookup_fmap.
    destruct (Nat.lt_ge_cases k (Z.to_nat (seeders_max x))) as [Hk|Hk].
    + rewrite lookup_take_lt by assumption.
      destruct (lookup_lt_is_Some_2 (seeders_arr x) k ltac:(lia)) as [s Hs].
      rewrite Hs. simpl.
      pose proof (Hin (Z.of_nat k) s ltac:(lia) (rd_lookup _ _ _ Hs)) as Hr.
      apply lookup_rd in Hr. rewrite Nat2Z.id in Hr. exact Hr.
    + rewrite lookup_take_ge by assumption.
      rewrite (proj2 (lookup_ge_None (seeders_arr x) k)) by lia. reflexivity.
  - intros Hgt. unfold granular_get_active.
    rewrite get_active_fill_overflow; [reflexivity| | |]; lia.
Qed.

Lemma get_active_within_twenty_example :
  (seeders_max Example.object_a <= MESS_ARR_LEN ->
   exists mess,
     granular_get_active Example.object_a (replicate 20 (A_LONG 0))
     = Done (mess, map (fun s => A_LONG (if Seeder.is_on s then 1 else 0))
                       (seeders_arr Example.object_a)) /\
     length mess = length (replicate 20 (A_LONG 0))) /\
  (MESS_ARR_LEN < seeders_max Example.object_a ->
   granular_get_active Example.object_a (replicate 20 (A_LONG 0)) = Fault).
Proof.
  exact (get_active_within_twenty Example.object_a (replicate 20 (A_LONG 0)) eq_refl eq_refl).
Defined.

(** ** [granular_new] *)

Lemma rd_map_seqZ {A : Type} (f : Z -> A) n i v :
  rd (map f (seqZ 0 n)) i = Done v -> 0 <= i < n /\ v = f i.
Proof.
  intros Hrd. pose proof (rd_Done _ _ _ Hrd) as Hin.
  unfold in_range in Hin. rewrite length_map, length_seqZ in Hin.
  split; [lia|]. apply lookup_rd in Hrd. rewrite list_lookup_fmap in Hrd.
  destruct (seqZ 0 n !! Z.to_nat i) as [j|] eqn:E; [|discriminate].
  apply lookup_seqZ in E as (-> & _). simpl in Hrd. injection Hrd as <-. f_equal. lia.
Qed.

Lemma granular_new_caps_range argv :
  fst (granular_new_caps argv) <= INT16_MAX /\ snd (granular_new_caps argv) <= INT16_MAX.
Proof.
  unfold granular_new_caps, INT16_MAX, SEEDERS_MAX, GRAINS_MAX.
  destruct argv as [|a [|b [|c rest]]]; simpl; try lia.
  - destruct (is_A_LONG a); simpl; [|lia]. pose proof (wrap16_range (atom_getlong a)). lia.
  - destruct (is_A_LONG a); simpl; [|lia].
    pose proof (wrap16_range (atom_getlong a)). pose proof (wrap16_range (atom_getlong b)). lia.
Qed.

(** X28: [granular_new] with capacities of at least one returns an object
    whose two registries are in order and empty: no seeder is on, no grain
    is in the pool, every seeder carries its own index, one stream with a
    countdown of 0, no buffer, and an envelope table of [ENV_N_SMP]
    values. With two arguments only the first has to be an integer: a float
    in second place is cut down to one. And a capacity of zero or less, for
    the seeders or for the grains, makes [list_new] write in front of its
    array. *)
Theorem new_object_in_order (env_hann : float -> float -> float -> float) (sr : float)
    (argv : list t_atom) :
  1 <= fst (granular_new_caps argv) -> 1 <= snd (granular_new_caps argv) ->
  (exists x,
     granular_new env_hann sr argv = Done x /\
     seeders_max x = fst (granular_new_caps argv) /\
     grains_max x = snd (granular_new_caps argv) /\
     registry_wf x /\ pool_wf x /\
     used_indices (seeders_list x) = Done [] /\ seeders_cnt x = 0 /\
     pool_grains x = Done [] /\ grains_cnt x = 0 /\
     (forall i s, rd (seeders_arr x) i = Done s ->
        Seeder.index s = i /\ Seeder.is_on s = false /\
        Seeder.buff_state s = BUFF_NO_LINK /\ Seeder.poly_cnt s = 1 /\
        rd (Seeder.period_cntd s) 0 = Done 0 /\
        Z.of_nat (length (Seeder.env_values s)) = ENV_N_SMP)) /\
  (forall n b, granular_new_caps [A_LONG n; b] = (wrap16 n, wrap16 (atom_getlong b))) /\
  (forall argv',
     fst (granular_new_caps argv') <= 0 \/ snd (granular_new_caps argv') <= 0 ->
     granular_new env_hann sr argv' = Fault).
Proof.
  intros Hs Hg. split; [|split].
  - unfold granular_new. pose proof (granular_new_caps_range argv) as (Hsm & Hgm).
    destruct (granular_new_caps argv) as [smax gmax]. simpl in *.
    destruct (list_new_spec gmax Hg) as (gl & Hgl & Hglen & Hgr).
    destruct (list_new_spec smax Hs) as (sl & Hsl & Hslen & Hsr).
    rewrite Hgl. cbn [bind]. rewrite Hsl. cbn [bind].
    eexists. split; [reflexivity|]. simpl.
    split; [reflexivity|]. split; [reflexivity|].
    assert (forall i s,
      rd (map (new_seeder env_hann (sr * 0x1.0624dd2f1a9fcp-10)%float ENV_N_SMP) (seqZ 0 smax)) i
      = Done s ->
      0 <= i < smax /\
      s = new_seeder env_hann (sr * 0x1.0624dd2f1a9fcp-10)%float ENV_N_SMP i) as Hseed
      by (intros i s; apply rd_map_seqZ).
    split; [|split; [|split; [|split; [|split; [|split]]]]].
    + exists [], (seqZ 0 smax). simpl.
      split; [apply (repr_used_indices _ _ _ Hsr)|].
      split; [apply (repr_empty_indices _ _ _ Hsr)|].
      split; [reflexivity|]. split; [assumption|].
      split; [rewrite <- Hslen; apply (repr_cells _ _ _ Hsr)|].
      split; [rewrite length_map, length_seqZ; lia|].
      split; [reflexivity|]. split; [assumption|].
      intros i s Hi. destruct (Hseed i s Hi) as (_ & ->). simpl.
      split; [discriminate|intros Hin; inversion Hin].
    + exists [], (seqZ 0 gmax). simpl.
      split; [apply (repr_used_indices _ _ _ Hgr)|].
      split; [apply (repr_empty_indices _ _ _ Hgr)|].
      split; [reflexivity|]. split; [assumption|].
      split; [rewrite <- Hglen; apply (repr_cells _ _ _ Hgr)|].
      split; [rewrite length_replicate; lia|].
      split; [reflexivity|assumption].
    + apply (repr_used_indices _ _ _ Hsr).
    + reflexivity.
    + unfold pool_grains. simpl. rewrite (repr_used_indices _ _ _ Hgr). reflexivity.
    + reflexivity.
    + intros i s Hi. destruct (Hseed i s Hi) as (_ & ->).
      cbn [Seeder.index Seeder.is_on Seeder.buff_state Seeder.poly_cnt Seeder.period_cntd
           Seeder.env_values new_seeder].
      split; [reflexivity|]. split; [reflexivity|]. split; [reflexivity|].
      split; [reflexivity|]. split; [reflexivity|].
      unfold hann_table. rewrite length_map, length_seqZ. reflexivity.
  - intros n b. reflexivity.
  - intros argv' Hbad. unfold granular_new.
    destruct (granular_new_caps argv') as [smax gmax]. simpl in Hbad.
    destruct (Z.le_gt_cases gmax 0) as [Hg0|Hg0].
    + rewrite (list_new_nonpositive gmax Hg0). reflexivity.
    + destruct (list_new_spec gmax ltac:(lia)) as (gl & Hgl & _).
      rewrite Hgl. cbn [bind].
      rewrite (list_new_nonpositive smax ltac:(lia)). reflexivity.
Qed.

Lemma new_object_in_order_example :
  (exists x,
     granular_new (fun f _ _ => f) 48000%float [A_LONG 3; A_FLOAT 2%float] = Done x /\
     seeders_max x = fst (granular_new_caps [A_LONG 3; A_FLOAT 2%float]) /\
     grains_max x = snd (granular_new_caps [A_LONG 3; A_FLOAT 2%float]) /\
     registry_wf x /\ pool_wf x /\
     used_indices (seeders_list x) = Done [] /\ seeders_cnt x = 0 /\
     pool_grains x = Done [] /\ grains_cnt x = 0 /\
     (forall i s, rd (seeders_arr x) i = Done s ->
        Seeder.index s = i /\ Seeder.is_on s = false /\
        Seeder.buff_state s = BUFF_NO_LINK /\ Seeder.poly_cnt s = 1 /\
        rd (Seeder.period_cntd s) 0 = Done 0 /\
        Z.of_nat (length (Seeder.env_values s)) = ENV_N_SMP)) /\
  (forall n b, granular_new_caps [A_LONG n; b] = (wrap16 n, wrap16 (atom_getlong b))) /\
  (forall argv',
     fst (granular_new_caps argv') <= 0 \/ snd (granular_new_caps argv') <= 0 ->
     granular_new (fun f _ _ => f) 48000%float argv' = Fault).
Proof.
  apply (new_object_in_order (fun f _ _ => f) 48000%float [A_LONG 3; A_FLOAT 2%float]).
  - change (1 <= 3). lia.
  - change (1 <= 2). lia.
Defined.

(** ** [granular_file] *)

Lemma pool_wf_lists x : pool_wf x -> exists us es, pool x us es.
Proof.
  intros (us & es & Hu & He & Hp & Hl & Ha & Hg & Hc & Hm).
  exists us, es. split; [|auto].
  split; try (eapply indices_from_chain; eassumption); rewrite Hl; assumption.
Qed.

Lemma pool_lists_wf x us es : pool x us es -> pool_wf x.
Proof.
  intros (Hr & Hl & Hg & Hc & Hm). exists us, es.
  split; [eapply repr_used_indices; eauto|].
  split; [eapply repr_empty_indices; eauto|].
  split; [rewrite <- Hl; apply (repr_perm _ _ _ Hr)|].
  split; [assumption|].
  split; [rewrite <- Hl; apply (repr_cells _ _ _ Hr)|]. auto.
Qed.

Lemma read_all_other_slots arr index slots gs :
  read_all arr slots = Done gs ->
  read_all arr (other_slots arr index slots) = Done (other_seeders index gs).
Proof.
  revert gs. induction slots as [|i slots IH]; intros gs Hgs; simpl in *.
  - injection Hgs as <-. reflexivity.
  - apply bind_Done in Hgs as (g & Hg & Hgs).
    apply bind_Done in Hgs as (gs' & Hgs' & Hgs). injection Hgs as <-.
    rewrite Hg. simpl. destruct (Grain.index g =? index); simpl.
    + apply IH. assumption.
    + rewrite Hg. cbn [bind]. rewrite (IH _ Hgs'). reflexivity.
Qed.

Lemma path_snoc a c vs p v :
  path a c vs p -> rd a p = Done v -> v <> LIST_END -> path a c (vs ++ [v]) v.
Proof.
  induction 1 as [c|c w vs p Hc Hw Hp IH]; intros Hv Hne; simpl.
  - econstructor; eauto. constructor.
  - econstructor; eauto.
Qed.

(** The loop of [granular_file] over the slots [post] that are still ahead
    of the node, [pre] being the slots it has gone past and kept. *)
Lemma purge_loop index post : forall fuel x pre es,
  pool x (pre ++ post) es -> (length post <= fuel)%nat ->
  exists x' node' es',
    while_loop fuel purge_cond (purge_body index)
      (x, default (first_used (grains_list x)) (last pre)) = Done (x', node') /\
    pool x' (pre ++ other_slots (grains_arr x) index post) es' /\
    grains_arr x' = grains_arr x /\ grains_max x' = grains_max x /\
    seeders_arr x' = seeders_arr x /\ seeders_list x' = seeders_list x /\
    seeders_cnt x' = seeders_cnt x /\ seeders_max x' = seeders_max x /\
    seeders_foc x' = seeders_foc x /\ msamplerate x' = msamplerate x /\
    poly_max x' = poly_max x /\ env_n_frm x' = env_n_frm x /\ master x' = master x.
Proof.
  induction post as [|i post IH]; intros fuel x pre es Hp Hfuel.
  - pose proof Hp as (Hr & _).
    pose proof (chain_path_last _ _ _ _ (repr_used _ _ _ Hr)) as Hpath.
    pose proof (chain_at _ _ _ _ _ (repr_used _ _ _ Hr) Hpath) as Hc.
    inversion Hc as [? Hend|]; subst.
    exists x, (default (first_used (grains_list x)) (last pre)), es.
    split; [apply while_loop_stop; simpl; rewrite Hend; reflexivity|].
    split; [exact Hp|]. auto 20.
  - destruct fuel as [|fuel]; [simpl in Hfuel; lia|].
    pose proof Hp as (Hr & Hl & Hlen & Hcnt & Hmax).
    pose proof (chain_path_last _ _ _ _ (repr_used _ _ _ Hr)) as Hpath.
    pose proof (chain_at _ _ _ _ _ (repr_used _ _ _ Hr) Hpath) as Hc.
    inversion Hc as [|? ? ? Hrd Hne _]; subst.
    destruct (heads_fresh _ _ _ Hr) as (_ & _ & _ & _ & _ & _ & Hrange).
    assert (in_range (grains_arr x) i) as Hin.
    { specialize (Hrange i ltac:(set_solver)). unfold in_range. lia. }
    destruct (rd_in_range _ _ Hin) as [g Hg].
    set (node := default (first_used (grains_list x)) (last pre)) in *.
    assert (purge_cond (x, node) = Done true) as Hcond.
    { simpl. rewrite Hrd. cbn [bind].
      destruct (Z.eqb_spec i LIST_END); [contradiction|reflexivity]. }
    simpl other_slots. rewrite Hg.
    destruct (Z.eqb_spec (Grain.index g) index) as [Eidx|Eidx]; cbn [negb].
    + (* the grain is one of the seeder: it is removed, the node stays *)
      destruct (list_remove_node_spec _ _ _ _ _ node Hr Hpath) as (l' & Hrun & Hr' & Hl').
      assert (wrap16 (grains_cnt x - 1) = grains_cnt x - 1) as Hw.
      { rewrite length_app in Hcnt. simpl in Hcnt.
        destruct (perm_seqZ_facts _ _ _ (repr_perm _ _ _ Hr)) as (_ & _ & Hsum).
        rewrite length_app in Hsum. simpl in Hsum.
        apply wrap16_small. unfold INT16_MAX in *. lia. }
      set (x1 := set_grains (grains_cnt x - 1) (grains_arr x) l' x).
      assert (pool x1 (pre ++ post) (i :: es)) as Hp1.
      { split; [exact Hr'|]. simpl. split; [lia|]. split; [assumption|].
        split; [|assumption]. rewrite length_app in *. simpl in Hcnt. lia. }
      destruct (IH fuel x1 pre (i :: es) Hp1 ltac:(simpl in Hfuel; lia))
        as (x' & node' & es' & Hloop & Hp' & Hrest).
      exists x', node', es'. split.
      { rewrite (while_loop_step _ _ _ _ (x1, node)); [|assumption|].
        - replace node with (default (first_used (grains_list x1)) (last pre)); [exact Hloop|].
          unfold x1, node, first_used. simpl. rewrite Hl'. reflexivity.
        - unfold purge_body. rewrite Hrd. cbn [bind]. rewrite Hg. cbn [bind].
          rewrite Eidx, Z.eqb_refl. rewrite Hrun. cbn [bind]. rewrite Hw. reflexivity. }
      split; [exact Hp'|]. unfold x1 in Hrest. simpl in Hrest. exact Hrest.
    + (* the grain is kept, the node moves on *)
      assert (pool x ((pre ++ [i]) ++ post) es) as Hp1
        by (rewrite <- app_assoc; exact Hp).
      destruct (IH fuel x (pre ++ [i]) es Hp1 ltac:(simpl in Hfuel; lia))
        as (x' & node' & es' & Hloop & Hp' & Hrest).
      exists x', node', es'. split.
      { rewrite (while_loop_step _ _ _ _ (x, i)); [|assumption|].
        - rewrite last_snoc in Hloop. exact Hloop.
        - unfold purge_body. rewrite Hrd. cbn [bind]. rewrite Hg. cbn [bind].
          destruct (Z.eqb_spec (Grain.index g) index); [contradiction|reflexivity]. }
      split; [rewrite <- app_assoc in Hp'; exact Hp'|]. exact Hrest.
Qed.

Lemma registry_frame x y us es :
  registry x us es ->
  seeders_list y = seeders_list x -> seeders_arr y = seeders_arr x ->
  seeders_cnt y = seeders_cnt x -> seeders_max y = seeders_max x ->
  registry y us es.
Proof.
  unfold registry. intros H E1 E2 E3 E4. rewrite E1, E2, E3, E4. exact H.
Qed.

Lemma pool_frame x y us es :
  pool x us es ->
  grains_list y = grains_list x -> grains_arr y = grains_arr x ->
  grains_cnt y = grains_cnt x -> grains_max y = grains_max x ->
  pool y us es.
Proof.
  unfold pool. intros H E1 E2 E3 E4. rewrite E1, E2, E3, E4. exact H.
Qed.

Lemma registry_same_flag x us es i s s' :
  registry x us es -> rd (seeders_arr x) i = Done s ->
  Seeder.is_on s' = Seeder.is_on s ->
  registry (set_seeders_arr (upd (seeders_arr x) i s') x) us es.
Proof.
  intros (Hr & Hl & Hlen & Hc & Hm & Hf) Hs Hon.
  pose proof (rd_Done _ _ _ Hs) as Hin.
  split; [exact Hr|]. simpl. split; [assumption|].
  split; [rewrite length_upd; assumption|]. split; [assumption|]. split; [assumption|].
  intros j sj Hj. destruct (Z.eq_dec j i) as [->|Hne].
  - rewrite rd_upd_eq in Hj by assumption. injection Hj as <-. rewrite Hon. apply Hf. assumption.
  - rewrite rd_upd_ne in Hj by (unfold in_range in Hin; lia). apply Hf. assumption.
Qed.

Lemma pool_grains_lists x us es gs :
  pool x us es -> pool_grains x = Done gs -> read_all (grains_arr x) us = Done gs.
Proof.
  intros (Hr & _) Hgs. unfold pool_grains in Hgs.
  rewrite (repr_used_indices _ _ _ Hr) in Hgs. exact Hgs.
Qed.

Lemma read_all_length {A : Type} (arr : list A) slots gs :
  read_all arr slots = Done gs -> length gs = length slots.
Proof.
  revert gs. induction slots as [|i slots IH]; intros gs H; simpl in H.
  - injection H as <-. reflexivity.
  - apply bind_Done in H as (g & _ & H). apply bind_Done in H as (gs' & Hgs' & H).
    injection H as <-. simpl. rewrite (IH _ Hgs'). reflexivity.
Qed.

(** X29: [granular_file] on a seeder of the array, with its three
    arguments. Afterwards the seeder is off, marked ready whatever the state
    of its buffer was, and its window is back at 0; if it was on, the pool
    has lost the grains of this seeder and kept the others in their order,
    with [grains_cnt] their number, and the seeder has left the active list.
    Both registries are in order and no other seeder has changed. *)
Theorem file_resets_seeder (x : t_granular) (n : Z) (a1 a2 : t_atom) (s : t_seeder)
    (gs : list t_grain) :
  registry_wf x -> pool_wf x ->
  rd (seeders_arr x) (wrap16 n) = Done s -> pool_grains x = Done gs ->
  let gs' := if Seeder.is_on s then other_seeders (wrap16 n) gs else gs in
  exists x' us',
    granular_file x [A_LONG n; a1; a2] = Done x' /\
    registry_wf x' /\ pool_wf x' /\
    seeders_arr x'
    = upd (seeders_arr x) (wrap16 n)
        (Seeder.set_src_begin 0 (set_buff_state BUFF_READY (Seeder.set_is_on false s))) /\
    used_indices (seeders_list x') = Done us' /\ (wrap16 n ∉ us') /\
    pool_grains x' = Done gs' /\ grains_cnt x' = Z.of_nat (length gs').
Proof.
  intros Hwf Hpwf Hs Hgs gs'.
  destruct (registry_wf_lists _ Hwf) as (us & es & Hreg).
  destruct (pool_wf_lists _ Hpwf) as (gus & ges & Hpool).
  pose proof (rd_Done _ _ _ Hs) as Hin.
  pose proof Hreg as (Hr & Hl & Hlen & Hc & Hm & Hf).
  set (i := wrap16 n) in *.
  assert (granular_check_args x [A_LONG n; a1; a2] 3 = Done i) as Hcheck.
  { unfold granular_check_args. simpl length. change (Z.of_nat 3 =? 3) with true. cbn [negb].
    change (rd [A_LONG n; a1; a2] 0) with (Done (A_LONG n)).
    cbn [bind is_A_LONG negb atom_getlong]. fold i.
    unfold in_range in Hin.
    destruct (Z.ltb_spec i 0); [lia|].
    destruct (Z.leb_spec (seeders_max x) i); [lia|]. reflexivity. }
  assert ((i =? ERR_ARG) = false) as Herr.
  { unfold in_range in Hin. apply Z.eqb_neq. unfold ERR_ARG. lia. }
  unfold granular_file. rewrite Hcheck. cbn [bind]. rewrite Herr. rewrite Hs. cbn [bind].
  pose proof (pool_grains_lists _ _ _ _ Hpool Hgs) as Hread.
  destruct (Seeder.is_on s) eqn:Eon; subst gs'; cbv iota.
  - (* the seeder was on *)
    destruct (purge_loop i gus (budget (grains_list x)) x [] ges Hpool)
      as (x1 & node1 & ges1 & Hloop & Hpool1 & Ha1 & Hgm1 & Hsa1 & Hsl1 & Hsc1 & Hsm1 & _).
    { destruct Hpool as (Hpr & _). eapply repr_budget_used; eauto. }
    destruct (seeder_off_step x us es i s Hreg Hs Eon)
      as (pre & post & l' & Hus & Hrem & Hne & Hw & Hreg1).
    unfold purge_grains. simpl in Hloop. rewrite Hloop. cbn [bind].
    rewrite Hsl1, Hrem. cbn [bind]. rewrite Hsc1, Hw.
    unfold update_seeder. cbn [seeders_arr set_seeders_active].
    rewrite Hsa1, Hs. cbn [bind]. rewrite wr_in_range by assumption.
    cbn [bind seeders_arr set_seeders_arr].
    rewrite rd_upd_eq by assumption. cbn [bind].
    rewrite wr_in_range by (rewrite in_range_upd; assumption). cbn [bind].
    eexists. exists (pre ++ post). split; [reflexivity|].
    assert (i ∉ pre ++ post) as Hfresh.
    { destruct (heads_fresh _ _ _ Hr) as (Hnd & _). subst us.
      apply NoDup_app in Hnd as (Hnd & _ & _).
      apply NoDup_app in Hnd as (_ & Hdis & Hnd2). apply NoDup_cons in Hnd2 as (Hn2 & _).
      intros Hx. apply elem_of_app in Hx as [Hx|Hx]; [|contradiction].
      apply (Hdis i Hx). left. }
    split.
    { eapply registry_lists_wf.
      assert (registry
                (set_seeders_arr (upd (seeders_arr x) i (Seeder.set_is_on false s))
                   (set_seeders_active (seeders_cnt x - 1) l' x1)) (pre ++ post) (i :: es))
        as Hreg2.
      { eapply registry_frame; [exact Hreg1|reflexivity|reflexivity|reflexivity|].
        simpl. assumption. }
      pose proof (registry_same_flag _ _ _ i (Seeder.set_is_on false s)
                    (Seeder.set_src_begin 0
                       (set_buff_state BUFF_READY (Seeder.set_is_on false s)))
                    Hreg2 ltac:(simpl; apply rd_upd_eq; assumption) eq_refl) as Hreg3.
      exact Hreg3. }
    split.
    { eapply pool_lists_wf. eapply pool_frame; [exact Hpool1| | | |]; reflexivity. }
    split.
    { simpl. unfold upd. rewrite list_insert_insert_eq. reflexivity. }
    split; [destruct Hreg1 as (Hr1 & _); apply (repr_used_indices _ _ _ Hr1)|].
    split; [assumption|].
    pose proof (read_all_other_slots _ i _ _ Hread) as Hkept.
    split.
    + unfold pool_grains. simpl. destruct Hpool1 as (Hr1 & _).
      rewrite (repr_used_indices _ _ _ Hr1). cbn [bind]. rewrite Ha1. exact Hkept.
    + simpl. destruct Hpool1 as (_ & _ & _ & Hc1 & _). rewrite Hc1. simpl.
      rewrite (read_all_length _ _ _ Hkept). reflexivity.
  - (* the seeder was off *)
    cbn [bind]. unfold update_seeder. rewrite Hs. cbn [bind].
    rewrite wr_in_range by assumption. cbn [bind].
    eexists. exists us. split; [reflexivity|].
    split.
    { eapply registry_lists_wf.
      exact (registry_same_flag _ _ _ i s
               (Seeder.set_src_begin 0 (set_buff_state BUFF_READY s)) Hreg Hs eq_refl). }
    split; [eapply pool_lists_wf; eapply pool_frame; [exact Hpool| | | |]; reflexivity|].
    split.
    { simpl. rewrite <- Eon. rewrite set_is_on_same. reflexivity. }
    split; [apply (repr_used_indices _ _ _ Hr)|].
    split; [intros Hx; apply (Hf i s Hs) in Hx; congruence|].
    split; [unfold pool_grains in *; simpl; exact Hgs|].
    simpl. destruct Hpool as (_ & _ & _ & Hc1 & _). rewrite Hc1.
    rewrite (read_all_length _ _ _ Hread). reflexivity.
Qed.

(** The full pool of the example object is well formed. *)
Lemma object_full_pool_wf : pool_wf Example.object_full.
Proof.
  exists [1; 0], []. split; [reflexivity|]. split; [reflexivity|].
  split; [apply (bool_decide_unpack _); vm_compute; exact I|].
  repeat split; try reflexivity. unfold INT16_MAX. simpl. lia.
Qed.

Lemma file_resets_seeder_example :
  exists x' us',
    granular_file Example.object_full [A_LONG 0; A_SYM "a.wav"; A_SYM "/tmp/a.wav"]
    = Done x' /\
    registry_wf x' /\ pool_wf x' /\
    seeders_arr x'
    = upd (seeders_arr Example.object_full) (wrap16 0)
        (Seeder.set_src_begin 0
           (set_buff_state BUFF_READY (Seeder.set_is_on false Example.seeder_a))) /\
    used_indices (seeders_list x') = Done us' /\ (wrap16 0 ∉ us') /\
    pool_grains x' = Done [] /\ grains_cnt x' = Z.of_nat (length (@nil t_grain)).
Proof.
  exact (file_resets_seeder Example.object_full 0 (A_SYM "a.wav") (A_SYM "/tmp/a.wav")
           Example.seeder_a (replicate 2 (new_grain Example.seeder_a 0 0))
           object_a_registry_wf object_full_pool_wf eq_refl eq_refl).
Defined.


(* ===================================================================== *)
(** * A grain in a block                                                  *)
(* ===================================================================== *)

Section Render.
Context `{Host}.



End Render.


